(** * Data-parallel model construction (caffe2/python/data_parallel_model.py)

    A shallow embedding of the graph-construction code of
    [data_parallel_model.py] and the properties of its grouping, ordering,
    synchronisation and validation passes.

    Conventions of the embedding.
    - A [BlobReference] is identified with its name: in caffe2 two blob
      references are equal, and hash equally, exactly when their names are.
    - Python exceptions are values of [exn]; a function that can raise
      returns a [result].
    - Graph construction mutates the model object and the nets it owns.
      Those functions live in the monad [M], a state monad over [World]
      whose state survives an exception, as Python's heap does.
    - [OrderedDict] and [dict] are association lists kept in insertion
      order; assigning to an existing key replaces the value in place.
      The source only relies on the order of a plain [dict] through
      [values()[0]], whose choice no property below depends on.
    - The module is Python 2: [keys()] and [values()] answer lists, so
      [model._param_names] is a snapshot of the keys at that point.
    - A Python [float] is an IEEE 754 binary64, with the operations of
      the Standard Library's [SpecFloat].
    - Logging ([log.info], [log.warn]) is not modelled. *)

From Stdlib Require Import List String Ascii ZArith QArith Lia Bool Arith PeanoNat.
From Stdlib Require Import DecimalString.
From Stdlib Require DecimalZ DecimalPos.
From Stdlib Require Import SpecFloat.
Import ListNotations.

Open Scope string_scope.
Open Scope nat_scope.
Open Scope list_scope.

Set Implicit Arguments.

(** ** Exceptions and results *)

Inductive DeviceType := CPU | CUDA.

Record DeviceOption := mkDeviceOption {
  device_type : DeviceType;
  cuda_gpu_id : Z
}.

(** Argument values of an operator ([value=0.0], [shape=[1]], [size=..]). *)
Inductive Arg :=
| ArgF (q : Q)
| ArgI (z : Z)
| ArgInts (zs : list Z)
| ArgS (s : string).

(** An operator of a net, as [OperatorDef] has it. *)
Record OperatorDef := mkOp {
  op_type : string;
  input : list string;
  output : list string;
  op_name : string;
  control_input : list string;
  device_option : DeviceOption;
  arg : list (string * Arg)
}.

Inductive exn :=
| AssertionError (msg : string)
| ValueError (msg : string)
| KeyError (key : string)
| IndexError
| ZeroDivisionError
(** [Exception("Blob {} of op {}, should have namescope {}. Op: {}")],
    kept as the four values the message is formatted from. *)
| ScopeException (blob optype namescope : string) (op : OperatorDef)
(** An exception raised by code outside this module (a caller's callback). *)
| ExternalError (msg : string)
(** [OverflowError]: an integer too large to convert to a float. *)
| OverflowError.

Inductive result (A : Type) :=
| Ok (a : A)
| Raise (e : exn).

Arguments Ok {A} a.
Arguments Raise {A} e.

Definition rbind {A B} (r : result A) (k : A -> result B) : result B :=
  match r with
  | Ok a => k a
  | Raise e => Raise e
  end.

Declare Scope result_scope.
Delimit Scope result_scope with res.
Notation "x <- r ;; k" := (rbind r (fun x => k))
  (at level 61, r at next level, right associativity) : result_scope.
Notation "'assert_' b 'or' msg ;; k" :=
  (if b then k else Raise (AssertionError msg))
  (at level 61, b at next level, msg at next level, right associativity) : result_scope.

Definition is_ok {A} (r : result A) : bool :=
  match r with Ok _ => true | Raise _ => false end.

Definition is_assertion_error {A} (r : result A) : bool :=
  match r with Raise (AssertionError _) => true | _ => false end.

(** ** Floats

    A Python [float] is an IEEE 754 binary64: 53 bits of mantissa, the
    exponent of the infinities 1024, results rounded to nearest, ties to
    even.  A finite float [S754_finite s m e] is [(-1)^s * m * 2^e]. *)
Definition float := spec_float.
Definition float_prec : Z := 53.
Definition float_emax : Z := 1024.

(** [1.0] *)
Definition float_one : float := S754_finite false 4503599627370496 (-52).

(** [float(z)] as the division converts its integer operand: rounded to
    nearest; an integer beyond the largest float raises. *)
Definition float_of_int (z : Z) : result float :=
  match binary_normalize float_prec float_emax z 0 false with
  | S754_infinity _ => Raise OverflowError
  | f => Ok f
  end.

(** [x / z] for a float [x] and an integer [z]: the integer is converted,
    a zero divisor raises, the quotient is rounded. *)
Definition float_div_int (x : float) (z : Z) : result float :=
  (y <- float_of_int z ;;
   if (z =? 0)%Z then Raise ZeroDivisionError
   else Ok (SFdiv float_prec float_emax x y))%res.

(** ** Strings: the pieces of Python's [str] the module uses *)

Definition BlobReference := string.

(** [scope._NAMESCOPE_SEPARATOR]; the module itself writes it out as a
    slash in ["gpu_{}/"]. *)
Definition _NAMESCOPE_SEPARATOR : ascii := "/"%char.

(** ["{}".format(n)] for an integer. *)
Definition fmt (z : Z) : string := NilZero.string_of_int (Z.to_int z).

(** [sub in s] *)
Fixpoint contains (sub s : string) : bool :=
  prefix sub s ||
  match s with
  | EmptyString => false
  | String _ s' => contains sub s'
  end.

(** [s.startswith(p)] *)
Definition startswith (s p : string) : bool := prefix p s.

(** [s.rfind(c)], [None] for [-1]. *)
Fixpoint rfind (c : ascii) (s : string) : option nat :=
  match s with
  | EmptyString => None
  | String a s' =>
      match rfind c s' with
      | Some i => Some (S i)
      | None => if Ascii.eqb a c then Some 0 else None
      end
  end.

(** [s.rindex(c)] raises where [rfind] answers [-1]. *)
Definition rindex (c : ascii) (s : string) : result nat :=
  match rfind c s with
  | Some i => Ok i
  | None => Raise (ValueError "substring not found")
  end.

(** [s[i:]] and [s[:i]] *)
Definition slice_from (i : nat) (s : string) : string :=
  substring i (String.length s - i) s.
Definition slice_to (i : nat) (s : string) : string :=
  substring 0 i s.

(** A helper function to extract a parameter's name: ["a/b/c/d" -> "d"]. *)
Definition stripParamName (param : BlobReference) : result string :=
  (i <- rindex _NAMESCOPE_SEPARATOR param ;;
   Ok (slice_from (i + 1) param))%res.

(** Modelled from the spec: [BlobReference.GetNameScope] belongs to
    [core.py], which is not among the sources.  A handle's name is a
    namespace prefix followed by a canonical suffix; the name scope is the
    prefix, up to and including the last separator (empty when the name
    has none). *)
Definition GetNameScope (p : BlobReference) : string :=
  match rfind _NAMESCOPE_SEPARATOR p with
  | Some i => slice_to (i + 1) p
  | None => ""
  end.

(** ["gpu_{}/".format(d)] *)
Definition gpu_namescope (d : Z) : string := ("gpu_" ++ fmt d ++ "/")%string.

(** ** Insertion-ordered dictionaries *)

Section Dict.
Variables K V : Type.
Variable eqb : K -> K -> bool.

Definition dict := list (K * V).

Fixpoint dget (d : dict) (k : K) : option V :=
  match d with
  | [] => None
  | (k', v) :: r => if eqb k' k then Some v else dget r k
  end.

Fixpoint dset (d : dict) (k : K) (v : V) : dict :=
  match d with
  | [] => [(k, v)]
  | (k', v') :: r => if eqb k' k then (k', v) :: r else (k', v') :: dset r k v
  end.

Definition dmem (d : dict) (k : K) : bool :=
  match dget d k with Some _ => true | None => false end.

Definition dkeys (d : dict) : list K := map fst d.
Definition dvalues (d : dict) : list V := map snd d.

(** [d.update(d2)] *)
Definition dupdate (d d2 : dict) : dict :=
  fold_left (fun acc kv => dset acc (fst kv) (snd kv)) d2 d.
End Dict.

(** [{device: BlobReference}] and [OrderedDict: name -> {device: BlobReference}] *)
Definition DeviceBlobs := dict Z BlobReference.
Definition Grouped := dict string DeviceBlobs.

Definition dev_get (ps : DeviceBlobs) (d : Z) := dget Z.eqb ps d.
Definition dev_set (ps : DeviceBlobs) (d : Z) (p : BlobReference) := dset Z.eqb ps d p.
Definition grp_get (g : Grouped) (k : string) := dget String.eqb g k.
Definition grp_set (g : Grouped) (k : string) (ps : DeviceBlobs) := dset String.eqb g k ps.
Definition grp_mem (g : Grouped) (k : string) := dmem String.eqb g k.

(** ** [_GroupByDevice] *)

Definition scope_msg (p : BlobReference) (gpuid : Z) : string :=
  ("Param " ++ p ++ " expected to have namescope 'gpu_" ++ fmt gpuid ++ "'")%string.

(** The first loop: [for i, p in enumerate(params)]. *)
Fixpoint group_loop (devices : list Z) (num_params_per_device : nat)
    (i : nat) (params : list BlobReference) (grouped : Grouped)
    : result Grouped :=
  match params with
  | [] => Ok grouped
  | p :: rest =>
      (name <- stripParamName p ;;
       if num_params_per_device =? 0 then Raise ZeroDivisionError else
       match nth_error devices (i / num_params_per_device) with
       | None => Raise IndexError
       | Some gpuid =>
           assert_ contains (gpu_namescope gpuid) (GetNameScope p)
             or scope_msg p gpuid ;;
           let grouped1 :=
             if grp_mem grouped name then grouped else grp_set grouped name [] in
           match grp_get grouped1 name with
           | None => Raise (KeyError name)
           | Some ps =>
               group_loop devices num_params_per_device (S i) rest
                 (grp_set grouped1 name (dev_set ps gpuid p))
           end
       end)%res
  end.

(** The second loop: [for j, (p, ps) in enumerate(grouped.items())]. *)
Fixpoint check_loop (devices : list Z) (params : list BlobReference)
    (j : nat) (items : Grouped) : result unit :=
  match items with
  | [] => Ok tt
  | (p, ps) :: rest =>
      (assert_ (List.length ps =? List.length devices)
         or ("Param " ++ p ++ " does not have value for each device")%string ;;
       match nth_error devices 0 with
       | None => Raise IndexError
       | Some d0 =>
           match dev_get ps d0 with
           | None => Raise (KeyError (fmt d0))
           | Some h =>
               match nth_error params j with
               | None => Raise IndexError
               | Some pj =>
                   assert_ String.eqb h pj or "" ;;
                   check_loop devices params (S j) rest
               end
           end
       end)%res
  end.

(** Groups blobs by device, returning a map of
    [[blobname] = {0: BlobRef, 1: ..}], in the original order.
    [isinstance(p, core.BlobReference)] holds by typing. *)
Definition _GroupByDevice (devices : list Z) (params : list BlobReference)
    : result Grouped :=
  if List.length devices =? 0 then Raise ZeroDivisionError else
  (assert_ (List.length params mod List.length devices =? 0)
     or "There should be equal number of params per device" ;;
   let num_params_per_device := List.length params / List.length devices in
   grouped <- group_loop devices num_params_per_device 0 params [] ;;
   _ <- check_loop devices params 0 grouped ;;
   Ok grouped)%res.

(** ** Nets, the model object and the world *)

(** The rendezvous dictionary:
    [{kv_handler, num_shards, shard_id, engine}]. *)
Record Rendezvous := mkRendezvous {
  kv_handler : BlobReference;
  num_shards : Z;
  shard_id : Z;
  engine : string
}.

(** Modelled from the spec: [core.Net] belongs to [core.py], which is not
    among the sources.  A net is the static operator graph handed to the
    executor: its name, its operators in insertion order, and the fields
    of its [Proto()] the module reads or writes. *)
Record NetDef := mkNetDef {
  net_name : string;
  op : list OperatorDef;
  num_workers : Z;
  net_type : string;
  net_device_option : option DeviceOption;
  net_arg : list (string * Arg)
}.

(** [core.Net(name)] *)
Definition new_net (name : string) : NetDef := mkNetDef name [] 0 "" None [].

Definition add_op (o : OperatorDef) (n : NetDef) : NetDef :=
  mkNetDef (net_name n) (op n ++ [o]) (num_workers n) (net_type n)
    (net_device_option n) (net_arg n).

(** The net objects a model can reach.  Nets are passed around by
    reference ([_AddDistributedParameterSync] receives the same net twice
    from [Parallelize_GPU]), so they live in a store indexed by [NetRef]. *)
Inductive NetRef :=
| net                  (* model.net *)
| param_init_net       (* model.param_init_net *)
| _checkpoint_net      (* model._checkpoint_net *)
| checkpoint_init_net. (* the local of FinalizeAfterCheckpoint *)

Definition NetRef_eqb (a b : NetRef) : bool :=
  match a, b with
  | net, net | param_init_net, param_init_net
  | _checkpoint_net, _checkpoint_net
  | checkpoint_init_net, checkpoint_init_net => true
  | _, _ => false
  end.

Record ModelHelper := mkModel {
  nets : NetRef -> NetDef;
  params : list BlobReference;
  computed_params : list BlobReference;
  param_to_grad : dict BlobReference BlobReference;
  _devices : list Z;
  _rendezvous : option Rendezvous;
  _grad_names : list string;
  _param_names : list string;
  _computed_param_names : list string;
  _device_grouped_blobs : Grouped;
  (** [hasattr(model, "_checkpoint_net")] *)
  has_checkpoint_net : bool
}.

Definition set_nets f (m : ModelHelper) :=
  mkModel f (params m) (computed_params m) (param_to_grad m) (_devices m)
    (_rendezvous m) (_grad_names m) (_param_names m) (_computed_param_names m)
    (_device_grouped_blobs m) (has_checkpoint_net m).
Definition set_devices v (m : ModelHelper) :=
  mkModel (nets m) (params m) (computed_params m) (param_to_grad m) v
    (_rendezvous m) (_grad_names m) (_param_names m) (_computed_param_names m)
    (_device_grouped_blobs m) (has_checkpoint_net m).
Definition set_rendezvous v (m : ModelHelper) :=
  mkModel (nets m) (params m) (computed_params m) (param_to_grad m) (_devices m)
    v (_grad_names m) (_param_names m) (_computed_param_names m)
    (_device_grouped_blobs m) (has_checkpoint_net m).
Definition set_grad_names v (m : ModelHelper) :=
  mkModel (nets m) (params m) (computed_params m) (param_to_grad m) (_devices m)
    (_rendezvous m) v (_param_names m) (_computed_param_names m)
    (_device_grouped_blobs m) (has_checkpoint_net m).
Definition set_param_names v (m : ModelHelper) :=
  mkModel (nets m) (params m) (computed_params m) (param_to_grad m) (_devices m)
    (_rendezvous m) (_grad_names m) v (_computed_param_names m)
    (_device_grouped_blobs m) (has_checkpoint_net m).
Definition set_computed_param_names v (m : ModelHelper) :=
  mkModel (nets m) (params m) (computed_params m) (param_to_grad m) (_devices m)
    (_rendezvous m) (_grad_names m) (_param_names m) v
    (_device_grouped_blobs m) (has_checkpoint_net m).
Definition set_device_grouped_blobs v (m : ModelHelper) :=
  mkModel (nets m) (params m) (computed_params m) (param_to_grad m) (_devices m)
    (_rendezvous m) (_grad_names m) (_param_names m) (_computed_param_names m)
    v (has_checkpoint_net m).
Definition set_has_checkpoint_net v (m : ModelHelper) :=
  mkModel (nets m) (params m) (computed_params m) (param_to_grad m) (_devices m)
    (_rendezvous m) (_grad_names m) (_param_names m) (_computed_param_names m)
    (_device_grouped_blobs m) v.

Definition set_net (r : NetRef) (n : NetDef) (m : ModelHelper) : ModelHelper :=
  set_nets (fun r' => if NetRef_eqb r' r then n else nets m r') m.

(** The device scope and name scope a callback is invoked under. *)
Definition Scope := (DeviceOption * string)%type.

(** Modelled from the spec: the caller's callbacks, the model's and
    memonger's gradient machinery and the workspace ([RunNetOnce],
    [CreateNet], [RunNet]) are collaborators outside the sources.  What
    the construction asks of them is recorded, call by call, in an event
    log. *)
Inductive Event :=
| Call_input_builder_fun (s : Scope)
| Call_forward_pass_builder_fun (s : Scope)
| Call_param_update_builder_fun (s : Scope) (lr_scale : float)
| Call_AddGradientOperators (loss_grad : dict string string)
| Call_share_grad_blobs (namescope : string)
| RunNetOnce (n : NetDef)
| CreateNet (n : NetDef)
| RunNet (name : string).

Record World := mkWorld {
  model : ModelHelper;
  events : list Event
}.

(** ** The construction monad *)

Definition M (A : Type) := World -> World * result A.

Definition ret {A} (a : A) : M A := fun w => (w, Ok a).
Definition raise {A} (e : exn) : M A := fun w => (w, Raise e).
Definition bind {A B} (c : M A) (k : A -> M B) : M B :=
  fun w =>
    match c w with
    | (w', Ok a) => k a w'
    | (w', Raise e) => (w', Raise e)
    end.

Declare Scope M_scope.
Delimit Scope M_scope with M.
Notation "x <- c ;; k" := (bind c (fun x => k))
  (at level 61, c at next level, right associativity) : M_scope.
Notation "c ;; k" := (bind c (fun _ => k))
  (at level 61, right associativity) : M_scope.

Definition gets {A} (f : ModelHelper -> A) : M A := fun w => (w, Ok (f (model w))).
Definition modify (f : ModelHelper -> ModelHelper) : M unit :=
  fun w => (mkWorld (f (model w)) (events w), Ok tt).
Definition log_event (e : Event) : M unit :=
  fun w => (mkWorld (model w) (events w ++ [e]), Ok tt).
Definition lift {A} (r : result A) : M A := fun w => (w, r).
Definition assert_M (b : bool) (msg : string) : M unit :=
  if b then ret tt else raise (AssertionError msg).

(** [for x in l: f(x)] *)
Fixpoint forM_ {A} (l : list A) (f : A -> M unit) : M unit :=
  match l with
  | [] => ret tt
  | x :: r => (f x ;; forM_ r f)%M
  end.

(** A [for] loop that updates local variables [s]. *)
Fixpoint foldM {A S} (l : list A) (f : A -> S -> M S) (s : S) : M S :=
  match l with
  | [] => ret s
  | x :: r => (s' <- f x s ;; foldM r f s')%M
  end.

(** [l[i]] *)
Definition index {A} (l : list A) (i : nat) : M A :=
  match nth_error l i with
  | Some a => ret a
  | None => raise IndexError
  end.

(** ** Emitting operators *)

(** Modelled from the spec: operator creation ([net.Copy(...)],
    [net.Allreduce(...)], and the model's forwarding of an operator name
    to [model.net]) belongs to [core.py] and the model helper, which are
    not among the sources.  Inserting an operator is pure graph
    insertion: it is appended to its net with the given inputs and
    outputs, the device option of the enclosing [DeviceScope], and its
    "run after" blob, if any, as control input. *)
Definition emit (r : NetRef) (o : OperatorDef) : M unit :=
  modify (fun m => set_net r (add_op o (nets m r)) m).

(** [control_input=None] adds no control input. *)
Definition ctrl (c : option BlobReference) : list string :=
  match c with
  | Some b => [b]
  | None => []
  end.

Definition cuda (d : Z) : DeviceOption := mkDeviceOption CUDA d.
Definition cpu : DeviceOption := mkDeviceOption CPU 0.

Definition DeviceOption_eqb (a b : DeviceOption) : bool :=
  match device_type a, device_type b with
  | CPU, CPU | CUDA, CUDA => Z.eqb (cuda_gpu_id a) (cuda_gpu_id b)
  | _, _ => false
  end.

Definition Copy (dev : DeviceOption) (src dst : BlobReference) : OperatorDef :=
  mkOp "Copy" [src] [dst] "" [] dev [].
Definition CopyGPUToCPU (dev : DeviceOption) (src dst : BlobReference) : OperatorDef :=
  mkOp "CopyGPUToCPU" [src] [dst] "" [] dev [].
Definition CopyCPUToGPU (dev : DeviceOption) (src dst : BlobReference) : OperatorDef :=
  mkOp "CopyCPUToGPU" [src] [dst] "" [] dev [].
Definition ConstantFill (dev : DeviceOption) (ins : list BlobReference)
    (out : BlobReference) (args : list (string * Arg)) : OperatorDef :=
  mkOp "ConstantFill" ins [out] "" [] dev args.
Definition NCCLAllreduce (dev : DeviceOption) (group : list BlobReference)
    (control : option BlobReference) : OperatorDef :=
  mkOp "NCCLAllreduce" group group "" (ctrl control) dev [].
Definition CreateCommonWorld (dev : DeviceOption) (rendezvous : Rendezvous)
    (world name : string) : OperatorDef :=
  mkOp "CreateCommonWorld" [kv_handler rendezvous] [world] name [] dev
    [("size", ArgI (num_shards rendezvous));
     ("rank", ArgI (shard_id rendezvous));
     ("engine", ArgS (engine rendezvous))].
Definition Broadcast (dev : DeviceOption) (comm_world blob : BlobReference)
    (eng : string) : OperatorDef :=
  mkOp "Broadcast" [comm_world; blob] [blob] "" [] dev [("engine", ArgS eng)].
Definition Allreduce (dev : DeviceOption) (comm_world blob : BlobReference)
    (eng : string) (control : option BlobReference) : OperatorDef :=
  mkOp "Allreduce" [comm_world; blob] [blob] "" (ctrl control) dev
    [("engine", ArgS eng)].

(** [model._device_grouped_blobs[name][d]] *)
Definition grouped_blob (name : string) (d : Z) : M BlobReference :=
  (g <- gets _device_grouped_blobs ;;
   match grp_get g name with
   | None => raise (KeyError name)
   | Some ps =>
       match dev_get ps d with
       | None => raise (KeyError (fmt d))
       | Some b => ret b
       end
   end)%M.

(** [model._device_grouped_blobs[name].values()] *)
Definition grouped_values (name : string) : M (list BlobReference) :=
  (g <- gets _device_grouped_blobs ;;
   match grp_get g name with
   | None => raise (KeyError name)
   | Some ps => ret (dvalues ps)
   end)%M.

(** ** Broadcasting from the master device *)

(** Copy params from gpu_0 to other. *)
Definition _Broadcast (devices : list Z) (n : NetRef) (param : string) : M unit :=
  (master_gpu <- index devices 0 ;;
   forM_ (tl devices) (fun gpu_idx =>
     src <- grouped_blob param master_gpu ;;
     dst <- grouped_blob param gpu_idx ;;
     emit n (Copy (cuda gpu_idx) src dst)))%M.

Definition _SyncParams (devices : list Z) (n : NetRef)
    (unique_param_names : option (list string)) : M unit :=
  (names <- match unique_param_names with
            | None => gets _param_names
            | Some l => ret l
            end ;;
   forM_ names (fun param => _Broadcast devices n param))%M.

(** [sorted(names)] *)
Fixpoint insert_sorted (s : string) (l : list string) : list string :=
  match l with
  | [] => [s]
  | x :: r => if String.leb s x then s :: l else x :: insert_sorted s r
  end.
Definition sorted (l : list string) : list string :=
  fold_right insert_sorted [] l.

Definition iter_blob (d : Z) : string := ("gpu_" ++ fmt d ++ "/ITER")%string.

Definition _AddDistributedParameterSync (devices : list Z)
    (init_net n : NetRef) (rendezvous : Rendezvous)
    (uniq_param_names : option (list string)) : M unit :=
  (uniq_param_names <- match uniq_param_names with
                       | None => gets _param_names
                       | Some l => ret l
                       end ;;
   d0 <- index devices 0 ;;
   let device_opt := cuda d0 in
   (* ITER is in CPU scope *)
   net_proto_name <- gets (fun m => net_name (nets m n)) ;;
   emit init_net (CreateCommonWorld cpu rendezvous "iter_cw"
                    (net_proto_name ++ ".iter_cw_op")%string) ;;
   emit n (Broadcast cpu "iter_cw" (iter_blob d0) (engine rendezvous)) ;;
   forM_ (sorted uniq_param_names) (fun param_name =>
     param <- grouped_blob param_name d0 ;;
     let param_cpu := (param ++ "cpu")%string in
     emit n (CopyGPUToCPU device_opt param param_cpu) ;;
     net_proto_name <- gets (fun m => net_name (nets m n)) ;;
     let comm_world := (param_name ++ "_cw")%string in
     emit init_net (CreateCommonWorld cpu rendezvous comm_world
                      (net_proto_name ++ "." ++ param_name ++ "_cw_op")%string) ;;
     (* Temp: copy to CPU *)
     emit n (Broadcast cpu comm_world param_cpu (engine rendezvous)) ;;
     emit n (CopyCPUToGPU device_opt param_cpu param)))%M.

(** ** Gradient synchronisation *)

(** Returns the gradients in reverse order (namespace stripped),
    for the optimal synchronization order. *)
Definition _GetReverseOrderedGrads (m : ModelHelper) : list string :=
  rev (_grad_names m).

(** [s.replace(old, new)] for a non-empty [old]; [skip] counts the
    characters of a match still to be dropped. *)
Fixpoint replace_from (old new : string) (skip : nat) (s : string) : string :=
  match s with
  | EmptyString => EmptyString
  | String c s' =>
      match skip with
      | S k => replace_from old new k s'
      | O =>
          if prefix old s
          then (new ++ replace_from old new (String.length old - 1) s')%string
          else String c (replace_from old new 0 s')
      end
  end.
Definition str_replace (s old new : string) : string := replace_from old new 0 s.

(** [l[i] = x] *)
Fixpoint list_set {A} (l : list A) (i : nat) (x : A) : result (list A) :=
  match l, i with
  | [], _ => Raise IndexError
  | _ :: r, O => Ok (x :: r)
  | y :: r, S i' =>
      match list_set r i' x with
      | Ok r' => Ok (y :: r')
      | Raise e => Raise e
      end
  end.

(** The locals the distributed loop carries from one gradient to the next. *)
Record LoopVars := mkLoopVars {
  cyclical_controls : list string;
  counter : nat;
  nccl_control_blob : option BlobReference
}.

(** [min(4, num_workers - 1)], at least one once [num_workers > 1] holds. *)
Definition num_controls_of (workers : Z) : nat := Z.to_nat (Z.min 4 (workers - 1)).

Definition distributed_body (devices : list Z) (rendezvous : Rendezvous)
    (d0 : Z) (num_controls : nat) (grad_name : string) (v : LoopVars)
    : M LoopVars :=
  let all_reduce_engine := engine rendezvous in
  let master_device_opt := cuda d0 in
  let reducing_device_opt :=
    if String.eqb all_reduce_engine "RDMA_TCP" then cpu else master_device_opt in
  (d0' <- index devices 0 ;;
   master_grad <- grouped_blob grad_name d0' ;;
   grads_group <- grouped_values grad_name ;;
   assert_M (existsb (String.eqb master_grad) grads_group) "" ;;
   (* NCCLReduce does not support in-place modifications,
      so we need a temporary gradient blob *)
   let reduced_grad := (master_grad ++ "_red")%string in
   emit net (ConstantFill master_device_opt [master_grad] reduced_grad
               [("value", ArgF 0)]) ;;
   emit net (NCCLAllreduce master_device_opt grads_group (nccl_control_blob v)) ;;
   first <- index grads_group 0 ;;
   let nccl_control_blob' := Some first in
   emit net (Copy master_device_opt master_grad reduced_grad) ;;
   (* RDMA_TCP works only on CPU context: a cpu-bound scratch blob *)
   reduced_grad <-
     (if String.eqb all_reduce_engine "RDMA_TCP" then
        emit param_init_net
          (ConstantFill reducing_device_opt [] (reduced_grad ++ "cpu")%string
             [("shape", ArgInts [1%Z]); ("value", ArgF 0)]) ;;
        emit param_init_net
          (CopyGPUToCPU master_device_opt (str_replace master_grad "_grad" "")
             (reduced_grad ++ "cpu")%string) ;;
        emit net (CopyGPUToCPU master_device_opt reduced_grad
                    (reduced_grad ++ "cpu")%string) ;;
        ret (reduced_grad ++ "cpu")%string
      else ret reduced_grad) ;;
   control_input <-
     (if List.length (cyclical_controls v) <? num_controls then ret None
      else
        c <- index (cyclical_controls v) (counter v mod num_controls) ;;
        ret (Some c)) ;;
   (* Step 2: allreduce between all hosts, between master GPUs *)
   let comm_world := (grad_name ++ "_cw")%string in
   emit param_init_net
     (CreateCommonWorld reducing_device_opt rendezvous comm_world
        (grad_name ++ "_cw_op")%string) ;;
   emit net (Allreduce reducing_device_opt comm_world reduced_grad
               all_reduce_engine control_input) ;;
   (if negb (DeviceOption_eqb reducing_device_opt master_device_opt)
    then emit net (CopyCPUToGPU master_device_opt reduced_grad master_grad)
    else emit net (Copy master_device_opt reduced_grad master_grad)) ;;
   cyclical_controls' <-
     (if List.length (cyclical_controls v) <? num_controls
      then ret (cyclical_controls v ++ [reduced_grad])
      else lift (list_set (cyclical_controls v) (counter v mod num_controls)
                   reduced_grad)) ;;
   let counter' := counter v + 1 in
   (* Step 3: broadcast locally *)
   _Broadcast devices net grad_name ;;
   ret (mkLoopVars cyclical_controls' counter' nccl_control_blob'))%M.

Definition _AllReduceGradientsDistributed (devices : list Z)
    (rendezvous : Rendezvous) : M unit :=
  (workers <- gets (fun m => num_workers (nets m net)) ;;
   assert_M (1 <? workers)%Z "Please specify more than 1 worker" ;;
   (* Make list of gradients in reverse order *)
   reverse_ordered_grads <- gets _GetReverseOrderedGrads ;;
   (* Step 1: sum gradients from local GPUs to master GPU *)
   d0 <- index devices 0 ;;
   (* a partial order through control_input, to ensure progress *)
   let num_controls := num_controls_of workers in
   _ <- foldM reverse_ordered_grads
          (distributed_body devices rendezvous d0 num_controls)
          (mkLoopVars [] 0 None) ;;
   ret tt)%M.

Definition single_host_body (devices : list Z) (d0 : Z) (grad_name : string)
    (last_out : option BlobReference) : M (option BlobReference) :=
  (* Group by grads for reduce. *)
  (grads_group <- grouped_values grad_name ;;
   assert_M (List.length grads_group =? List.length devices)
     ("Each GPU should have a copy of " ++ grad_name ++ ".")%string ;;
   emit net (NCCLAllreduce (cuda d0) grads_group last_out) ;;
   (* last_out is used to serialize the execution of nccls *)
   first <- index grads_group 0 ;;
   ret (Some first))%M.

(** Performs NCCL AllReduce to distribute gradients to all the GPUs. *)
Definition _AllReduceGradientsSingleHost (devices : list Z) : M unit :=
  if List.length devices =? 1 then ret tt else
  ((* Gradients in reverse order *)
   reverse_ordered_grads <- gets _GetReverseOrderedGrads ;;
   (* Pick GPU #0 as a master GPU. *)
   d0 <- index devices 0 ;;
   _ <- foldM reverse_ordered_grads (single_host_body devices d0) None ;;
   ret tt)%M.

Definition _AllReduceGradients (devices : list Z) (rendezvous : option Rendezvous)
    : M unit :=
  match rendezvous with
  | None => _AllReduceGradientsSingleHost devices
  | Some r => _AllReduceGradientsDistributed devices r
  end.

(** Copy computed params from the master device to the others. *)
Definition _BroadcastComputedParamsSingleHost (devices : list Z) : M unit :=
  if List.length devices =? 1 then ret tt else
  (names <- gets _computed_param_names ;;
   forM_ names (fun param_name => _Broadcast devices net param_name))%M.

(** The warning it logs is not modelled. *)
Definition _BroadcastComputedParamsDistributed (devices : list Z)
    (rendezvous : Rendezvous) : M unit :=
  _BroadcastComputedParamsSingleHost devices.

Definition _BroadcastComputedParams (devices : list Z)
    (rendezvous : option Rendezvous) : M unit :=
  match rendezvous with
  | None => _BroadcastComputedParamsSingleHost devices
  | Some r => _BroadcastComputedParamsDistributed devices r
  end.

(** ** The device-scope check *)

Definition check_blob (o : OperatorDef) (namescope inp : string) : result unit :=
  if startswith inp "gpu_" && negb (startswith inp namescope)
  then Raise (ScopeException inp (op_type o) namescope o)
  else Ok tt.

Fixpoint check_blobs (o : OperatorDef) (namescope : string) (l : list string)
    : result unit :=
  match l with
  | [] => Ok tt
  | inp :: r => (_ <- check_blob o namescope inp ;; check_blobs o namescope r)%res
  end.

Definition exempt_type (o : OperatorDef) : bool :=
  contains "NCCL" (op_type o) || contains "Copy" (op_type o).

Definition analyze_op (o : OperatorDef) : result unit :=
  if exempt_type o then Ok tt else
  let op_dev := device_option o in
  let op_gpu := cuda_gpu_id op_dev in
  (* This avoids failing on operators that are only for CPU *)
  match device_type op_dev with
  | CPU => Ok tt
  | CUDA => check_blobs o (gpu_namescope op_gpu) (input o ++ output o)
  end.

Fixpoint analyze_ops (ops : list OperatorDef) : result unit :=
  match ops with
  | [] => Ok tt
  | o :: r => (_ <- analyze_op o ;; analyze_ops r)%res
  end.

(** Look at all the operators and check that they do not cross device
    scopes.  [model.Proto()] is the proto of [model.net]. *)
Definition _AnalyzeOperators (m : ModelHelper) : result unit :=
  analyze_ops (op (nets m net)).

(** ** Checkpoint synchronisation *)

Fixpoint strip_all (blobs : list BlobReference) : result (list string) :=
  match blobs with
  | [] => Ok []
  | p :: r => (n <- stripParamName p ;; ns <- strip_all r ;; Ok (n :: ns))%res
  end.

(** [{d: BlobReference("gpu_{}{}{}".format(d, sep, name)) for d in devices}] *)
Definition synthesized (devices : list Z) (name : string) : DeviceBlobs :=
  fold_left
    (fun acc d => dev_set acc d (gpu_namescope d ++ name)%string)
    devices [].

(** Modelled from the spec: [net.RunAllOnGPU()] belongs to [core.py]; it
    marks the whole net for the accelerator. *)
Definition RunAllOnGPU (n : NetDef) : NetDef :=
  mkNetDef (net_name n) (op n) (num_workers n) (net_type n) (Some (cuda 0))
    (net_arg n).

(** Modelled from the spec: [model.GetDevices()] is a method of the model
    helper, which is not among the sources; it answers the ordered device
    list the replication pass recorded on the model. *)
Definition GetDevices : M (list Z) := gets _devices.

(** The body of [if not hasattr(model, "_checkpoint_net")]: builds the
    checkpoint synchronisation net. *)
Definition build_checkpoint_net (blobs : list BlobReference) (sync_iter : bool)
    : M unit :=
  (uniq_blob_names <- lift (strip_all blobs) ;;
   (* Synchronize to the blob lookup map, as the provided
      blobs might have non-parameters, such as momemtum blobs. *)
   devices <- GetDevices ;;
   forM_ uniq_blob_names (fun name =>
     g <- gets _device_grouped_blobs ;;
     if negb (grp_mem g name)
     then modify (set_device_grouped_blobs
                    (grp_set g name (synthesized devices name)))
     else ret tt) ;;
   modify (fun m =>
     set_has_checkpoint_net true
       (set_net _checkpoint_net (RunAllOnGPU (new_net "checkpoint_sync_net")) m)) ;;
   rendezvous <- gets _rendezvous ;;
   match rendezvous with
   | Some r =>
       modify (set_net checkpoint_init_net
                 (RunAllOnGPU (new_net "checkpoint_init_net"))) ;;
       _AddDistributedParameterSync devices checkpoint_init_net
         _checkpoint_net r (Some uniq_blob_names) ;;
       init <- gets (fun m => nets m checkpoint_init_net) ;;
       log_event (RunNetOnce init)
   | None => ret tt
   end ;;
   (* Setup sync of initial params *)
   _SyncParams devices _checkpoint_net (Some uniq_blob_names) ;;
   (* Sync ITER -- which is in CPU scope *)
   (if sync_iter then
      forM_ (tl devices) (fun gpu_idx =>
        d0 <- index devices 0 ;;
        emit _checkpoint_net (Copy cpu (iter_blob d0) (iter_blob gpu_idx)))
    else ret tt) ;;
   built <- gets (fun m => nets m _checkpoint_net) ;;
   log_event (CreateNet built))%M.

Definition FinalizeAfterCheckpoint (blobs : list BlobReference) (sync_iter : bool)
    : M unit :=
  (has <- gets has_checkpoint_net ;;
   (if negb has then build_checkpoint_net blobs sync_iter else ret tt) ;;
   (* Run the sync *)
   name <- gets (fun m => net_name (nets m _checkpoint_net)) ;;
   log_event (RunNet name))%M.

(** ** The replication driver *)

(** A callback handed to the driver: it runs under a device and name
    scope, may change the model in any way and may raise. *)
Definition Builder (A : Type) := Scope -> ModelHelper -> ModelHelper * result A.

(** Calling code that lives outside this module. *)
Definition call_external {A} (e : Event)
    (f : ModelHelper -> ModelHelper * result A) : M A :=
  fun w => let (m', r) := f (model w) in (mkWorld m' (events w ++ [e]), r).

Definition set_workers (workers : Z) (type : string) (n : NetDef) : NetDef :=
  mkNetDef (net_name n) (op n) workers type (net_device_option n) (net_arg n).

Definition add_net_arg (a : string * Arg) (n : NetDef) : NetDef :=
  mkNetDef (net_name n) (op n) (num_workers n) (net_type n)
    (net_device_option n) (net_arg n ++ [a]).

Definition replace_proto (p n : NetDef) : NetDef := p.

Definition is_nil {A} (l : list A) : bool :=
  match l with [] => true | _ => false end.

Definition device_scope (device : Z) : Scope :=
  (cuda device, ("gpu_" ++ fmt device)%string).

(** [1 if rendezvous is None else rendezvous['num_shards']] *)
Definition shards_of (rendezvous : option Rendezvous) : Z :=
  match rendezvous with
  | None => 1%Z
  | Some r => num_shards r
  end.

Section Parallelize.
(** [model.AddGradientOperators(loss_grad)] and
    [memonger.share_grad_blobs(net, losses, grads, namescope)] are
    collaborators from outside the module. *)
Variable AddGradientOperators :
  dict string string -> ModelHelper -> ModelHelper * result unit.
Variable share_grad_blobs :
  NetDef -> list BlobReference -> list BlobReference -> string -> result NetDef.

Variable input_builder_fun : Builder unit.
Variable forward_pass_builder_fun : Builder (list BlobReference).
Variable param_update_builder_fun :
  option (Scope -> float -> ModelHelper -> ModelHelper * result unit).

Definition losses_of (losses_by_gpu : dict Z (list BlobReference)) (d : Z)
    : M (list BlobReference) :=
  match dget Z.eqb losses_by_gpu d with
  | Some l => ret l
  | None => raise (KeyError (fmt d))
  end.

Definition _AddGradientOperators (devices : list Z)
    (losses_by_gpu : dict Z (list BlobReference)) : M unit :=
  (* Explicitly need to create gradients on each GPU *)
  (loss_grad <-
     foldM devices (fun gpu_id loss_grad =>
       losses <- losses_of losses_by_gpu gpu_id ;;
       foldM losses (fun l loss_grad =>
         let lg := (l ++ "_grad")%string in
         emit net (ConstantFill (cuda gpu_id) [l] lg [("value", ArgF 1)]) ;;
         ret (dset String.eqb loss_grad l lg)) loss_grad) [] ;;
   call_external (Call_AddGradientOperators loss_grad)
     (AddGradientOperators loss_grad))%M.

Definition _OptimizeGradientMemory
    (losses_by_gpu : dict Z (list BlobReference)) (devices : list Z) : M unit :=
  forM_ devices (fun device =>
    let namescope := gpu_namescope device in
    (losses <- losses_of losses_by_gpu device ;;
     call_external (Call_share_grad_blobs namescope)
       (fun m =>
          match share_grad_blobs (nets m net) losses
                  (dvalues (param_to_grad m)) namescope with
          | Ok p => (set_net net (replace_proto p (nets m net)) m, Ok tt)
          | Raise e => (m, Raise e)
          end))%M).

(** The replication pass up to the grouping of the parameters:
    returns the losses per device. *)
Definition replicate (devices : list Z) : M (dict Z (list BlobReference)) :=
  foldM devices (fun device losses_by_gpu =>
    (call_external (Call_input_builder_fun (device_scope device))
       (input_builder_fun (device_scope device)) ;;
     losses <- call_external (Call_forward_pass_builder_fun (device_scope device))
                 (forward_pass_builder_fun (device_scope device)) ;;
     (* the checks that [losses] is a list of blob references hold by typing *)
     ret (dset Z.eqb losses_by_gpu device losses))%M) [].

(** [[param_to_grad[p] for p in model.params if p in param_to_grad]] *)
Definition grads_ordered_of (m : ModelHelper) : list BlobReference :=
  flat_map (fun p => match dget String.eqb (param_to_grad m) p with
                     | Some g => [g]
                     | None => []
                     end) (params m).

(** Group gradients by device and register to blob lookup. *)
Definition bind_gradients (devices : list Z) : M unit :=
  (grads_ordered <- gets grads_ordered_of ;;
   gradients_grouped <- lift (_GroupByDevice devices grads_ordered) ;;
   modify (fun m =>
     set_grad_names (dkeys gradients_grouped)
       (set_device_grouped_blobs
          (dupdate String.eqb (_device_grouped_blobs m) gradients_grouped) m)))%M.

(** Post-iteration operators for updating params:
    [lr_scale = 1.0 / (len(devices) * num_shards)], a float division. *)
Definition update_params (devices : list Z) (rendezvous : option Rendezvous)
    (update : Scope -> float -> ModelHelper -> ModelHelper * result unit)
    : M unit :=
  let num_shards := shards_of rendezvous in
  (lr_scale <- lift (float_div_int float_one
                       (Z.of_nat (List.length devices) * num_shards)) ;;
   forM_ devices (fun device =>
     call_external
       (Call_param_update_builder_fun (device_scope device) lr_scale)
       (update (device_scope device) lr_scale)))%M.

(** Function to create a model that can run on many GPUs. *)
Definition Parallelize_GPU (devices : list Z) (rendezvous : option Rendezvous)
    (type : string) (broadcast_computed_params optimize_gradient_memory : bool)
    : M unit :=
  (let extra_workers := match rendezvous with Some _ => 8%Z | None => 0%Z end in
   modify (fun m =>
     set_net net
       (set_workers (Z.of_nat (List.length devices) * 4 + extra_workers)%Z type
          (nets m net)) m) ;;
   (* Store some information in the model -- a bit ugly *)
   modify (fun m => set_grad_names [] (set_rendezvous rendezvous
                      (set_devices devices m))) ;;
   is_empty <- gets (fun m => is_nil (params m)) ;;
   assert_M is_empty "Model needs to be empty" ;;
   (* Add input and model *)
   losses_by_gpu <- replicate devices ;;
   (* Create parameter map *)
   ps <- gets params ;;
   grouped <- lift (_GroupByDevice devices ps) ;;
   modify (set_device_grouped_blobs grouped) ;;
   (* computed params *)
   cps <- gets computed_params ;;
   computed_params_grouped <- lift (_GroupByDevice devices cps) ;;
   modify (fun m =>
     set_device_grouped_blobs
       (dupdate String.eqb (_device_grouped_blobs m) computed_params_grouped) m) ;;
   modify (fun m =>
     set_computed_param_names (dkeys computed_params_grouped)
       (set_param_names (dkeys (_device_grouped_blobs m)) m)) ;;
   match param_update_builder_fun with
   | None => ret tt (* only forward *)
   | Some update =>
       _AddGradientOperators devices losses_by_gpu ;;
       bind_gradients devices ;;
       (* Add gradient all-reduces for SyncSGD *)
       (if broadcast_computed_params
        then _BroadcastComputedParams devices rendezvous
        else ret tt) ;;
       _AllReduceGradients devices rendezvous ;;
       update_params devices rendezvous update ;;
       m <- gets (fun m => m) ;;
       lift (_AnalyzeOperators m) ;;
       (* Configure dagnet to run with only one worker on the first
          iteration, to prevent concurrency problems with allocs and nccl. *)
       modify (fun m =>
         set_net net
           (add_net_arg ("first_iter_only_one_worker", ArgI 1) (nets m net)) m) ;;
       (* Add initial parameter syncs *)
       match rendezvous with
       | Some r =>
           _AddDistributedParameterSync devices param_init_net param_init_net
             r None
       | None => ret tt
       end ;;
       _SyncParams devices param_init_net None ;;
       (if optimize_gradient_memory
        then _OptimizeGradientMemory losses_by_gpu devices
        else ret tt)
   end)%M.
End Parallelize.

(** [Parallelize_GPU] with an update callback runs in four phases: all
    that precedes the gradient sync, the gradient sync
    ([_AllReduceGradients]), the update callbacks ([update_params]), and
    what follows them.  The first and the last are named here;
    [Parallelize_GPU_phases] shows that the four in sequence are
    [Parallelize_GPU]. *)
Section Phases.
Variable AddGradientOperators :
  dict string string -> ModelHelper -> ModelHelper * result unit.
Variable share_grad_blobs :
  NetDef -> list BlobReference -> list BlobReference -> string -> result NetDef.
Variable input_builder_fun : Builder unit.
Variable forward_pass_builder_fun : Builder (list BlobReference).

(** From the first line to the broadcast of the computed parameters;
    answers the local [losses_by_gpu]. *)
Definition before_sync (devices : list Z) (rendezvous : option Rendezvous)
    (type : string) (broadcast_computed_params : bool)
    : M (dict Z (list BlobReference)) :=
  (let extra_workers := match rendezvous with Some _ => 8%Z | None => 0%Z end in
   modify (fun m =>
     set_net net
       (set_workers (Z.of_nat (List.length devices) * 4 + extra_workers)%Z type
          (nets m net)) m) ;;
   modify (fun m => set_grad_names [] (set_rendezvous rendezvous
                      (set_devices devices m))) ;;
   is_empty <- gets (fun m => is_nil (params m)) ;;
   assert_M is_empty "Model needs to be empty" ;;
   losses_by_gpu <- replicate input_builder_fun forward_pass_builder_fun devices ;;
   ps <- gets params ;;
   grouped <- lift (_GroupByDevice devices ps) ;;
   modify (set_device_grouped_blobs grouped) ;;
   cps <- gets computed_params ;;
   computed_params_grouped <- lift (_GroupByDevice devices cps) ;;
   modify (fun m =>
     set_device_grouped_blobs
       (dupdate String.eqb (_device_grouped_blobs m) computed_params_grouped) m) ;;
   modify (fun m =>
     set_computed_param_names (dkeys computed_params_grouped)
       (set_param_names (dkeys (_device_grouped_blobs m)) m)) ;;
   _AddGradientOperators AddGradientOperators devices losses_by_gpu ;;
   bind_gradients devices ;;
   (if broadcast_computed_params
    then _BroadcastComputedParams devices rendezvous
    else ret tt) ;;
   ret losses_by_gpu)%M.

(** From the scope check to the end. *)
Definition after_update (devices : list Z) (rendezvous : option Rendezvous)
    (optimize_gradient_memory : bool)
    (losses_by_gpu : dict Z (list BlobReference)) : M unit :=
  (m <- gets (fun m => m) ;;
   lift (_AnalyzeOperators m) ;;
   modify (fun m =>
     set_net net
       (add_net_arg ("first_iter_only_one_worker", ArgI 1) (nets m net)) m) ;;
   match rendezvous with
   | Some r =>
       _AddDistributedParameterSync devices param_init_net param_init_net
         r None
   | None => ret tt
   end ;;
   _SyncParams devices param_init_net None ;;
   (if optimize_gradient_memory
    then _OptimizeGradientMemory share_grad_blobs losses_by_gpu devices
    else ret tt))%M.
End Phases.

(** The update callback applied once per device of the list, in order,
    each call on the model the previous one left; it stops at the first
    call that raises. *)
Fixpoint apply_updates
    (update : Scope -> float -> ModelHelper -> ModelHelper * result unit)
    (lr_scale : float) (devices : list Z) (m : ModelHelper)
    : ModelHelper * result unit :=
  match devices with
  | [] => (m, Ok tt)
  | d :: rest =>
      match update (device_scope d) lr_scale m with
      | (m', Ok _) => apply_updates update lr_scale rest m'
      | (m', Raise e) => (m', Raise e)
      end
  end.

(** The specification's words for the scale, [1 / z]: the positive
    finite float [m * 2^e] lies within half a unit in its last place of
    the quotient, [|m * 2^e - 1 / z| <= 2^e / 2]. *)
Definition rounds_inverse (z : Z) (f : float) : bool :=
  match f with
  | S754_finite false m e => (2 * Z.abs (Zpos m * z - 2 ^ (- e)) <=? z)%Z
  | _ => false
  end.

(** The scale for the product [k] is such a float. *)
Definition scale_rounds (k : nat) : bool :=
  match float_div_int float_one (Z.of_nat k) with
  | Ok f => rounds_inverse (Z.of_nat k) f
  | Raise _ => false
  end.

(** Every product from 1 to [n] gets such a scale. *)
Definition scales_round_up_to (n : Z) : bool :=
  forallb scale_rounds (seq 1 (Z.to_nat n)).

(** ** Block layouts

    The input of [_GroupByDevice] is meant to come in one block per
    device, every block listing the replicas of the same canonical keys
    in the same order. *)

(** [p] is device [d]'s replica of key [k]. *)
Definition replica (d : Z) (k : string) (p : BlobReference) : Prop :=
  stripParamName p = Ok k /\
  contains (gpu_namescope d) (GetNameScope p) = true.

Definition is_block (keys : list string) (d : Z) (b : list BlobReference) : Prop :=
  Forall2 (replica d) keys b.

Definition block_layout (devices : list Z) (keys : list string)
    (blocks : list (list BlobReference)) : Prop :=
  Forall2 (is_block keys) devices blocks.

(** The per-device tables after one more block has been filed. *)
Definition add_block (d : Z) (rows : list DeviceBlobs) (b : list BlobReference)
    : list DeviceBlobs :=
  map (fun rp => fst rp ++ [(d, snd rp)]) (combine rows b).

(** ** The causes of a grouping failure *)

(** The table the first loop of [_GroupByDevice] files, with its
    assertion left out: handle [i] goes under its name and under the
    device of its block, [devices[i // m]]. *)
Definition entry (grouped : Grouped) (name : string) : DeviceBlobs :=
  match grp_get grouped name with
  | Some ps => ps
  | None => []
  end.

Fixpoint table_loop (devices : list Z) (m i : nat)
    (params : list BlobReference) (grouped : Grouped) : Grouped :=
  match params with
  | [] => grouped
  | p :: rest =>
      match stripParamName p, nth_error devices (i / m) with
      | Ok name, Some gpuid =>
          table_loop devices m (S i) rest
            (grp_set grouped name (dev_set (entry grouped name) gpuid p))
      | _, _ => table_loop devices m (S i) rest grouped
      end
  end.

Definition table (devices : list Z) (params : list BlobReference) : Grouped :=
  table_loop devices (List.length params / List.length devices) 0 params [].

(** The total count is divisible by the device count. *)
Definition divisible (devices : list Z) (params : list BlobReference) : bool :=
  List.length params mod List.length devices =? 0.

(** Every handle's name scope names the device of its block position. *)
Fixpoint scopes_agree_from (devices : list Z) (m i : nat)
    (params : list BlobReference) : bool :=
  match params with
  | [] => true
  | p :: rest =>
      match nth_error devices (i / m) with
      | Some d => contains (gpu_namescope d) (GetNameScope p)
      | None => false
      end && scopes_agree_from devices m (S i) rest
  end.

Definition scopes_agree (devices : list Z) (params : list BlobReference) : bool :=
  scopes_agree_from devices (List.length params / List.length devices) 0 params.

(** Every key ends up with as many entries as there are devices. *)
Definition counts_ok (devices : list Z) (items : Grouped) : bool :=
  forallb (fun kps => List.length (snd kps) =? List.length devices) items.

Definition counts_agree (devices : list Z) (params : list BlobReference) : bool :=
  counts_ok devices (table devices params).

(** The handle filed under [devices[0]] for the [j]-th key is [params[j]]. *)
Fixpoint order_ok (devices : list Z) (params : list BlobReference) (j : nat)
    (items : Grouped) : bool :=
  match items with
  | [] => true
  | (_, ps) :: rest =>
      match dev_get ps (hd 0%Z devices), nth_error params j with
      | Some h, Some pj => String.eqb h pj
      | _, _ => false
      end && order_ok devices params (S j) rest
  end.

Definition order_agrees (devices : list Z) (params : list BlobReference) : bool :=
  order_ok devices params 0 (table devices params).

(** A handle whose name has a separator, so that its canonical name exists. *)
Definition has_separator (p : BlobReference) : Prop :=
  is_ok (stripParamName p) = true.

(** A result and a boolean verdict agree: the result is a value exactly
    when the verdict is [true], and a failure is an assertion failure. *)
Definition verdict {A} (r : result A) (b : bool) (post : A -> Prop) : Prop :=
  match r with
  | Ok a => b = true /\ post a
  | Raise (AssertionError _) => b = false
  | Raise _ => False
  end.

(** What is known of the per-device tables once the blocks of the devices
    [Dpre] are filed: one entry per device, in order, and the entry of the
    first device is the handle of the first block. *)
Definition row_ok (Dpre : list Z) (d0 : Z) (row : DeviceBlobs) (p0 : BlobReference)
    : Prop :=
  dkeys row = Dpre /\ dev_get row d0 = Some p0.

(** Every entry of a table files pairwise distinct devices of the list. *)
Definition rows_within (devices : list Z) (g : Grouped) : Prop :=
  forall k ps, In (k, ps) g -> NoDup (dkeys ps) /\ incl (dkeys ps) devices.

(** ** What the device-scope check asks of an operator *)

(** The operator's assigned device. *)
Definition op_gpu (o : OperatorDef) : Z := cuda_gpu_id (device_option o).

(** The specification's words: a collective operation is a broadcast or
    an all-reduce involving several devices or hosts.  These are the
    operator types the module inserts for them. *)
Definition collective (o : OperatorDef) : bool :=
  existsb (String.eqb (op_type o)) ["NCCLAllreduce"; "Allreduce"; "Broadcast"].

(** The amended wording: an operator is whitelisted by its type name
    alone, when the name contains [NCCL] or [Copy]. *)
Definition whitelisted (o : OperatorDef) : bool :=
  contains "NCCL" (op_type o) || contains "Copy" (op_type o).

(** An operator that is not assigned to the CPU. *)
Definition on_gpu (o : OperatorDef) : bool :=
  match device_type (device_option o) with
  | CUDA => true
  | CPU => false
  end.

(** An operator the check asks something of: not whitelisted and not for
    the CPU. *)
Definition checked (o : OperatorDef) : bool :=
  negb (whitelisted o) && on_gpu o.

(** The operators of a graph that are not whitelisted. *)
Definition not_whitelisted (ops : list OperatorDef) : list OperatorDef :=
  filter (fun o => negb (whitelisted o)) ops.

(** A tensor name that carries a device prefix carries the given one. *)
Definition blob_in_scope (namescope inp : string) : bool :=
  negb (startswith inp "gpu_") || startswith inp namescope.

Definition op_in_scope (o : OperatorDef) : bool :=
  forallb (blob_in_scope (gpu_namescope (op_gpu o))) (input o ++ output o).

(** No character of [s] is [c]. *)
Fixpoint lacks (c : ascii) (s : string) : Prop :=
  match s with
  | EmptyString => True
  | String a s' => a <> c /\ lacks c s'
  end.

(** ** Emission traces

    Graph construction only appends operators; what a construction step
    did to the nets is the sequence of its emissions. *)

Definition Emission := (NetRef * OperatorDef)%type.

Definition emitW (r : NetRef) (o : OperatorDef) (w : World) : World :=
  mkWorld (set_net r (add_op o (nets (model w) r)) (model w)) (events w).

Definition emit_all (es : list Emission) (w : World) : World :=
  fold_left (fun w e => emitW (fst e) (snd e) w) es w.

(** The operators a trace appends to the net [r]. *)
Definition emitted (r : NetRef) (es : list Emission) : list OperatorDef :=
  map snd (filter (fun e => NetRef_eqb (fst e) r) es).

Definition on_net (r : NetRef) (ops : list OperatorDef) : list Emission :=
  map (fun o => (r, o)) ops.

(** The handle of device [d] in a per-device table. *)
Definition blob_of (ps : DeviceBlobs) (d : Z) : BlobReference :=
  match dev_get ps d with
  | Some b => b
  | None => ""
  end.

(** A per-device table that holds every device of the list. *)
Definition complete (devices : list Z) (ps : DeviceBlobs) : Prop :=
  forall d, In d devices -> exists b, dev_get ps d = Some b.

(** ** Single-host synchronisation, as the specification words it *)

(** One group-wide all-reduce per gradient key, each running after the
    representative handle of the previous key. *)
Fixpoint serialized_allreduces (dev : DeviceOption)
    (groups : list (list BlobReference)) (last_out : option BlobReference)
    : list OperatorDef :=
  match groups with
  | [] => []
  | g :: rest =>
      NCCLAllreduce dev g last_out
      :: serialized_allreduces dev rest (Some (hd "" g))
  end.

(** The handles of a key, [model._device_grouped_blobs[name].values()]. *)
Definition group_of (store : Grouped) (name : string) : list BlobReference :=
  dvalues (entry store name).

(** The representative handle of a key: the first of its group. *)
Definition representative (store : Grouped) (name : string) : BlobReference :=
  hd "" (group_of store name).

(** ** Distributed synchronisation: what one gradient emits *)

Definition has_type (t : string) (o : OperatorDef) : bool :=
  String.eqb (op_type o) t.

Definition rdma (rendezvous : Rendezvous) : bool :=
  String.eqb (engine rendezvous) "RDMA_TCP".

(** The scratch tensor the cross-host all-reduce of a gradient works on. *)
Definition reduced_blob (rendezvous : Rendezvous) (master_grad : BlobReference)
    : string :=
  if rdma rendezvous
  then ((master_grad ++ "_red") ++ "cpu")%string
  else (master_grad ++ "_red")%string.

Definition reducing_device (rendezvous : Rendezvous) (d0 : Z) : DeviceOption :=
  if rdma rendezvous then cpu else cuda d0.

(** The "run after" blob the window of controls hands out. *)
Definition control_of (num_controls : nat) (v : LoopVars) : option string :=
  if List.length (cyclical_controls v) <? num_controls then None
  else nth_error (cyclical_controls v) (counter v mod num_controls).

(** The window of controls once [reduced] has been entered. *)
Definition push_control (num_controls : nat) (v : LoopVars) (reduced : string)
    : list string :=
  if List.length (cyclical_controls v) <? num_controls
  then cyclical_controls v ++ [reduced]
  else match list_set (cyclical_controls v) (counter v mod num_controls) reduced with
       | Ok l => l
       | Raise _ => cyclical_controls v
       end.

Definition next_vars (num_controls : nat) (v : LoopVars)
    (reduced first : string) : LoopVars :=
  mkLoopVars (push_control num_controls v reduced) (counter v + 1) (Some first).

(** The emissions of one pass of the distributed loop, for the gradient
    [grad_name] whose per-device handles are [ps]. *)
Definition distributed_emits (rendezvous : Rendezvous) (d0 : Z) (rest : list Z)
    (num_controls : nat) (grad_name : string) (ps : DeviceBlobs) (v : LoopVars)
    : list Emission :=
  let master_grad := blob_of ps d0 in
  let red := (master_grad ++ "_red")%string in
  let reduced_grad := reduced_blob rendezvous master_grad in
  [(net, ConstantFill (cuda d0) [master_grad] red [("value", ArgF 0)]);
   (net, NCCLAllreduce (cuda d0) (dvalues ps) (nccl_control_blob v));
   (net, Copy (cuda d0) master_grad red)]
  ++ (if rdma rendezvous
      then [(param_init_net,
             ConstantFill cpu [] (red ++ "cpu")%string
               [("shape", ArgInts [1%Z]); ("value", ArgF 0)]);
            (param_init_net,
             CopyGPUToCPU (cuda d0) (str_replace master_grad "_grad" "")
               (red ++ "cpu")%string);
            (net, CopyGPUToCPU (cuda d0) red (red ++ "cpu")%string)]
      else [])
  ++ [(param_init_net,
       CreateCommonWorld (reducing_device rendezvous d0) rendezvous
         (grad_name ++ "_cw")%string (grad_name ++ "_cw_op")%string);
      (net, Allreduce (reducing_device rendezvous d0) (grad_name ++ "_cw")%string
              reduced_grad (engine rendezvous) (control_of num_controls v));
      (net, if rdma rendezvous
            then CopyCPUToGPU (cuda d0) reduced_grad master_grad
            else Copy (cuda d0) reduced_grad master_grad)]
  ++ on_net net (map (fun d => Copy (cuda d) master_grad (blob_of ps d)) rest).

(** The emissions of the whole loop, and the scratch tensors in the order
    their all-reduces are issued. *)
Fixpoint distributed_trace (rendezvous : Rendezvous) (d0 : Z) (rest : list Z)
    (num_controls : nat) (store : Grouped) (grads : list string) (v : LoopVars)
    : list Emission :=
  match grads with
  | [] => []
  | g :: gs =>
      let ps := entry store g in
      distributed_emits rendezvous d0 rest num_controls g ps v
      ++ distributed_trace rendezvous d0 rest num_controls store gs
           (next_vars num_controls v
              (reduced_blob rendezvous (blob_of ps d0)) (hd "" (dvalues ps)))
  end.

Definition reduced_of (rendezvous : Rendezvous) (store : Grouped) (d0 : Z)
    (g : string) : string :=
  reduced_blob rendezvous (blob_of (entry store g) d0).

(** The controls the window hands out over a run of scratch tensors. *)
Fixpoint window_run (num_controls : nat) (reduced : list string) (v : LoopVars)
    : list (option string) :=
  match reduced with
  | [] => []
  | r :: rest =>
      control_of num_controls v
      :: window_run num_controls rest (next_vars num_controls v r "")
  end.

(** ** The sliding window, as the specification words it *)

(** With a window of size [n], the first [n] all-reduces run after
    nothing and each later one runs after the tensor reduced [n] steps
    earlier. *)
Definition window_control (n : nat) (reduced : list string) (j : nat)
    : option string :=
  if j <? n then None else nth_error reduced (j - n).

Definition window_controls (n : nat) (reduced : list string)
    : list (list string) :=
  map (fun j => ctrl (window_control n reduced j)) (seq 0 (List.length reduced)).

(** The window is consistent with the tensors reduced so far. *)
Definition window_inv (n : nat) (done : list string) (v : LoopVars) : Prop :=
  counter v = List.length done
  /\ (List.length done < n -> cyclical_controls v = done)
  /\ (n <= List.length done ->
      List.length (cyclical_controls v) = n
      /\ forall j, List.length done - n <= j < List.length done ->
           nth_error (cyclical_controls v) (j mod n) = nth_error done j).

(** ** A small caller

    Callbacks and collaborators to run the construction on: the forward
    pass declares the parameters [names] under the scope's name scope and
    answers one loss, the gradient machinery binds to every parameter [p]
    the gradient [p_grad], and the other callbacks do nothing. *)

Definition set_params v (m : ModelHelper) :=
  mkModel (nets m) v (computed_params m) (param_to_grad m) (_devices m)
    (_rendezvous m) (_grad_names m) (_param_names m) (_computed_param_names m)
    (_device_grouped_blobs m) (has_checkpoint_net m).
Definition set_param_to_grad v (m : ModelHelper) :=
  mkModel (nets m) (params m) (computed_params m) v (_devices m)
    (_rendezvous m) (_grad_names m) (_param_names m) (_computed_param_names m)
    (_device_grouped_blobs m) (has_checkpoint_net m).

Definition sample_input : Builder unit := fun _ m => (m, Ok tt).

Definition sample_forward (names : list string) : Builder (list BlobReference) :=
  fun s m =>
    (set_params (params m ++ map (fun n => (snd s ++ "/" ++ n)%string) names) m,
     Ok [(snd s ++ "/loss")%string]).

Definition sample_gradients (loss_grad : dict string string) (m : ModelHelper)
    : ModelHelper * result unit :=
  (set_param_to_grad (map (fun p => (p, (p ++ "_grad")%string)) (params m)) m,
   Ok tt).

Definition sample_update (s : Scope) (lr_scale : float) (m : ModelHelper)
    : ModelHelper * result unit :=
  (m, Ok tt).

Definition sample_share (n : NetDef) (losses grads : list BlobReference)
    (namescope : string) : result NetDef :=
  Ok n.

Definition net_ref_name (r : NetRef) : string :=
  match r with
  | net => "train"
  | param_init_net => "train_init"
  | _checkpoint_net => ""
  | checkpoint_init_net => ""
  end.

Definition fresh_model : ModelHelper :=
  mkModel (fun r => new_net (net_ref_name r)) [] [] [] [] None [] [] [] [] false.

Definition fresh_world : World := mkWorld fresh_model [].

Definition sample_rendezvous (shards : Z) : Rendezvous :=
  mkRendezvous "kv_handler" shards 0 "GLOO".

(** [Parallelize_GPU] for the small caller. *)
Definition sample_run (names : list string) (devices : list Z)
    (rendezvous : option Rendezvous) : World * result unit :=
  Parallelize_GPU sample_gradients sample_share sample_input
    (sample_forward names) (Some sample_update) devices rendezvous "dag"
    true false fresh_world.

(** A world ready for gradient sync: three gradients on the devices 0 and
    1, and a net with the given worker count. *)
Definition sync_model (workers : Z) : ModelHelper :=
  mkModel (fun r => set_workers workers "dag" (new_net (net_ref_name r)))
    [] [] [] [0; 1]%Z None ["w1_grad"; "w2_grad"; "w3_grad"] [] []
    [("w1_grad", [(0%Z, "gpu_0/w1_grad"); (1%Z, "gpu_1/w1_grad")]);
     ("w2_grad", [(0%Z, "gpu_0/w2_grad"); (1%Z, "gpu_1/w2_grad")]);
     ("w3_grad", [(0%Z, "gpu_0/w3_grad"); (1%Z, "gpu_1/w3_grad")])]
    false.

Definition sync_world (workers : Z) : World := mkWorld (sync_model workers) [].

(** An operator that creates the common world [world]. *)
Definition creates (world : string) (o : OperatorDef) : bool :=
  has_type "CreateCommonWorld" o &&
  match output o with
  | [out] => String.eqb out world
  | _ => false
  end.

(** ** Observing the callbacks *)

(** The invocations of the update callback an event log records: the
    scope and the learning-rate scale of each, in order. *)
Definition update_call (e : Event) : list (Scope * float) :=
  match e with
  | Call_param_update_builder_fun s lr_scale => [(s, lr_scale)]
  | _ => []
  end.

Definition update_calls (evs : list Event) : list (Scope * float) :=
  flat_map update_call evs.

(** A computation that invokes no update callback. *)
Definition preserves_updates {A} (c : M A) : Prop :=
  forall w, update_calls (events (fst (c w))) = update_calls (events w).

(** Emissions leave everything but the operator lists alone. *)
Record same_but_ops (w w' : World) : Prop := mkSame {
  same_params : params (model w') = params (model w);
  same_computed_params : computed_params (model w') = computed_params (model w);
  same_param_to_grad : param_to_grad (model w') = param_to_grad (model w);
  same_devices : _devices (model w') = _devices (model w);
  same_rendezvous : _rendezvous (model w') = _rendezvous (model w);
  same_grad_names : _grad_names (model w') = _grad_names (model w);
  same_param_names : _param_names (model w') = _param_names (model w);
  same_computed_param_names :
    _computed_param_names (model w') = _computed_param_names (model w);
  same_store : _device_grouped_blobs (model w') = _device_grouped_blobs (model w);
  same_has_checkpoint_net :
    has_checkpoint_net (model w') = has_checkpoint_net (model w);
  same_events : events w' = events w;
  same_net_name : forall r, net_name (nets (model w') r) = net_name (nets (model w) r);
  same_num_workers :
    forall r, num_workers (nets (model w') r) = num_workers (nets (model w) r);
  same_net_type : forall r, net_type (nets (model w') r) = net_type (nets (model w) r);
  same_net_arg : forall r, net_arg (nets (model w') r) = net_arg (nets (model w) r);
  same_net_device_option :
    forall r, net_device_option (nets (model w') r)
              = net_device_option (nets (model w) r)
}.

(** A graph of one operator, on one device, reading one tensor. *)
Definition relu_on (d : Z) (blob : string) : OperatorDef :=
  mkOp "Relu" [blob] [(gpu_namescope d ++ "y")%string] "" [] (cuda d) [].

Definition scoped_model (blob : string) : ModelHelper :=
  mkModel (fun r => add_op (relu_on 2 blob) (new_net (net_ref_name r)))
    [] [] [] [2%Z] None [] [] [] [] false.

(** A model whose net holds the given operators. *)
Definition graph_of (ops : list OperatorDef) : ModelHelper :=
  mkModel (fun r => mkNetDef (net_ref_name r) ops 0 "" None [])
    [] [] [] [] None [] [] [] [] false.

(** The cross-host all-reduce and broadcast the module inserts, here on
    device 2 and working on a tensor of device 1. *)
Definition stray_allreduce : OperatorDef :=
  Allreduce (cuda 2) "x_cw" "gpu_1/x" "GLOO" None.

Definition stray_broadcast : OperatorDef :=
  Broadcast (cuda 2) "x_cw" "gpu_1/x" "GLOO".

(** The single-host all-reduce over the handles of two devices. *)
Definition nccl_over_two : OperatorDef :=
  NCCLAllreduce (cuda 0) ["gpu_0/g"; "gpu_1/g"] None.

(** Parameters [w1, w2, w3] on two devices, binding their gradients in
    that order: the reduction order is [grad(w3), grad(w2), grad(w1)]. *)
Definition three_params_model : ModelHelper :=
  mkModel (fun _ => new_net "train")
    ["gpu_0/w1"; "gpu_0/w2"; "gpu_0/w3"; "gpu_1/w1"; "gpu_1/w2"; "gpu_1/w3"]
    []
    [("gpu_0/w1", "gpu_0/w1_grad"); ("gpu_0/w2", "gpu_0/w2_grad");
     ("gpu_0/w3", "gpu_0/w3_grad"); ("gpu_1/w1", "gpu_1/w1_grad");
     ("gpu_1/w2", "gpu_1/w2_grad"); ("gpu_1/w3", "gpu_1/w3_grad")]
    [0; 1]%Z None [] ["w1"; "w2"; "w3"] [] [] false.

(** ** Checkpoint synchronisation, observed *)


Definition with_store (store : Grouped) (w : World) : World :=
  mkWorld (set_device_grouped_blobs store (model w)) (events w).




(** The local copies [_SyncParams] inserts for [names]. *)
Definition sync_copies (store : Grouped) (d0 : Z) (rest : list Z)
    (names : list string) : list OperatorDef :=
  flat_map
    (fun name =>
       map (fun d => Copy (cuda d) (blob_of (entry store name) d0)
                       (blob_of (entry store name) d)) rest)
    names.

(** ** Further observations of the construction *)

(** A computation all of whose effect on the world, whether it returns
    or raises, is a sequence of insertions each of which [ok] admits. *)
Definition emits_such {A} (ok : Emission -> bool) (c : M A) : Prop :=
  forall w, exists es, fst (c w) = emit_all es w /\ forallb ok es = true.

(** The same, as an observer of the nets sees it: nothing of the world
    changes but the operator lists, and each net's list grows by the
    insertions made on it. *)
Definition inserts_only {A} (ok : Emission -> bool) (c : M A) : Prop :=
  forall w,
    same_but_ops w (fst (c w))
    /\ exists es,
         forallb ok es = true
         /\ forall r,
              op (nets (model (fst (c w))) r)
              = op (nets (model w) r) ++ emitted r es.

(** Kinds of insertion: an operator of one of the types [ts] on net [n]. *)
Definition typed_on (n : NetRef) (ts : list string) (e : Emission) : bool :=
  NetRef_eqb (fst e) n && existsb (String.eqb (op_type (snd e))) ts.

Definition either (f g : Emission -> bool) (e : Emission) : bool := f e || g e.

(** What is known of the table while the first loop of [_GroupByDevice]
    runs over handles of [P]: the keys are pairwise distinct, every entry
    files pairwise distinct devices of the list, and the handle filed
    under a key and a device is a handle of [P] and is that device's
    replica of that key. *)
Definition filed (D : list Z) (P : list BlobReference) (g : Grouped) : Prop :=
  NoDup (dkeys g)
  /\ forall k ps, In (k, ps) g ->
       NoDup (dkeys ps) /\ incl (dkeys ps) D
       /\ forall d p, dev_get ps d = Some p -> In p P /\ replica d k p.

(** * Properties *)

(** ** Facts about insertion-ordered dictionaries *)

Section DictFacts.
Variables K V : Type.
Variable eqb : K -> K -> bool.
Hypothesis eqb_eq : forall a b, eqb a b = true <-> a = b.

Lemma eqb_same a : eqb a a = true.
Proof. now apply eqb_eq. Qed.

Lemma eqb_diff a b : a <> b -> eqb a b = false.
Proof.
  intros H. destruct (eqb a b) eqn:E; [|reflexivity].
  apply eqb_eq in E. contradiction.
Qed.

Lemma dget_notin (d : dict K V) k : ~ In k (dkeys d) -> dget eqb d k = None.
Proof.
  induction d as [|[k' v] d IH]; simpl; intros H; [reflexivity|].
  rewrite eqb_diff by (intros ->; apply H; now left).
  apply IH. intros Hin. apply H. now right.
Qed.

Lemma dget_in (d : dict K V) k : In k (dkeys d) -> exists v, dget eqb d k = Some v.
Proof.
  induction d as [|[k' v] d IH]; simpl; intros H; [contradiction|].
  destruct (eqb k' k) eqn:E; [now exists v|].
  destruct H as [H|H]; [|now apply IH].
  subst. rewrite eqb_same in E. discriminate.
Qed.

Lemma dget_some_in (d : dict K V) k v : dget eqb d k = Some v -> In (k, v) d.
Proof.
  induction d as [|[k' v'] d IH]; simpl; intros H; [discriminate|].
  destruct (eqb k' k) eqn:E.
  - apply eqb_eq in E. inversion H. subst. now left.
  - right. now apply IH.
Qed.

Lemma dget_app_hit (done : dict K V) k v todo :
  ~ In k (dkeys done) -> dget eqb (done ++ (k, v) :: todo) k = Some v.
Proof.
  induction done as [|[k' v'] done IH]; simpl; intros H.
  - now rewrite eqb_same.
  - rewrite eqb_diff by (intros ->; apply H; now left).
    apply IH. intros Hin. apply H. now right.
Qed.

Lemma dget_app_l (d e : dict K V) k v :
  dget eqb d k = Some v -> dget eqb (d ++ e) k = Some v.
Proof.
  induction d as [|[k' v'] d IH]; simpl; intros H; [discriminate|].
  destruct (eqb k' k); auto.
Qed.

Lemma dset_app_hit (done : dict K V) k v v' todo :
  ~ In k (dkeys done) ->
  dset eqb (done ++ (k, v) :: todo) k v' = done ++ (k, v') :: todo.
Proof.
  induction done as [|[k' w] done IH]; simpl; intros H.
  - now rewrite eqb_same.
  - rewrite eqb_diff by (intros ->; apply H; now left).
    f_equal. apply IH. intros Hin. apply H. now right.
Qed.

Lemma dset_notin (d : dict K V) k v :
  ~ In k (dkeys d) -> dset eqb d k v = d ++ [(k, v)].
Proof.
  induction d as [|[k' w] d IH]; simpl; intros H; [reflexivity|].
  rewrite eqb_diff by (intros ->; apply H; now left).
  f_equal. apply IH. intros Hin. apply H. now right.
Qed.

Lemma dkeys_app (d e : dict K V) : dkeys (d ++ e) = dkeys d ++ dkeys e.
Proof. unfold dkeys. apply map_app. Qed.

Lemma dkeys_dset (d : dict K V) k v :
  dkeys (dset eqb d k v) = if dmem eqb d k then dkeys d else dkeys d ++ [k].
Proof.
  unfold dmem. induction d as [|[k' w] d IH]; simpl; [reflexivity|].
  destruct (eqb k' k) eqn:E; simpl; [reflexivity|].
  rewrite IH. now destruct (dget eqb d k).
Qed.

Lemma dget_dset_same (d : dict K V) k v : dget eqb (dset eqb d k v) k = Some v.
Proof.
  induction d as [|[k' w] d IH]; simpl.
  - now rewrite eqb_same.
  - destruct (eqb k' k) eqn:E; simpl; rewrite E; auto.
Qed.

Lemma dget_dset_other (d : dict K V) k k' v :
  k <> k' -> dget eqb (dset eqb d k v) k' = dget eqb d k'.
Proof.
  intros Hne. induction d as [|[k0 w] d IH]; simpl.
  - now rewrite eqb_diff.
  - destruct (eqb k0 k) eqn:E; simpl.
    + apply eqb_eq in E. subst. now rewrite eqb_diff.
    + now rewrite IH.
Qed.
End DictFacts.

Lemma Zeqb_iff a b : Z.eqb a b = true <-> a = b.
Proof. apply Z.eqb_eq. Qed.

Lemma Seqb_iff a b : String.eqb a b = true <-> a = b.
Proof. apply String.eqb_eq. Qed.

Example group_two_devices :
  _GroupByDevice [0; 1]%Z ["gpu_0/w"; "gpu_0/b"; "gpu_1/w"; "gpu_1/b"]
  = Ok [("w", [(0%Z, "gpu_0/w"); (1%Z, "gpu_1/w")]);
        ("b", [(0%Z, "gpu_0/b"); (1%Z, "gpu_1/b")])].
Proof. reflexivity. Qed.

(** ** Grouping a block layout *)

Lemma app_cons_snoc (A : Type) (l : list A) x r : l ++ x :: r = (l ++ [x]) ++ r.
Proof. now rewrite <- app_assoc. Qed.

Lemma add_block_length d rows b :
  List.length rows = List.length b -> List.length (add_block d rows b) = List.length b.
Proof.
  unfold add_block. intros H. rewrite length_map, length_combine. lia.
Qed.

Lemma add_block_cons d row rows p b :
  add_block d (row :: rows) (p :: b) = (row ++ [(d, p)]) :: add_block d rows b.
Proof. reflexivity. Qed.

Section Blocks.
Variable devices : list Z.
Variable m : nat.
Hypothesis m_pos : m <> 0.

Lemma group_loop_first_block d keys b :
  is_block keys d b ->
  forall i rest acc,
    NoDup (dkeys acc ++ keys) ->
    (forall r, r < List.length b -> nth_error devices ((i + r) / m) = Some d) ->
    group_loop devices m i (b ++ rest) acc
    = group_loop devices m (i + List.length b) rest
        (acc ++ combine keys (map (fun p => [(d, p)]) b)).
Proof.
  induction 1 as [|k p keys b [Hk Hs] Hb IH]; intros i rest acc Hnd Hpos.
  - simpl. now rewrite Nat.add_0_r, app_nil_r.
  - cbn [app group_loop]. rewrite Hk. cbn [rbind].
    destruct (Nat.eqb_spec m 0) as [|_]; [contradiction|].
    specialize (Hpos 0) as H0. rewrite Nat.add_0_r in H0.
    rewrite H0 by (simpl; lia). rewrite Hs.
    assert (Hk_acc : ~ In k (dkeys acc)).
    { apply NoDup_remove_2 in Hnd. intros Hin. apply Hnd.
      apply in_or_app. now left. }
    unfold grp_mem, dmem, grp_get, grp_set.
    rewrite (dget_notin _ Seqb_iff _ _ Hk_acc).
    rewrite (dset_notin _ Seqb_iff _ _ _ Hk_acc).
    rewrite (dget_app_hit _ Seqb_iff _ _ _ _ Hk_acc).
    rewrite (dset_app_hit _ Seqb_iff _ _ _ _ _ Hk_acc).
    cbn [dev_set dset].
    rewrite IH.
    + cbn [List.length map combine]. rewrite <- app_assoc. cbn [app].
      f_equal. lia.
    + rewrite dkeys_app. cbn. rewrite <- app_assoc. exact Hnd.
    + intros r Hr. replace (S i + r) with (i + S r) by lia.
      apply Hpos. simpl. lia.
Qed.

Lemma group_loop_next_block d keys b :
  is_block keys d b ->
  forall rows i rest done,
    List.length rows = List.length keys ->
    NoDup (dkeys done ++ keys) ->
    Forall (fun row : DeviceBlobs => ~ In d (dkeys row)) rows ->
    (forall r, r < List.length b -> nth_error devices ((i + r) / m) = Some d) ->
    group_loop devices m i (b ++ rest) (done ++ combine keys rows)
    = group_loop devices m (i + List.length b) rest
        (done ++ combine keys (add_block d rows b)).
Proof.
  induction 1 as [|k p keys b [Hk Hs] Hb IH];
    intros rows i rest done Hlen Hnd Hrows Hpos.
  - simpl. now rewrite Nat.add_0_r.
  - destruct rows as [|row rows]; [discriminate|].
    cbn [app group_loop combine]. rewrite Hk. cbn [rbind].
    destruct (Nat.eqb_spec m 0) as [|_]; [contradiction|].
    specialize (Hpos 0) as H0. rewrite Nat.add_0_r in H0.
    rewrite H0 by (simpl; lia). rewrite Hs.
    assert (Hk_done : ~ In k (dkeys done)).
    { apply NoDup_remove_2 in Hnd. intros Hin. apply Hnd.
      apply in_or_app. now left. }
    unfold grp_mem, dmem, grp_get, grp_set.
    rewrite (dget_app_hit _ Seqb_iff _ _ _ _ Hk_done). cbv iota.
    rewrite (dget_app_hit _ Seqb_iff _ _ _ _ Hk_done).
    rewrite (dset_app_hit _ Seqb_iff _ _ _ _ _ Hk_done).
    unfold dev_set. inversion Hrows as [|? ? Hrow Hrows']; subst.
    rewrite (dset_notin _ Zeqb_iff _ _ _ Hrow).
    rewrite add_block_cons. cbn [combine].
    rewrite (app_cons_snoc done _ (combine keys rows)).
    rewrite IH.
    + rewrite <- app_assoc. cbn [app List.length]. f_equal. lia.
    + simpl in Hlen. lia.
    + rewrite dkeys_app. cbn. rewrite <- app_assoc. exact Hnd.
    + exact Hrows'.
    + intros r Hr. replace (S i + r) with (i + S r) by lia.
      apply Hpos. simpl. lia.
Qed.
End Blocks.

Lemma Forall2_nth_error_l (A B : Type) (R : A -> B -> Prop) l1 l2 :
  Forall2 R l1 l2 ->
  forall n a, nth_error l1 n = Some a -> exists b, nth_error l2 n = Some b /\ R a b.
Proof.
  induction 1 as [|x y l1 l2 Hxy _ IH]; intros [|n] a Hn; simpl in *;
    try discriminate.
  - inversion Hn; subst. eauto.
  - eauto.
Qed.

Lemma Forall2_nth_error_r (A B : Type) (R : A -> B -> Prop) l1 l2 :
  Forall2 R l1 l2 ->
  forall n b, nth_error l2 n = Some b -> exists a, nth_error l1 n = Some a /\ R a b.
Proof.
  induction 1 as [|x y l1 l2 Hxy _ IH]; intros [|n] b Hn; simpl in *;
    try discriminate.
  - inversion Hn; subst. eauto.
  - eauto.
Qed.

Lemma nth_error_combine (A B : Type) (l1 : list A) (l2 : list B) n a b :
  nth_error (combine l1 l2) n = Some (a, b) ->
  nth_error l1 n = Some a /\ nth_error l2 n = Some b.
Proof.
  revert l2 n. induction l1 as [|x l1 IH]; intros [|y l2] [|n] H; simpl in *;
    try discriminate.
  - inversion H; subst. auto.
  - eauto.
Qed.

Lemma map_fst_combine_eq (A B : Type) (l1 : list A) (l2 : list B) :
  List.length l1 = List.length l2 -> map fst (combine l1 l2) = l1.
Proof.
  revert l2. induction l1 as [|x l1 IH]; intros [|y l2] H; simpl in *;
    try discriminate; [reflexivity|].
  f_equal. apply IH. lia.
Qed.

Lemma add_block_ok Dpre d0 d rows b0 :
  Forall2 (row_ok Dpre d0) rows b0 ->
  forall b, List.length b = List.length rows ->
  Forall2 (row_ok (Dpre ++ [d]) d0) (add_block d rows b) b0.
Proof.
  induction 1 as [|row p0 rows b0 [Hk Hg] _ IH]; intros [|p b] Hl;
    simpl in Hl; try discriminate.
  - constructor.
  - rewrite add_block_cons. constructor.
    + split.
      * rewrite dkeys_app. simpl. now rewrite Hk.
      * unfold dev_get. now apply dget_app_l.
    + apply IH. lia.
Qed.

Lemma first_block_ok d0 b0 :
  Forall2 (row_ok [d0] d0) (map (fun p => [(d0, p)]) b0) b0.
Proof.
  induction b0 as [|p b0 IH]; simpl; constructor; [|exact IH].
  split; [reflexivity|]. unfold dev_get. simpl. now rewrite Z.eqb_refl.
Qed.

Lemma nth_error_block (Dpre : list Z) d Drest m r :
  r < m -> nth_error (Dpre ++ d :: Drest) ((List.length Dpre * m + r) / m) = Some d.
Proof.
  intros Hr. rewrite Nat.div_add_l by lia. rewrite (Nat.div_small r m) by lia.
  rewrite Nat.add_0_r, nth_error_app2 by lia. now rewrite Nat.sub_diag.
Qed.

Lemma group_loop_blocks Dall keys d0 b0 :
  keys <> [] -> NoDup keys -> NoDup Dall ->
  forall Drest blocks,
    Forall2 (is_block keys) Drest blocks ->
    forall Dpre rows,
      Dall = Dpre ++ Drest ->
      Forall2 (row_ok Dpre d0) rows b0 ->
      List.length b0 = List.length keys ->
      exists rows',
        group_loop Dall (List.length keys) (List.length Dpre * List.length keys)
          (List.concat blocks) (combine keys rows) = Ok (combine keys rows')
        /\ Forall2 (row_ok Dall d0) rows' b0.
Proof.
  intros Hne Hkeys HD.
  assert (Hm : List.length keys <> 0) by (destruct keys; simpl; congruence).
  induction 1 as [|d b Drest blocks Hb Hbs IH]; intros Dpre rows HDall Hrows Hlen.
  - simpl. exists rows. rewrite app_nil_r in HDall. subst. auto.
  - pose proof (Forall2_length Hb) as Hbl.
    pose proof (Forall2_length Hrows) as Hrl.
    cbn [List.concat].
    change (combine keys rows) with ([] ++ combine keys rows).
    rewrite (@group_loop_next_block Dall _ Hm _ _ _ Hb rows
               (List.length Dpre * List.length keys) (List.concat blocks) []).
    + destruct (IH (Dpre ++ [d]) (add_block d rows b)) as [rows' [Hr Hok]].
      * rewrite <- app_assoc. exact HDall.
      * apply add_block_ok; [exact Hrows | lia].
      * exact Hlen.
      * exists rows'. split; [|exact Hok].
        rewrite <- Hr. cbn [app]. f_equal.
        rewrite length_app. simpl. lia.
    + lia.
    + exact Hkeys.
    + apply Forall_forall. intros row Hin.
      destruct (In_nth_error _ _ Hin) as [n Hn].
      destruct (Forall2_nth_error_l Hrows _ Hn) as [p0 [_ [Hk _]]].
      rewrite Hk. subst Dall. apply NoDup_remove_2 in HD.
      intros Hd. apply HD. apply in_or_app. now left.
    + intros r Hr. subst Dall. apply nth_error_block. lia.
Qed.

Lemma check_loop_ok D d0 P :
  nth_error D 0 = Some d0 ->
  forall items j,
    (forall t k ps, nth_error items t = Some (k, ps) ->
       List.length ps = List.length D /\
       exists pj, dev_get ps d0 = Some pj /\ nth_error P (j + t) = Some pj) ->
    check_loop D P j items = Ok tt.
Proof.
  intros Hd0. induction items as [|[k ps] items IH]; intros j H; [reflexivity|].
  destruct (H 0 k ps eq_refl) as [Hl [pj [Hg Hn]]].
  rewrite Nat.add_0_r in Hn.
  cbn [check_loop]. rewrite Hl, Nat.eqb_refl, Hd0, Hg, Hn, (String.eqb_refl pj).
  apply IH. intros t k' ps' Ht.
  replace (S j + t) with (j + S t) by lia. exact (H (S t) k' ps' Ht).
Qed.

Lemma concat_blocks_length keys D blocks :
  Forall2 (is_block keys) D blocks ->
  List.length (List.concat blocks) = List.length D * List.length keys.
Proof.
  induction 1 as [|d b D blocks Hb _ IH]; simpl; [reflexivity|].
  rewrite length_app, IH, <- (Forall2_length Hb). reflexivity.
Qed.

Lemma empty_blocks D blocks :
  Forall2 (is_block []) D blocks -> List.concat blocks = [].
Proof.
  induction 1 as [|d b D blocks Hb _ IH]; simpl; [reflexivity|].
  inversion Hb; subst. exact IH.
Qed.

(** On a block layout with pairwise distinct devices and pairwise distinct
    keys, [_GroupByDevice] returns the table whose [j]-th entry is the
    [j]-th key with one handle per device, in device order. *)
Lemma GroupByDevice_layout D keys blocks :
  D <> [] -> NoDup D -> NoDup keys -> block_layout D keys blocks ->
  exists rows,
    _GroupByDevice D (List.concat blocks) = Ok (combine keys rows)
    /\ List.length rows = List.length keys
    /\ Forall2 (row_ok D (hd 0%Z D)) rows (hd [] blocks).
Proof.
  intros HDne HD Hkeys Hlay.
  pose proof (concat_blocks_length Hlay) as Hlen.
  destruct Hlay as [|d0 b0 D' blocks' Hb0 Hbs]; [congruence|].
  unfold _GroupByDevice. cbn [List.length Nat.eqb hd].
  destruct keys as [|k0 keys'].
  - exists []. rewrite (empty_blocks (Forall2_cons _ _ Hb0 Hbs)).
    inversion Hb0; subst. cbn [List.length].
    rewrite Nat.Div0.mod_0_l. simpl. auto.
  - set (keys := k0 :: keys') in *.
    assert (Hm : List.length keys <> 0) by (simpl; lia).
    pose proof (Forall2_length Hb0) as Hb0l.
    assert (Hkne : keys <> []) by (subst keys; congruence).
    destruct (@group_loop_blocks (d0 :: D') keys d0 b0 Hkne Hkeys HD
                D' blocks' Hbs [d0] (map (fun p : BlobReference => [(d0, p)]) b0)
                eq_refl (first_block_ok d0 b0) (eq_sym Hb0l))
      as [rows' [Hr Hok]].
    pose proof (Forall2_length Hok) as Hrl.
    exists rows'. split; [|split; [lia | exact Hok]].
    rewrite Hlen. cbn [List.length] in Hr |- *.
    rewrite (Nat.mul_comm (S (List.length D'))), Nat.Div0.mod_mul.
    rewrite Nat.div_mul by lia. cbn [Nat.eqb].
    cbn [List.concat].
    rewrite (@group_loop_first_block (d0 :: D') _ Hm _ _ _ Hb0 0
               (List.concat blocks') []).
    + cbn [app]. rewrite Nat.mul_1_l in Hr.
      cbn [Nat.add]. rewrite <- Hb0l.
      match goal with
      | |- context [group_loop ?a ?b ?c ?d ?e] =>
          replace (group_loop a b c d e) with (Ok (combine keys rows'))
            by (symmetry; exact Hr)
      end.
      cbn [rbind].
      rewrite (@check_loop_ok (d0 :: D') d0); [reflexivity | reflexivity |].
      intros t k ps Ht. apply nth_error_combine in Ht as [_ Ht].
      destruct (Forall2_nth_error_l Hok _ Ht) as [p [Hp [Hk Hg]]].
      split.
      * unfold dkeys in Hk. rewrite <- (length_map fst), Hk. reflexivity.
      * exists p. split; [exact Hg|].
        cbn [Nat.add]. rewrite nth_error_app1; [exact Hp|].
        apply nth_error_Some. congruence.
    + exact Hkeys.
    + intros r Hr'. cbn [Nat.add]. rewrite Nat.div_small by lia. reflexivity.
Qed.

(** ** Grouping: what [_GroupByDevice] returns on a block layout *)

(** C2 (as amended).  Let the handles [P] come in one block per device of
    [D], every block listing replicas of the same keys in the same order,
    each handle carrying its device's name scope.  If the devices are
    pairwise distinct and the keys of a block (the names after the last
    separator) are pairwise distinct, then [_GroupByDevice D P] returns
    normally, the table has exactly [|P| / |D|] keys, every key holds
    exactly [|D|] entries, one per device and in device order, and the
    handle filed under [D[0]] for the [j]-th key is [P[j]], the first
    handle of [P] with that key. *)
Theorem GroupByDevice_block_layout D keys blocks :
  D <> [] -> NoDup D -> NoDup keys -> block_layout D keys blocks ->
  exists grouped,
    _GroupByDevice D (List.concat blocks) = Ok grouped
    /\ List.length grouped = List.length (List.concat blocks) / List.length D
    /\ (forall k ps, In (k, ps) grouped ->
          List.length ps = List.length D /\ dkeys ps = D)
    /\ (forall j k ps, nth_error grouped j = Some (k, ps) ->
          exists p,
            nth_error (List.concat blocks) j = Some p
            /\ dev_get ps (hd 0%Z D) = Some p
            /\ stripParamName p = Ok k
            /\ forall j' p', j' < j ->
                 nth_error (List.concat blocks) j' = Some p' ->
                 stripParamName p' <> Ok k).
Proof.
  intros HDne HD Hkeys Hlay.
  destruct (GroupByDevice_layout HDne HD Hkeys Hlay) as [rows [Hrun [Hlen Hok]]].
  pose proof (concat_blocks_length Hlay) as HP.
  exists (combine keys rows). split; [exact Hrun|].
  destruct Hlay as [|d0 b0 D' blocks' Hb0 Hbs]; [congruence|].
  cbn [hd] in *.
  split; [|split].
  - rewrite length_combine, HP, Hlen, Nat.min_id, Nat.mul_comm.
    rewrite Nat.div_mul; [reflexivity | simpl; lia].
  - intros k ps Hin. apply in_combine_r in Hin.
    destruct (In_nth_error _ _ Hin) as [n Hn].
    destruct (Forall2_nth_error_l Hok _ Hn) as [p [_ [Hk _]]].
    split; [|exact Hk].
    rewrite <- Hk. unfold dkeys. now rewrite length_map.
  - intros j k ps Hj. apply nth_error_combine in Hj as [Hkj Hrj].
    destruct (Forall2_nth_error_l Hok _ Hrj) as [p [Hp [_ Hg]]].
    exists p.
    assert (Hjlt : j < List.length b0) by (apply nth_error_Some; congruence).
    cbn [List.concat]. split; [|split; [exact Hg|split]].
    + rewrite nth_error_app1 by exact Hjlt. exact Hp.
    + destruct (Forall2_nth_error_r Hb0 _ Hp) as [k' [Hk' [Hs _]]].
      congruence.
    + intros j' p' Hlt Hp' Hs'.
      rewrite nth_error_app1 in Hp' by lia.
      destruct (Forall2_nth_error_r Hb0 _ Hp') as [k' [Hk' [Hs'' _]]].
      assert (k' = k) by congruence. subst k'.
      assert (j' = j); [|lia].
      apply (proj1 (NoDup_nth_error keys) Hkeys).
      * apply nth_error_Some. congruence.
      * congruence.
Qed.

(** The theorem at work: two devices, two parameters. *)
Lemma GroupByDevice_block_layout_witness :
  exists grouped,
    _GroupByDevice [0; 1]%Z
      (List.concat [["gpu_0/w"; "gpu_0/b"]; ["gpu_1/w"; "gpu_1/b"]]) = Ok grouped
    /\ List.length grouped = 4 / 2.
Proof.
  destruct (@GroupByDevice_block_layout [0; 1]%Z ["w"; "b"]
              [["gpu_0/w"; "gpu_0/b"]; ["gpu_1/w"; "gpu_1/b"]])
    as [grouped [Hrun [Hlen _]]].
  - discriminate.
  - repeat constructor; simpl; intuition discriminate.
  - repeat constructor; simpl; intuition discriminate.
  - repeat constructor.
  - exists grouped. split; [exact Hrun | exact Hlen].
Defined.

(** C2 as stated fails: two parameters under nested name scopes share the
    name after the last separator.  The input is laid out in one block per
    device with matching name scopes and its length is divisible by the
    number of devices, yet the ordering check raises. *)
Lemma GroupByDevice_shared_key_raises :
  let D := [0; 1]%Z in
  let blocks := [["gpu_0/a/w"; "gpu_0/b/w"]; ["gpu_1/a/w"; "gpu_1/b/w"]] in
  NoDup D
  /\ block_layout D ["w"; "w"] blocks
  /\ List.length (List.concat blocks) mod List.length D = 0
  /\ _GroupByDevice D (List.concat blocks) = Raise (AssertionError "").
Proof.
  cbv zeta. split; [|split; [|split]].
  - repeat constructor; simpl; intuition discriminate.
  - repeat constructor.
  - reflexivity.
  - reflexivity.
Qed.

(** ** Reduction order *)

(** C4.  Let the gradient handles the parameter list binds, taken in
    parameter-list order, come in one block per device with canonical
    gradient names [gkeys] (pairwise distinct, as the devices are).  Then
    grouping and registering them succeeds, and the reduction order
    [_GetReverseOrderedGrads] both sync strategies read is exactly the
    reverse of [gkeys], the binding's insertion order. *)
Theorem reduction_order_is_reversed_binding D gkeys blocks w :
  D <> [] -> NoDup D -> NoDup gkeys -> block_layout D gkeys blocks ->
  grads_ordered_of (model w) = List.concat blocks ->
  exists w',
    bind_gradients D w = (w', Ok tt)
    /\ _grad_names (model w') = gkeys
    /\ _GetReverseOrderedGrads (model w') = rev gkeys.
Proof.
  intros HDne HD Hkeys Hlay Hgrads.
  destruct (GroupByDevice_layout HDne HD Hkeys Hlay) as [rows [Hrun [Hlen _]]].
  unfold bind_gradients, bind, gets, lift, modify.
  rewrite Hgrads, Hrun.
  eexists. split; [reflexivity|].
  unfold _GetReverseOrderedGrads. cbn.
  unfold dkeys. rewrite map_fst_combine_eq by (symmetry; exact Hlen).
  split; reflexivity.
Qed.

Lemma reduction_order_witness :
  exists w',
    bind_gradients [0; 1]%Z (mkWorld three_params_model []) = (w', Ok tt)
    /\ _grad_names (model w') = ["w1_grad"; "w2_grad"; "w3_grad"]
    /\ _GetReverseOrderedGrads (model w') = ["w3_grad"; "w2_grad"; "w1_grad"].
Proof.
  apply (@reduction_order_is_reversed_binding [0; 1]%Z
           ["w1_grad"; "w2_grad"; "w3_grad"]
           [["gpu_0/w1_grad"; "gpu_0/w2_grad"; "gpu_0/w3_grad"];
            ["gpu_1/w1_grad"; "gpu_1/w2_grad"; "gpu_1/w3_grad"]]
           (mkWorld three_params_model [])).
  - discriminate.
  - repeat constructor; simpl; intuition discriminate.
  - repeat constructor; simpl; intuition discriminate.
  - repeat constructor.
  - reflexivity.
Defined.

(** ** Grouping: when [_GroupByDevice] fails *)

Lemma dset_dset_same (K V : Type) (eqb : K -> K -> bool)
    (eqb_eq : forall a b, eqb a b = true <-> a = b) (d : dict K V) k v v' :
  dset eqb (dset eqb d k v) k v' = dset eqb d k v'.
Proof.
  induction d as [|[k0 w] d IH]; simpl.
  - now rewrite (eqb_same _ eqb_eq).
  - destruct (eqb k0 k) eqn:E; simpl; rewrite E; [reflexivity|].
    now rewrite IH.
Qed.

Lemma dset_in (K V : Type) (eqb : K -> K -> bool) (d : dict K V) k v k' v' :
  In (k', v') (dset eqb d k v) -> In (k', v') d \/ v' = v.
Proof.
  induction d as [|[k0 w] d IH]; simpl.
  - intros [H|[]]. inversion H. now right.
  - destruct (eqb k0 k); simpl.
    + intros [H|H]; [inversion H; now right | left; now right].
    + intros [H|H]; [left; now left|].
      destruct (IH H); [left; now right | now right].
Qed.

Lemma dset_length (K V : Type) (eqb : K -> K -> bool) (d : dict K V) k v :
  List.length (dset eqb d k v) <= S (List.length d).
Proof.
  induction d as [|[k0 w] d IH]; simpl; [lia|].
  destruct (eqb k0 k); simpl; lia.
Qed.

Lemma dget_none_notin (K V : Type) (eqb : K -> K -> bool)
    (eqb_eq : forall a b, eqb a b = true <-> a = b) (d : dict K V) k :
  dget eqb d k = None -> ~ In k (dkeys d).
Proof.
  intros H Hin. destruct (dget_in _ eqb_eq _ _ Hin) as [v Hv]. congruence.
Qed.

(** The filing step of the source, [if name not in grouped: grouped[name]
    = {}] followed by [grouped[name][gpuid] = p], is an update of the
    entry of [name]. *)
Lemma file_step grouped name :
  let grouped1 :=
    if grp_mem grouped name then grouped else grp_set grouped name [] in
  grp_get grouped1 name = Some (entry grouped name)
  /\ forall v, grp_set grouped1 name v = grp_set grouped name v.
Proof.
  unfold grp_mem, dmem, entry, grp_get, grp_set.
  destruct (dget String.eqb grouped name) as [ps|] eqn:E; cbv zeta.
  - split; [exact E | reflexivity].
  - split.
    + apply (dget_dset_same _ Seqb_iff).
    + intros v. apply (dset_dset_same _ Seqb_iff).
Qed.

Lemma group_loop_verdict D m :
  m <> 0 ->
  forall P i g,
    Forall has_separator P ->
    (forall r, r < List.length P -> (i + r) / m < List.length D) ->
    verdict (group_loop D m i P g) (scopes_agree_from D m i P)
      (fun g' => g' = table_loop D m i P g).
Proof.
  intros Hm. induction P as [|p P IH]; intros i g Hsep Hidx.
  - simpl. auto.
  - inversion Hsep as [|? ? Hp HP]; subst.
    unfold has_separator in Hp.
    cbn [group_loop table_loop scopes_agree_from].
    destruct (stripParamName p) as [name|] eqn:Hname; [|discriminate].
    cbn [rbind].
    destruct (Nat.eqb_spec m 0) as [|_]; [contradiction|].
    assert (Hi : i / m < List.length D).
    { specialize (Hidx 0). rewrite Nat.add_0_r in Hidx. apply Hidx. simpl. lia. }
    destruct (nth_error D (i / m)) as [d|] eqn:Hd;
      [|apply nth_error_None in Hd; lia].
    destruct (contains (gpu_namescope d) (GetNameScope p)); [|reflexivity].
    destruct (file_step g name) as [Hget Hset]. cbv zeta in Hget, Hset.
    rewrite Hget, Hset. cbn [andb].
    apply IH; [exact HP|].
    intros r Hr. replace (S i + r) with (i + S r) by lia.
    apply Hidx. simpl. lia.
Qed.

Lemma table_loop_within D m P :
  forall i g, rows_within D g -> rows_within D (table_loop D m i P g).
Proof.
  induction P as [|p P IH]; intros i g Hg; [exact Hg|].
  cbn [table_loop].
  destruct (stripParamName p) as [name|]; [|now apply IH].
  destruct (nth_error D (i / m)) as [d|] eqn:Hd; [|now apply IH].
  apply IH. intros k ps Hin.
  destruct (dset_in _ _ _ _ _ _ Hin) as [Hold|Hnew]; [exact (Hg k ps Hold)|].
  subst ps.
  assert (Hentry : NoDup (dkeys (entry g name)) /\ incl (dkeys (entry g name)) D).
  { unfold entry, grp_get. destruct (dget String.eqb g name) as [ps|] eqn:E.
    - apply (Hg name). now apply (dget_some_in _ Seqb_iff).
    - split; [constructor | intros x []]. }
  destruct Hentry as [Hnd Hincl].
  unfold dev_set. rewrite dkeys_dset. unfold dmem.
  destruct (dget Z.eqb (entry g name) d) eqn:E; [now split|].
  apply (dget_none_notin _ Zeqb_iff) in E.
  split.
  - apply NoDup_app; [exact Hnd | repeat constructor; intros [] |].
    intros x Hx [Hxd|[]]. subst. contradiction.
  - intros x Hx. apply in_app_or in Hx as [Hx|[Hx|[]]]; [now apply Hincl|].
    subst. eapply nth_error_In. exact Hd.
Qed.

Lemma table_loop_length D m P :
  forall i g, List.length (table_loop D m i P g) <= List.length g + List.length P.
Proof.
  induction P as [|p P IH]; intros i g; cbn [table_loop List.length]; [lia|].
  destruct (stripParamName p) as [name|].
  - destruct (nth_error D (i / m)) as [d|].
    + specialize (IH (S i) (grp_set g name (dev_set (entry g name) d p))).
      pose proof (dset_length String.eqb g name (dev_set (entry g name) d p)) as Hs.
      unfold grp_set in *. cbn [List.length] in *. lia.
    + specialize (IH (S i) g). lia.
  - specialize (IH (S i) g). lia.
Qed.

(** A complete entry holds the first device. *)
Lemma complete_entry_has D d0 (ps : DeviceBlobs) :
  In d0 D -> NoDup (dkeys ps) -> incl (dkeys ps) D ->
  List.length ps = List.length D ->
  exists h, dev_get ps d0 = Some h.
Proof.
  intros Hd0 Hnd Hincl Hlen.
  apply (dget_in _ Zeqb_iff).
  assert (Hle : List.length D <= List.length (dkeys ps)).
  { unfold dkeys. rewrite length_map. lia. }
  exact (NoDup_length_incl Hnd Hle Hincl d0 Hd0).
Qed.

Lemma check_loop_verdict D P d0 :
  nth_error D 0 = Some d0 ->
  forall items j,
    rows_within D items ->
    j + List.length items <= List.length P ->
    verdict (check_loop D P j items)
      (counts_ok D items && order_ok D P j items) (fun _ => True).
Proof.
  intros Hd0.
  assert (Hhd : hd 0%Z D = d0) by (destruct D; simpl in *; congruence).
  assert (Hin0 : In d0 D) by (eapply nth_error_In; exact Hd0).
  induction items as [|[k ps] items IH]; intros j Hrows Hlen.
  - simpl. auto.
  - cbn [check_loop counts_ok forallb order_ok snd].
    fold (counts_ok D items).
    destruct (Nat.eqb_spec (List.length ps) (List.length D)) as [Hl|Hl];
      [|reflexivity].
    rewrite Hd0, Hhd.
    destruct (Hrows k ps (or_introl eq_refl)) as [Hnd Hincl].
    destruct (@complete_entry_has D d0 ps Hin0 Hnd Hincl Hl) as [h Hh]. rewrite Hh.
    destruct (nth_error P j) as [pj|] eqn:Hpj;
      [|apply nth_error_None in Hpj; simpl in Hlen; lia].
    destruct (String.eqb h pj).
    + cbn [andb]. apply IH.
      * intros k' ps' Hin'. apply (Hrows k' ps'). now right.
      * simpl in Hlen. lia.
    + cbn [andb]. now destruct (counts_ok D items).
Qed.

Lemma verdict_is_ok (A : Type) (r : result A) b post :
  verdict r b post ->
  is_ok r = b /\ (is_ok r = false -> is_assertion_error r = true).
Proof.
  destruct r as [a|[]]; simpl; try contradiction.
  - intros [-> _]. split; [reflexivity | discriminate].
  - intros ->. split; reflexivity.
Qed.

Lemma GroupByDevice_verdict D P :
  D <> [] -> Forall has_separator P ->
  verdict (_GroupByDevice D P)
    (divisible D P && scopes_agree D P && counts_agree D P && order_agrees D P)
    (fun g => g = table D P).
Proof.
  intros HD Hsep.
  assert (HDl : List.length D <> 0) by (destruct D; simpl; congruence).
  assert (Hd0 : exists d0, nth_error D 0 = Some d0)
    by (destruct D as [|d0 D']; [congruence | now exists d0]).
  destruct Hd0 as [d0 Hd0].
  unfold _GroupByDevice, divisible.
  destruct (Nat.eqb_spec (List.length D) 0) as [|_]; [contradiction|].
  destruct (Nat.eqb_spec (List.length P mod List.length D) 0) as [Hdiv|Hdiv];
    [|reflexivity].
  cbn [andb].
  destruct P as [|p P'].
  - unfold scopes_agree, counts_agree, order_agrees, table.
    cbn [List.length]. rewrite !Nat.Div0.div_0_l. simpl. auto.
  - set (P := p :: P') in *.
    set (m := List.length P / List.length D).
    assert (Hexact : List.length P = List.length D * m)
      by (apply Nat.Div0.div_exact; exact Hdiv).
    assert (Hm : m <> 0).
    { intros Hm0. rewrite Hm0, Nat.mul_0_r in Hexact. discriminate. }
    assert (Hidx : forall r, r < List.length P -> (0 + r) / m < List.length D).
    { intros r Hr. apply Nat.Div0.div_lt_upper_bound.
      rewrite Nat.mul_comm. simpl. lia. }
    pose proof (@group_loop_verdict D m Hm P 0 [] Hsep Hidx) as Hloop.
    unfold scopes_agree, counts_agree, order_agrees, table. fold m.
    destruct (group_loop D m 0 P []) as [g|e]; cbn [verdict rbind] in *.
    + destruct Hloop as [Hsc Hg]. rewrite Hsc. cbn [andb]. subst g.
      assert (Hrows : rows_within D (table_loop D m 0 P [])).
      { apply table_loop_within. intros k ps []. }
      pose proof (table_loop_length D m P 0 []) as Hlen.
      pose proof (@check_loop_verdict D P d0 Hd0 _ 0 Hrows Hlen) as Hchk.
      destruct (check_loop D P 0 (table_loop D m 0 P [])) as [[]|e];
        cbn [verdict rbind] in *.
      * destruct Hchk as [Hb _]. rewrite Hb. auto.
      * destruct e; try contradiction. exact Hchk.
    + destruct e; try contradiction. rewrite Hloop. reflexivity.
Qed.

(** C3 (as amended).  For a non-empty device list and handles whose names
    each contain the separator, [_GroupByDevice] fails, and then with an
    assertion failure, exactly when the total count is not divisible by
    the device count, or the name scope of some handle does not contain
    the [gpu_<d>/] of the device [d] of its block position, or a key ends
    up with a number of entries different from [|D|], or the handle filed
    under [D[0]] for the [j]-th key differs from the [j]-th input handle.
    On a block layout with pairwise distinct devices and pairwise distinct
    keys it does not fail. *)
Theorem GroupByDevice_failure_causes D P :
  D <> [] -> Forall has_separator P ->
  (is_ok (_GroupByDevice D P)
   = divisible D P && scopes_agree D P && counts_agree D P && order_agrees D P)
  /\ (is_ok (_GroupByDevice D P) = false ->
      is_assertion_error (_GroupByDevice D P) = true)
  /\ (forall keys blocks,
        P = List.concat blocks -> NoDup D -> NoDup keys ->
        block_layout D keys blocks ->
        is_ok (_GroupByDevice D P) = true).
Proof.
  intros HD Hsep.
  destruct (verdict_is_ok _ _ _ (GroupByDevice_verdict HD Hsep)) as [Hok Hkind].
  split; [exact Hok|]. split; [exact Hkind|].
  intros keys blocks -> HDnd Hkeys Hlay.
  destruct (GroupByDevice_layout HD HDnd Hkeys Hlay) as [rows [Hrun _]].
  now rewrite Hrun.
Qed.

Lemma GroupByDevice_failure_causes_witness :
  is_ok (_GroupByDevice [0; 1]%Z ["gpu_0/w"; "gpu_1/w"; "gpu_1/b"])
  = divisible [0; 1]%Z ["gpu_0/w"; "gpu_1/w"; "gpu_1/b"]
    && scopes_agree [0; 1]%Z ["gpu_0/w"; "gpu_1/w"; "gpu_1/b"]
    && counts_agree [0; 1]%Z ["gpu_0/w"; "gpu_1/w"; "gpu_1/b"]
    && order_agrees [0; 1]%Z ["gpu_0/w"; "gpu_1/w"; "gpu_1/b"].
Proof.
  apply (@GroupByDevice_failure_causes [0; 1]%Z ["gpu_0/w"; "gpu_1/w"; "gpu_1/b"]).
  - discriminate.
  - repeat constructor.
Defined.

(** C3 as stated fails: the count is divisible, every key ends up with
    [|D|] entries and every name scope names the device of its block, yet
    the ordering check raises. *)
Lemma GroupByDevice_ordering_check_raises :
  let D := [0]%Z in
  let P := ["gpu_0/a/w"; "gpu_0/b/w"] in
  divisible D P = true
  /\ counts_agree D P = true
  /\ scopes_agree D P = true
  /\ _GroupByDevice D P = Raise (AssertionError "").
Proof. cbv zeta. repeat split. Qed.

(** ** Device-scope validation *)

Lemma prefix_app a t : prefix a t = true <-> exists r, t = (a ++ r)%string.
Proof.
  revert t. induction a as [|c a IH]; intros t.
  - split; [intros _; now exists t | intros _; now destruct t].
  - destruct t as [|c' t]; simpl.
    + split; [discriminate | intros [r Hr]; discriminate].
    + destruct (Ascii.ascii_dec c c') as [->|Hne].
      * rewrite IH. split; intros [r Hr]; exists r; [now subst | now inversion Hr].
      * split; [discriminate | intros [r Hr]; inversion Hr; congruence].
Qed.

Lemma append_assoc (a b c : string) :
  ((a ++ b) ++ c = a ++ (b ++ c))%string.
Proof. induction a as [|x a IH]; simpl; [reflexivity | now rewrite IH]. Qed.

Lemma lacks_split c s1 : forall s2 r1 r2,
  lacks c s1 -> lacks c s2 ->
  (s1 ++ String c r1 = s2 ++ String c r2)%string -> s1 = s2.
Proof.
  induction s1 as [|a s1 IH]; intros [|b s2] r1 r2 H1 H2 Heq; simpl in *.
  - reflexivity.
  - inversion Heq; subst. destruct H2 as [Hb _]. congruence.
  - inversion Heq; subst. destruct H1 as [Ha _]. congruence.
  - inversion Heq; subst. f_equal.
    destruct H1 as [_ H1], H2 as [_ H2]. eauto.
Qed.

Lemma digits_lack_slash d : lacks "/" (NilEmpty.string_of_uint d).
Proof. induction d; simpl; auto; split; auto; discriminate. Qed.

Lemma fmt_lacks_slash z : lacks "/" (fmt z).
Proof.
  unfold fmt, NilZero.string_of_int, NilZero.string_of_uint.
  destruct (Z.to_int z) as [d|d]; destruct d; simpl;
    repeat split; try discriminate; apply digits_lack_slash.
Qed.

Lemma fmt_inj z z' : fmt z = fmt z' -> z = z'.
Proof.
  unfold fmt. intros H. apply DecimalZ.to_int_inj.
  assert (Hnn : forall y, Z.to_int y <> Decimal.Pos Decimal.Nil
                          /\ Z.to_int y <> Decimal.Neg Decimal.Nil).
  { intros [|p|p]; simpl; split; try discriminate;
      intros [= Hp]; now apply DecimalPos.Unsigned.to_uint_nonnil in Hp. }
  destruct (Hnn z) as [Hz1 Hz2]. destruct (Hnn z') as [Hz1' Hz2'].
  pose proof (NilZero.isi _ Hz1 Hz2) as E.
  pose proof (NilZero.isi _ Hz1' Hz2') as E'.
  congruence.
Qed.

(** A tensor name carries the prefix of one device only. *)
Lemma gpu_namescope_unique t d d' :
  startswith t (gpu_namescope d) = true ->
  startswith t (gpu_namescope d') = true -> d = d'.
Proof.
  unfold startswith, gpu_namescope. intros H H'.
  apply prefix_app in H as [r Hr]. apply prefix_app in H' as [r' Hr'].
  subst t. simpl in Hr'. injection Hr' as Hr'.
  rewrite !append_assoc in Hr'. simpl in Hr'.
  apply fmt_inj.
  exact (@lacks_split _ _ _ _ _ (fmt_lacks_slash d) (fmt_lacks_slash d') Hr').
Qed.

Lemma gpu_namescope_gpu t d :
  startswith t (gpu_namescope d) = true -> startswith t "gpu_" = true.
Proof.
  unfold startswith, gpu_namescope. intros H.
  apply prefix_app in H as [r Hr]. subst t.
  apply prefix_app. eexists. simpl. reflexivity.
Qed.

Lemma check_blobs_ok o ns l :
  forallb (blob_in_scope ns) l = true -> check_blobs o ns l = Ok tt.
Proof.
  induction l as [|t l IH]; simpl; [reflexivity|].
  intros H. apply andb_prop in H as [Ht Hl].
  unfold check_blob, blob_in_scope in *.
  destruct (startswith t "gpu_"), (startswith t ns); simpl in *;
    try discriminate; auto.
Qed.

Lemma check_blobs_raises o ns l :
  forallb (blob_in_scope ns) l = false ->
  exists blob,
    check_blobs o ns l = Raise (ScopeException blob (op_type o) ns o)
    /\ In blob l /\ startswith blob "gpu_" = true /\ startswith blob ns = false.
Proof.
  induction l as [|t l IH]; simpl; [discriminate|].
  unfold check_blob at 1, blob_in_scope at 1.
  destruct (startswith t "gpu_") eqn:Hg, (startswith t ns) eqn:Hn; simpl.
  - intros H. destruct (IH H) as [b [Hb [Hin Hrest]]]. exists b. auto.
  - intros _. exists t. auto.
  - intros H. destruct (IH H) as [b [Hb [Hin Hrest]]]. exists b. auto.
  - intros H. destruct (IH H) as [b [Hb [Hin Hrest]]]. exists b. auto.
Qed.

Lemma exempt_type_whitelisted o : exempt_type o = whitelisted o.
Proof. reflexivity. Qed.

Lemma analyze_op_unchecked o : checked o = false -> analyze_op o = Ok tt.
Proof.
  unfold checked, on_gpu, analyze_op.
  change (exempt_type o) with (whitelisted o).
  destruct (whitelisted o); [reflexivity|].
  destruct (device_type (device_option o)); [reflexivity | discriminate].
Qed.

Lemma analyze_op_checked o :
  checked o = true ->
  analyze_op o = check_blobs o (gpu_namescope (op_gpu o)) (input o ++ output o).
Proof.
  unfold checked, on_gpu, analyze_op.
  change (exempt_type o) with (whitelisted o).
  destruct (whitelisted o); [discriminate|].
  destruct (device_type (device_option o)); [discriminate | reflexivity].
Qed.

Lemma analyze_ops_ok ops :
  (forall o, In o ops -> checked o = true -> op_in_scope o = true) ->
  analyze_ops ops = Ok tt.
Proof.
  induction ops as [|o ops IH]; intros H; [reflexivity|].
  cbn [analyze_ops].
  assert (Ho : analyze_op o = Ok tt).
  { destruct (checked o) eqn:Hc.
    - rewrite analyze_op_checked by exact Hc.
      apply check_blobs_ok. apply (H o); [now left | exact Hc].
    - now apply analyze_op_unchecked. }
  rewrite Ho. cbn [rbind]. apply IH. intros o' Hin. apply H. now right.
Qed.

Lemma analyze_ops_raises ops :
  (exists o, In o ops /\ checked o = true /\ op_in_scope o = false) ->
  exists o' blob,
    analyze_ops ops
    = Raise (ScopeException blob (op_type o') (gpu_namescope (op_gpu o')) o')
    /\ In o' ops /\ checked o' = true
    /\ In blob (input o' ++ output o')
    /\ startswith blob "gpu_" = true
    /\ startswith blob (gpu_namescope (op_gpu o')) = false.
Proof.
  induction ops as [|o ops IH]; intros [bad [Hin [Hc Hs]]]; [contradiction|].
  cbn [analyze_ops].
  destruct (checked o) eqn:Hco.
  - rewrite analyze_op_checked by exact Hco.
    destruct (op_in_scope o) eqn:Hso.
    + rewrite check_blobs_ok by exact Hso. cbn [rbind].
      destruct Hin as [->|Hin]; [congruence|].
      destruct IH as [o' [blob [Hr Hrest]]]; [now exists bad|].
      exists o', blob. rewrite Hr.
      destruct Hrest as [Hin' Hrest]. repeat split; try apply Hrest. now right.
    + destruct (check_blobs_raises o _ _ Hso) as [blob [Hr [Hb [Hg Hn]]]].
      exists o, blob. rewrite Hr. cbn [rbind].
      repeat split; auto. now left.
  - rewrite analyze_op_unchecked by exact Hco. cbn [rbind].
    destruct Hin as [->|Hin]; [congruence|].
    destruct IH as [o' [blob [Hr Hrest]]]; [now exists bad|].
    exists o', blob. rewrite Hr.
    destruct Hrest as [Hin' Hrest]. repeat split; try apply Hrest. now right.
Qed.

Lemma analyze_ops_not_whitelisted ops :
  analyze_ops ops = analyze_ops (not_whitelisted ops).
Proof.
  induction ops as [|o ops IH]; [reflexivity|].
  cbn [not_whitelisted filter analyze_ops]. fold (not_whitelisted ops).
  destruct (whitelisted o) eqn:Hw; cbn [negb].
  - rewrite analyze_op_unchecked by (unfold checked; now rewrite Hw).
    exact IH.
  - cbn [analyze_ops]. now rewrite IH.
Qed.

(** C5 (as amended).  [_AnalyzeOperators] accepts a graph in which every
    operator whose type name contains neither [NCCL] nor [Copy] and that
    is not assigned to the CPU has its device-prefixed input and output
    names under its own device's name scope.  When such an operator,
    assigned to device [d], reads or writes a tensor prefixed with
    another device [d' <> d], the pass raises, and the exception names an
    offending tensor of an offending operator, the operator's type and
    the name scope that was expected.  The exemption goes by the type
    name alone: the verdict is that of the graph with the operators whose
    type name contains [NCCL] or [Copy] left out, whatever they read or
    write, so two graphs that differ only in such operators get the same
    verdict. *)
Theorem AnalyzeOperators_scope_check m :
  ((forall o, In o (op (nets m net)) -> checked o = true -> op_in_scope o = true) ->
   _AnalyzeOperators m = Ok tt)
  /\ (forall o t d',
        In o (op (nets m net)) -> checked o = true ->
        In t (input o ++ output o) ->
        startswith t (gpu_namescope d') = true -> d' <> op_gpu o ->
        exists o' blob,
          _AnalyzeOperators m
          = Raise (ScopeException blob (op_type o') (gpu_namescope (op_gpu o')) o')
          /\ In o' (op (nets m net)) /\ checked o' = true
          /\ In blob (input o' ++ output o')
          /\ startswith blob "gpu_" = true
          /\ startswith blob (gpu_namescope (op_gpu o')) = false)
  /\ (forall m',
        not_whitelisted (op (nets m' net)) = not_whitelisted (op (nets m net)) ->
        _AnalyzeOperators m' = _AnalyzeOperators m).
Proof.
  unfold _AnalyzeOperators. split; [|split].
  - apply analyze_ops_ok.
  - intros o t d' Hin Hc Ht Hpre Hne.
    apply analyze_ops_raises. exists o. repeat split; auto.
    unfold op_in_scope.
    destruct (forallb (blob_in_scope (gpu_namescope (op_gpu o)))
                (input o ++ output o)) eqn:E; [|reflexivity].
    rewrite forallb_forall in E. specialize (E t Ht).
    unfold blob_in_scope in E.
    rewrite (gpu_namescope_gpu _ _ Hpre) in E. simpl in E.
    elim Hne. exact (gpu_namescope_unique _ _ _ Hpre E).
  - intros m' Hsame.
    rewrite (analyze_ops_not_whitelisted (op (nets m' net))), Hsame.
    symmetry. apply analyze_ops_not_whitelisted.
Qed.

(** C5 as stated fails.  Collective operators are not exempt as such: the cross-host all-reduce and the
    cross-host broadcast are collectives, their type names contain
    neither [NCCL] nor [Copy], and on device 2 with a tensor of device 1
    each of them makes the pass raise.  Of the collectives only the one
    whose name says [NCCL] is let through. *)
Lemma collective_allreduce_rejected :
  collective stray_allreduce = true
  /\ _AnalyzeOperators (graph_of [stray_allreduce])
     = Raise (ScopeException "gpu_1/x" "Allreduce" "gpu_2/" stray_allreduce)
  /\ collective stray_broadcast = true
  /\ _AnalyzeOperators (graph_of [stray_broadcast])
     = Raise (ScopeException "gpu_1/x" "Broadcast" "gpu_2/" stray_broadcast)
  /\ collective nccl_over_two = true
  /\ _AnalyzeOperators (graph_of [nccl_over_two]) = Ok tt.
Proof. repeat split. Qed.

(** ** Running the construction monad *)

Lemma run_bind (A B : Type) (c : M A) (k : A -> M B) w w' a :
  c w = (w', Ok a) -> bind c k w = k a w'.
Proof. unfold bind. now intros ->. Qed.

Lemma run_bind_raise (A B : Type) (c : M A) (k : A -> M B) w w' e :
  c w = (w', Raise e) -> bind c k w = (w', Raise e).
Proof. unfold bind. now intros ->. Qed.

Lemma emit_run r o w : emit r o w = (emitW r o w, Ok tt).
Proof. reflexivity. Qed.

Lemma emit_all_app es1 es2 w :
  emit_all (es1 ++ es2) w = emit_all es2 (emit_all es1 w).
Proof. unfold emit_all. apply fold_left_app. Qed.

Lemma emit_all_cons e es w :
  emit_all (e :: es) w = emit_all es (emitW (fst e) (snd e) w).
Proof. reflexivity. Qed.

Lemma NetRef_eqb_eq a b : NetRef_eqb a b = true <-> a = b.
Proof. destruct a, b; simpl; split; congruence. Qed.

Lemma NetRef_eqb_refl a : NetRef_eqb a a = true.
Proof. now destruct a. Qed.

Lemma same_but_ops_refl w : same_but_ops w w.
Proof. constructor; reflexivity. Qed.

Lemma same_but_ops_emitW r o w : same_but_ops w (emitW r o w).
Proof.
  constructor; try reflexivity; intros r'; simpl;
    destruct (NetRef_eqb r' r) eqn:E; try reflexivity;
    apply NetRef_eqb_eq in E; now subst.
Qed.

Lemma same_but_ops_trans w1 w2 w3 :
  same_but_ops w1 w2 -> same_but_ops w2 w3 -> same_but_ops w1 w3.
Proof.
  intros [] []. constructor; try congruence; intros r; congruence.
Qed.

Lemma same_but_ops_emit_all es : forall w, same_but_ops w (emit_all es w).
Proof.
  induction es as [|e es IH]; intros w; [apply same_but_ops_refl|].
  rewrite emit_all_cons.
  eapply same_but_ops_trans; [apply same_but_ops_emitW | apply IH].
Qed.

Lemma store_emit_all es w :
  _device_grouped_blobs (model (emit_all es w)) = _device_grouped_blobs (model w).
Proof. apply (same_store (same_but_ops_emit_all es w)). Qed.

Lemma ops_emitW r r' o w :
  op (nets (model (emitW r o w)) r')
  = op (nets (model w) r') ++ (if NetRef_eqb r r' then [o] else []).
Proof.
  simpl. destruct r, r'; simpl; try reflexivity; now rewrite app_nil_r.
Qed.

Lemma ops_emit_all r es : forall w,
  op (nets (model (emit_all es w)) r) = op (nets (model w) r) ++ emitted r es.
Proof.
  unfold emitted.
  induction es as [|[r' o] es IH]; intros w.
  - simpl. now rewrite app_nil_r.
  - rewrite emit_all_cons, IH, ops_emitW. cbn [fst snd filter].
    destruct r, r'; simpl; rewrite <- ?app_assoc; reflexivity.
Qed.

Lemma emitted_app r es1 es2 : emitted r (es1 ++ es2) = emitted r es1 ++ emitted r es2.
Proof. unfold emitted. now rewrite filter_app, map_app. Qed.

Lemma emitted_on_net r ops : emitted r (on_net r ops) = ops.
Proof.
  unfold emitted, on_net. induction ops as [|o ops IH]; simpl; [reflexivity|].
  rewrite NetRef_eqb_refl. simpl. now rewrite IH.
Qed.

Lemma emitted_on_other r r' ops : r' <> r -> emitted r (on_net r' ops) = [].
Proof.
  intros Hne. unfold emitted, on_net.
  induction ops as [|o ops IH]; simpl; [reflexivity|].
  destruct (NetRef_eqb r' r) eqn:E; [apply NetRef_eqb_eq in E; contradiction|].
  exact IH.
Qed.

(** Looking a handle up. *)
Lemma grouped_blob_run name d w ps b :
  grp_get (_device_grouped_blobs (model w)) name = Some ps ->
  dev_get ps d = Some b ->
  grouped_blob name d w = (w, Ok b).
Proof.
  intros Hps Hb. unfold grouped_blob, bind, gets. now rewrite Hps, Hb.
Qed.

Lemma grouped_values_run name w ps :
  grp_get (_device_grouped_blobs (model w)) name = Some ps ->
  grouped_values name w = (w, Ok (dvalues ps)).
Proof.
  intros Hps. unfold grouped_values, bind, gets. now rewrite Hps.
Qed.

(** ** Broadcasting *)

Lemma blob_of_some ps d b : dev_get ps d = Some b -> blob_of ps d = b.
Proof. unfold blob_of. now intros ->. Qed.

Lemma broadcast_loop_run n name ps d0 b0 :
  dev_get ps d0 = Some b0 ->
  forall l w,
    grp_get (_device_grouped_blobs (model w)) name = Some ps ->
    (forall d, In d l -> exists b, dev_get ps d = Some b) ->
    forM_ l (fun gpu_idx =>
      (src <- grouped_blob name d0 ;;
       dst <- grouped_blob name gpu_idx ;;
       emit n (Copy (cuda gpu_idx) src dst))%M) w
    = (emit_all (on_net n (map (fun d => Copy (cuda d) b0 (blob_of ps d)) l)) w,
       Ok tt).
Proof.
  intros Hb0. induction l as [|d l IH]; intros w Hps Hl; [reflexivity|].
  cbn [forM_].
  destruct (Hl d (or_introl eq_refl)) as [b Hb].
  erewrite run_bind.
  2:{ erewrite run_bind by (eapply grouped_blob_run; eassumption).
      erewrite run_bind by (eapply grouped_blob_run; eassumption).
      apply emit_run. }
  rewrite IH.
  - cbn [map on_net]. rewrite emit_all_cons. cbn [fst snd].
    now rewrite (blob_of_some _ _ Hb).
  - exact Hps.
  - intros d' Hd'. apply Hl. now right.
Qed.

(** [_Broadcast] inserts one copy per device other than the first, from
    the first device's handle to that device's. *)
Lemma Broadcast_run n name ps d0 rest w :
  grp_get (_device_grouped_blobs (model w)) name = Some ps ->
  complete (d0 :: rest) ps ->
  _Broadcast (d0 :: rest) n name w
  = (emit_all
       (on_net n (map (fun d => Copy (cuda d) (blob_of ps d0) (blob_of ps d)) rest))
       w, Ok tt).
Proof.
  intros Hps Hc. unfold _Broadcast.
  destruct (Hc d0 (or_introl eq_refl)) as [b0 Hb0].
  erewrite run_bind by reflexivity. cbn [tl].
  rewrite (broadcast_loop_run n name d0 Hb0 rest w Hps).
  - now rewrite (blob_of_some _ _ Hb0).
  - intros d Hd. apply Hc. now right.
Qed.

(** ** Single-host synchronisation *)

Lemma single_host_fold devices d0 store :
  devices <> [] ->
  forall grads last w,
    _device_grouped_blobs (model w) = store ->
    (forall g, In g grads ->
       exists ps, grp_get store g = Some ps
                  /\ List.length ps = List.length devices) ->
    exists last',
      foldM grads (single_host_body devices d0) last w
      = (emit_all
           (on_net net
              (serialized_allreduces (cuda d0) (map (group_of store) grads) last))
           w, Ok last').
Proof.
  intros Hne. induction grads as [|g grads IH]; intros last w Hst Hready.
  - exists last. reflexivity.
  - destruct (Hready g (or_introl eq_refl)) as [ps [Hps Hlen]].
    assert (Hgroup : group_of store g = dvalues ps).
    { unfold group_of, entry. now rewrite Hps. }
    assert (Hvals : exists b bs, dvalues ps = b :: bs).
    { destruct ps as [|[d b] ps']; simpl in *.
      - destruct devices; simpl in *; congruence.
      - now exists b, (dvalues ps'). }
    destruct Hvals as [b [bs Hvals]].
    cbn [foldM].
    assert (Hbody :
      single_host_body devices d0 g last w
      = (emitW net (NCCLAllreduce (cuda d0) (dvalues ps) last) w, Ok (Some b))).
    { unfold single_host_body.
      erewrite run_bind by (apply grouped_values_run; rewrite Hst; exact Hps).
      unfold dvalues at 1. rewrite length_map, Hlen, Nat.eqb_refl.
      erewrite run_bind by reflexivity.
      erewrite run_bind by apply emit_run.
      rewrite Hvals. reflexivity. }
    erewrite run_bind by exact Hbody.
    destruct (IH (Some b) (emitW net (NCCLAllreduce (cuda d0) (dvalues ps) last) w))
      as [last' Hrest].
    + exact Hst.
    + intros g' Hg'. apply Hready. now right.
    + exists last'. rewrite Hrest. cbn [map serialized_allreduces on_net].
      rewrite emit_all_cons, Hgroup, Hvals. reflexivity.
Qed.

Lemma serialized_allreduces_nth dev groups :
  forall last j g,
    nth_error groups j = Some g ->
    nth_error (serialized_allreduces dev groups last) j
    = Some (NCCLAllreduce dev g
              (match j with
               | O => last
               | S j' => option_map (hd "") (nth_error groups j')
               end)).
Proof.
  induction groups as [|g0 groups IH]; intros last [|j] g Hj; simpl in *;
    try discriminate.
  - now inversion Hj.
  - rewrite (IH _ _ _ Hj). destruct j; reflexivity.
Qed.

Lemma serialized_allreduces_length dev groups : forall last,
  List.length (serialized_allreduces dev groups last) = List.length groups.
Proof. induction groups; intros; simpl; auto. Qed.

(** C6.  With a single device, [_AllReduceGradientsSingleHost] and
    [_BroadcastComputedParamsSingleHost] return at once and leave the
    world as it was: no operator is inserted.  With another number of
    devices, and every gradient key holding one handle per device, the
    sync returns normally and appends to [model.net] exactly one
    [NCCLAllreduce] per gradient key, in reduction order, over the key's
    handles; the first has no control input and every later one has as
    its control input the representative handle of the previous key. *)
Theorem single_host_sync devices w :
  (List.length devices = 1 ->
   _AllReduceGradientsSingleHost devices w = (w, Ok tt)
   /\ _BroadcastComputedParamsSingleHost devices w = (w, Ok tt))
  /\ (List.length devices <> 1 -> devices <> [] ->
      (forall g, In g (_grad_names (model w)) ->
         exists ps, grp_get (_device_grouped_blobs (model w)) g = Some ps
                    /\ List.length ps = List.length devices) ->
      let store := _device_grouped_blobs (model w) in
      let order := _GetReverseOrderedGrads (model w) in
      exists w' new_ops,
        _AllReduceGradientsSingleHost devices w = (w', Ok tt)
        /\ same_but_ops w w'
        /\ (forall r, r <> net -> op (nets (model w') r) = op (nets (model w) r))
        /\ op (nets (model w') net) = op (nets (model w) net) ++ new_ops
        /\ List.length new_ops = List.length order
        /\ forall j g,
             nth_error order j = Some g ->
             nth_error new_ops j
             = Some (NCCLAllreduce (cuda (hd 0%Z devices)) (group_of store g)
                       (match j with
                        | O => None
                        | S j' => option_map (representative store)
                                    (nth_error order j')
                        end))).
Proof.
  split.
  - intros H1. unfold _AllReduceGradientsSingleHost,
      _BroadcastComputedParamsSingleHost. rewrite H1. split; reflexivity.
  - intros Hn1 Hne Hready store order.
    destruct devices as [|d0 rest]; [congruence|].
    destruct (@single_host_fold (d0 :: rest) d0 store Hne order None w eq_refl)
      as [last' Hfold].
    { intros g Hg. apply Hready. unfold order, _GetReverseOrderedGrads in Hg.
      now apply in_rev. }
    set (new_ops := serialized_allreduces (cuda d0) (map (group_of store) order) None)
      in *.
    exists (emit_all (on_net net new_ops) w), new_ops.
    split; [|split; [|split; [|split; [|split]]]].
    + unfold _AllReduceGradientsSingleHost.
      destruct (Nat.eqb_spec (List.length (d0 :: rest)) 1) as [|_]; [contradiction|].
      erewrite run_bind by reflexivity.
      erewrite run_bind by reflexivity.
      fold order. erewrite run_bind by exact Hfold. reflexivity.
    + apply same_but_ops_emit_all.
    + intros r Hr. rewrite ops_emit_all, emitted_on_other by congruence.
      apply app_nil_r.
    + now rewrite ops_emit_all, emitted_on_net.
    + unfold new_ops. now rewrite serialized_allreduces_length, length_map.
    + intros j g Hj. unfold new_ops. cbn [hd].
      rewrite (serialized_allreduces_nth (cuda d0) _ None j
                 (g := group_of store g)).
      * destruct j as [|j']; [reflexivity|].
        rewrite nth_error_map. unfold representative.
        now destruct (nth_error order j').
      * now rewrite nth_error_map, Hj.
Qed.

(** ** Distributed synchronisation *)

Lemma list_set_ok (A : Type) (l : list A) : forall i x,
  i < List.length l -> exists l', list_set l i x = Ok l'
    /\ List.length l' = List.length l
    /\ nth_error l' i = Some x
    /\ forall j, j <> i -> nth_error l' j = nth_error l j.
Proof.
  induction l as [|y l IH]; intros [|i] x Hi; simpl in *; try lia.
  - eexists. split; [reflexivity|]. repeat split.
    intros [|j] Hj; [congruence | reflexivity].
  - destruct (IH i x) as [l' [Hset [Hlen [Hnth Hoth]]]]; [lia|].
    rewrite Hset. eexists. split; [reflexivity|]. simpl. repeat split; auto.
    intros [|j] Hj; [reflexivity|]. apply Hoth. congruence.
Qed.

Lemma dget_in_values (ps : DeviceBlobs) d b :
  dev_get ps d = Some b -> existsb (String.eqb b) (dvalues ps) = true.
Proof.
  unfold dev_get. induction ps as [|[d' b'] ps IH]; simpl; [discriminate|].
  destruct (Z.eqb d' d).
  - intros [= ->]. now rewrite String.eqb_refl.
  - intros H. rewrite (IH H). apply orb_true_r.
Qed.

Lemma control_index_run nc v w :
  nc <> 0 ->
  (if List.length (cyclical_controls v) <? nc then ret None
   else (c <- index (cyclical_controls v) (counter v mod nc) ;; ret (Some c))%M) w
  = (w, Ok (control_of nc v)).
Proof.
  intros Hnc. unfold control_of.
  destruct (Nat.ltb_spec (List.length (cyclical_controls v)) nc) as [Hlt|Hge];
    [reflexivity|].
  assert (Hi : counter v mod nc < List.length (cyclical_controls v)).
  { pose proof (Nat.mod_upper_bound (counter v) nc Hnc). lia. }
  unfold bind, index.
  destruct (nth_error (cyclical_controls v) (counter v mod nc)) eqn:E;
    [reflexivity|].
  apply nth_error_None in E. lia.
Qed.

Lemma push_control_run nc v r w :
  nc <> 0 ->
  (if List.length (cyclical_controls v) <? nc
   then ret (cyclical_controls v ++ [r])
   else lift (list_set (cyclical_controls v) (counter v mod nc) r)) w
  = (w, Ok (push_control nc v r)).
Proof.
  intros Hnc. unfold push_control.
  destruct (Nat.ltb_spec (List.length (cyclical_controls v)) nc) as [Hlt|Hge];
    [reflexivity|].
  assert (Hi : counter v mod nc < List.length (cyclical_controls v)).
  { pose proof (Nat.mod_upper_bound (counter v) nc Hnc). lia. }
  destruct (list_set_ok (cyclical_controls v) r Hi) as [l' [Hset _]].
  unfold lift. now rewrite Hset.
Qed.

Lemma distributed_body_run rendezvous d0 rest nc g ps v w :
  nc <> 0 ->
  grp_get (_device_grouped_blobs (model w)) g = Some ps ->
  complete (d0 :: rest) ps ->
  distributed_body (d0 :: rest) rendezvous d0 nc g v w
  = (emit_all (distributed_emits rendezvous d0 rest nc g ps v) w,
     Ok (next_vars nc v (reduced_blob rendezvous (blob_of ps d0))
           (hd "" (dvalues ps)))).
Proof.
  intros Hnc Hps Hc.
  destruct (Hc d0 (or_introl eq_refl)) as [b0 Hb0].
  assert (Hvals : exists b bs, dvalues ps = b :: bs).
  { unfold dev_get in Hb0. destruct ps as [|[d b] ps']; [discriminate|].
    now exists b, (dvalues ps'). }
  destruct Hvals as [first [others Hvals]].
  unfold distributed_body, distributed_emits, reduced_blob, reducing_device, rdma.
  rewrite (blob_of_some _ _ Hb0).
  erewrite run_bind by reflexivity.
  erewrite run_bind by (eapply grouped_blob_run; eassumption).
  erewrite run_bind by (eapply grouped_values_run; eassumption).
  rewrite (dget_in_values _ _ Hb0).
  erewrite run_bind by reflexivity.
  erewrite run_bind by apply emit_run.
  erewrite run_bind by apply emit_run.
  rewrite Hvals.
  erewrite run_bind by reflexivity.
  erewrite run_bind by apply emit_run.
  destruct (String.eqb (engine rendezvous) "RDMA_TCP") eqn:Heng.
  - erewrite run_bind.
    2:{ erewrite run_bind by apply emit_run.
        erewrite run_bind by apply emit_run.
        erewrite run_bind by apply emit_run.
        reflexivity. }
    erewrite run_bind by (apply control_index_run; exact Hnc).
    erewrite run_bind by apply emit_run.
    erewrite run_bind by apply emit_run.
    cbn [DeviceOption_eqb cpu cuda device_type negb].
    erewrite run_bind by apply emit_run.
    erewrite run_bind by (apply push_control_run; exact Hnc).
    erewrite run_bind by (apply Broadcast_run with (ps := ps); [exact Hps | exact Hc]).
    rewrite (blob_of_some _ _ Hb0).
    rewrite !emit_all_app. reflexivity.
  - erewrite run_bind by reflexivity.
    erewrite run_bind by (apply control_index_run; exact Hnc).
    erewrite run_bind by apply emit_run.
    erewrite run_bind by apply emit_run.
    cbn [DeviceOption_eqb cpu cuda device_type cuda_gpu_id negb].
    rewrite Z.eqb_refl. cbn [negb].
    erewrite run_bind by apply emit_run.
    erewrite run_bind by (apply push_control_run; exact Hnc).
    erewrite run_bind by (apply Broadcast_run with (ps := ps); [exact Hps | exact Hc]).
    rewrite (blob_of_some _ _ Hb0).
    rewrite !emit_all_app. reflexivity.
Qed.

Lemma distributed_fold rendezvous d0 rest nc store :
  nc <> 0 ->
  forall grads v w,
    _device_grouped_blobs (model w) = store ->
    (forall g, In g grads ->
       exists ps, grp_get store g = Some ps /\ complete (d0 :: rest) ps) ->
    exists v',
      foldM grads (distributed_body (d0 :: rest) rendezvous d0 nc) v w
      = (emit_all (distributed_trace rendezvous d0 rest nc store grads v) w, Ok v').
Proof.
  intros Hnc. induction grads as [|g grads IH]; intros v w Hst Hready.
  - exists v. reflexivity.
  - destruct (Hready g (or_introl eq_refl)) as [ps [Hps Hc]].
    cbn [foldM distributed_trace].
    assert (Hentry : entry store g = ps) by (unfold entry; now rewrite Hps).
    rewrite Hentry.
    erewrite run_bind
      by (apply distributed_body_run with (ps := ps);
          [exact Hnc | rewrite Hst; exact Hps | exact Hc]).
    edestruct IH as [v' Hrest].
    + rewrite store_emit_all. exact Hst.
    + intros g' Hg'. apply Hready. now right.
    + exists v'. rewrite Hrest, emit_all_app. reflexivity.
Qed.

Lemma filter_copies t (f : Z -> OperatorDef) l :
  (forall d, has_type t (f d) = false) -> filter (has_type t) (map f l) = [].
Proof.
  intros H. induction l as [|d l IH]; simpl; [reflexivity|]. now rewrite H.
Qed.

Lemma allreduces_of_emits rendezvous d0 rest nc g ps v :
  filter (has_type "Allreduce")
    (emitted net (distributed_emits rendezvous d0 rest nc g ps v))
  = [Allreduce (reducing_device rendezvous d0) (g ++ "_cw")%string
       (reduced_blob rendezvous (blob_of ps d0)) (engine rendezvous)
       (control_of nc v)].
Proof.
  unfold distributed_emits. rewrite !emitted_app, emitted_on_net, !filter_app.
  rewrite filter_copies by reflexivity.
  destruct (rdma rendezvous); reflexivity.
Qed.

Lemma common_worlds_of_emits rendezvous d0 rest nc g ps v :
  filter (has_type "CreateCommonWorld")
    (emitted param_init_net (distributed_emits rendezvous d0 rest nc g ps v))
  = [CreateCommonWorld (reducing_device rendezvous d0) rendezvous
       (g ++ "_cw")%string (g ++ "_cw_op")%string].
Proof.
  unfold distributed_emits.
  rewrite !emitted_app, emitted_on_other by discriminate.
  rewrite !filter_app.
  destruct (rdma rendezvous); reflexivity.
Qed.

Lemma window_run_ext nc rs : forall v v',
  cyclical_controls v = cyclical_controls v' -> counter v = counter v' ->
  window_run nc rs v = window_run nc rs v'.
Proof.
  induction rs as [|r rs IH]; intros v v' Hc Hn; [reflexivity|].
  cbn [window_run]. f_equal.
  - unfold control_of. now rewrite Hc, Hn.
  - apply IH; unfold next_vars, push_control; simpl; now rewrite ?Hc, ?Hn.
Qed.

Lemma allreduces_of_trace rendezvous d0 rest nc store grads : forall v,
  filter (has_type "Allreduce")
    (emitted net (distributed_trace rendezvous d0 rest nc store grads v))
  = map (fun gc =>
           Allreduce (reducing_device rendezvous d0) (fst gc ++ "_cw")%string
             (reduced_of rendezvous store d0 (fst gc)) (engine rendezvous) (snd gc))
      (combine grads
         (window_run nc (map (reduced_of rendezvous store d0) grads) v)).
Proof.
  induction grads as [|g grads IH]; intros v; [reflexivity|].
  cbn [distributed_trace map window_run combine].
  rewrite emitted_app, filter_app, allreduces_of_emits, IH.
  cbn [app fst snd]. unfold reduced_of at 1. f_equal. f_equal. f_equal.
  apply window_run_ext; reflexivity.
Qed.

Lemma common_worlds_of_trace rendezvous d0 rest nc store grads : forall v,
  filter (has_type "CreateCommonWorld")
    (emitted param_init_net (distributed_trace rendezvous d0 rest nc store grads v))
  = map (fun g =>
           CreateCommonWorld (reducing_device rendezvous d0) rendezvous
             (g ++ "_cw")%string (g ++ "_cw_op")%string) grads.
Proof.
  induction grads as [|g grads IH]; intros v; [reflexivity|].
  cbn [distributed_trace map].
  now rewrite emitted_app, filter_app, common_worlds_of_emits, IH.
Qed.

(** *** The window arithmetic *)

Lemma mod_sub_self n k : n <> 0 -> n <= k -> (k - n) mod n = k mod n.
Proof.
  intros Hn Hk. replace k with ((k - n) + 1 * n) at 2 by lia.
  now rewrite Nat.Div0.mod_add.
Qed.

Lemma mod_differs n j k : n <> 0 -> j < k -> k - j < n -> j mod n <> k mod n.
Proof.
  intros Hn Hjk Hlt Heq.
  pose proof (Nat.Div0.div_mod k n) as Hk.
  pose proof (Nat.Div0.div_mod j n) as Hj.
  assert (Hle : j / n <= k / n) by (apply Nat.Div0.div_le_mono; lia).
  assert (Hd : k - j = n * (k / n - j / n)).
  { rewrite Nat.mul_sub_distr_l. lia. }
  destruct (Nat.eq_dec (k / n - j / n) 0) as [H0|H0].
  - rewrite H0, Nat.mul_0_r in Hd. lia.
  - assert (n * 1 <= n * (k / n - j / n)) by (apply Nat.mul_le_mono_l; lia).
    lia.
Qed.

Lemma window_inv_init n : window_inv n [] (mkLoopVars [] 0 None).
Proof.
  unfold window_inv. simpl. split; [reflexivity|]. split; [reflexivity|].
  intros Hn. split; [lia|]. intros j Hj. lia.
Qed.

Lemma window_inv_step n done v r first :
  n <> 0 -> window_inv n done v ->
  window_inv n (done ++ [r]) (next_vars n v r first).
Proof.
  intros Hn [Hcnt [Hsmall Hfull]].
  unfold window_inv, next_vars, push_control. cbn [counter cyclical_controls].
  rewrite length_app. cbn [List.length].
  destruct (Nat.lt_ge_cases (List.length done) n) as [Hlt|Hge].
  - rewrite (Hsmall Hlt).
    destruct (Nat.ltb_spec (List.length done) n) as [_|]; [|lia].
    split; [lia|]. split; [reflexivity|].
    intros Hn'. split; [rewrite length_app; simpl; lia|].
    intros j Hj. rewrite Nat.mod_small by lia. reflexivity.
  - destruct (Hfull Hge) as [Hlen Hwin]. rewrite Hlen.
    destruct (Nat.ltb_spec n n) as [|_]; [lia|].
    assert (Hi : counter v mod n < List.length (cyclical_controls v)).
    { pose proof (Nat.mod_upper_bound (counter v) n Hn). lia. }
    destruct (list_set_ok (cyclical_controls v) r Hi)
      as [l' [Hset [Hl' [Hnth Hoth]]]].
    rewrite Hset. split; [lia|]. split; [lia|].
    intros _. split; [lia|].
    intros j Hj. rewrite Hcnt in *.
    destruct (Nat.eq_dec j (List.length done)) as [->|Hne].
    + rewrite Hnth, nth_error_app2, Nat.sub_diag by lia. reflexivity.
    + rewrite Hoth by (apply mod_differs; lia).
      rewrite nth_error_app1 by lia. apply Hwin. lia.
Qed.

Lemma window_run_is_sliding n : n <> 0 ->
  forall rs done v,
    window_inv n done v ->
    window_run n rs v
    = map (window_control n (done ++ rs)) (seq (List.length done) (List.length rs)).
Proof.
  intros Hn. induction rs as [|r rs IH]; intros done v Hinv; [reflexivity|].
  cbn [window_run List.length seq map]. f_equal.
  - destruct Hinv as [Hcnt [Hsmall Hfull]].
    unfold control_of, window_control.
    destruct (Nat.lt_ge_cases (List.length done) n) as [Hlt|Hge].
    + rewrite (Hsmall Hlt).
      destruct (Nat.ltb_spec (List.length done) n); [reflexivity | lia].
    + destruct (Hfull Hge) as [Hlen Hwin]. rewrite Hlen, Hcnt.
      destruct (Nat.ltb_spec n n); [lia|].
      destruct (Nat.ltb_spec (List.length done) n); [lia|].
      rewrite nth_error_app1 by lia.
      rewrite <- (mod_sub_self Hn Hge). apply Hwin. lia.
  - rewrite (IH (done ++ [r]) _ (window_inv_step r "" Hn Hinv)).
    rewrite <- app_assoc, length_app. cbn [app List.length].
    now rewrite Nat.add_1_r.
Qed.

Lemma num_controls_bounds workers :
  (1 < workers)%Z ->
  1 <= num_controls_of workers <= 4.
Proof. unfold num_controls_of. lia. Qed.

Lemma map_combine_fst (A B C : Type) (f : A -> C) (l1 : list A) (l2 : list B) :
  List.length l1 = List.length l2 ->
  map (fun ab => f (fst ab)) (combine l1 l2) = map f l1.
Proof.
  revert l2. induction l1 as [|a l1 IH]; intros [|b l2] H; simpl in *;
    try discriminate; [reflexivity|].
  f_equal. apply IH. lia.
Qed.

Lemma map_combine_snd (A B C : Type) (f : B -> C) (l1 : list A) (l2 : list B) :
  List.length l1 = List.length l2 ->
  map (fun ab => f (snd ab)) (combine l1 l2) = map f l2.
Proof.
  revert l2. induction l1 as [|a l1 IH]; intros [|b l2] H; simpl in *;
    try discriminate; [reflexivity|].
  f_equal. apply IH. lia.
Qed.

Lemma window_run_length n rs : forall v, List.length (window_run n rs v) = List.length rs.
Proof. induction rs; intros; simpl; auto. Qed.

(** The distributed sync, run: it appends the trace of its loop. *)
Lemma distributed_sync_run d0 rest rendezvous w :
  (1 < num_workers (nets (model w) net))%Z ->
  (forall g, In g (_grad_names (model w)) ->
     exists ps, grp_get (_device_grouped_blobs (model w)) g = Some ps
                /\ complete (d0 :: rest) ps) ->
  _AllReduceGradientsDistributed (d0 :: rest) rendezvous w
  = (emit_all
       (distributed_trace rendezvous d0 rest
          (num_controls_of (num_workers (nets (model w) net)))
          (_device_grouped_blobs (model w))
          (_GetReverseOrderedGrads (model w)) (mkLoopVars [] 0 None)) w,
     Ok tt).
Proof.
  intros Hw Hready.
  pose proof (num_controls_bounds Hw) as Hn.
  unfold _AllReduceGradientsDistributed.
  erewrite run_bind by reflexivity.
  apply Z.ltb_lt in Hw. rewrite Hw.
  erewrite run_bind by reflexivity.
  erewrite run_bind by reflexivity.
  erewrite run_bind by reflexivity.
  edestruct (@distributed_fold rendezvous d0 rest
               (num_controls_of (num_workers (nets (model w) net)))
               (_device_grouped_blobs (model w)))
    with (grads := _GetReverseOrderedGrads (model w))
         (v := mkLoopVars [] 0 None) (w := w) as [v' Hfold].
  - lia.
  - reflexivity.
  - intros g Hg. apply Hready. unfold _GetReverseOrderedGrads in Hg.
    now apply in_rev.
  - erewrite run_bind by exact Hfold. reflexivity.
Qed.

(** C1 (as amended).  In distributed gradient sync, for every gradient
    count, the cross-host all-reduce issued per gradient key works on the
    key's scratch tensor and takes its "run after" control input from a
    sliding window of prior reduced tensors whose size is
    [min(4, num_workers - 1)], where [num_workers] is the worker count of
    the model's net and not the shard count: the first
    [min(4, num_workers - 1)] all-reduces have no control input, and every
    later one has as its control input the reduced tensor issued
    [min(4, num_workers - 1)] steps earlier.  With the worker count
    [Parallelize_GPU] sets when a rendezvous is given,
    [4 * |devices| + 8], the window has size 4. *)
Theorem distributed_sync_window d0 rest rendezvous w :
  (1 < num_workers (nets (model w) net))%Z ->
  (forall g, In g (_grad_names (model w)) ->
     exists ps, grp_get (_device_grouped_blobs (model w)) g = Some ps
                /\ complete (d0 :: rest) ps) ->
  let workers := num_workers (nets (model w) net) in
  let n := Z.to_nat (Z.min 4 (workers - 1)) in
  let reduced :=
    map (reduced_of rendezvous (_device_grouped_blobs (model w)) d0)
      (_GetReverseOrderedGrads (model w)) in
  exists w' new_ops,
    _AllReduceGradientsDistributed (d0 :: rest) rendezvous w = (w', Ok tt)
    /\ op (nets (model w') net) = op (nets (model w) net) ++ new_ops
    /\ map output (filter (has_type "Allreduce") new_ops) = map (fun r => [r]) reduced
    /\ map control_input (filter (has_type "Allreduce") new_ops)
       = window_controls n reduced
    /\ (forall j c,
          nth_error (map control_input (filter (has_type "Allreduce") new_ops)) j
          = Some c ->
          (j < n -> c = [])
          /\ (n <= j -> exists r, nth_error reduced (j - n) = Some r /\ c = [r]))
    /\ 1 <= n <= 4
    /\ (workers = (Z.of_nat (List.length (d0 :: rest)) * 4 + 8)%Z -> n = 4).
Proof.
  intros Hw Hready workers n reduced.
  pose proof (num_controls_bounds Hw) as Hn.
  fold workers in Hn. change (num_controls_of workers) with n in Hn.
  set (trace := distributed_trace rendezvous d0 rest n
                  (_device_grouped_blobs (model w))
                  (_GetReverseOrderedGrads (model w)) (mkLoopVars [] 0 None)).
  assert (Hctl :
    map control_input (filter (has_type "Allreduce") (emitted net trace))
    = window_controls n reduced).
  { unfold trace. rewrite allreduces_of_trace, map_map. cbn [control_input Allreduce].
    rewrite (map_combine_snd (fun c => ctrl c))
      by (now rewrite window_run_length, length_map).
    rewrite (@window_run_is_sliding n ltac:(lia) _ [] _ (window_inv_init n)).
    unfold window_controls, reduced. cbn [app List.length]. now rewrite map_map. }
  exists (emit_all trace w), (emitted net trace).
  split; [exact (@distributed_sync_run d0 rest rendezvous w Hw Hready)|].
  split; [apply ops_emit_all|].
  split; [|split; [exact Hctl|split; [|split; [exact Hn|]]]].
  - unfold trace. rewrite allreduces_of_trace, map_map. cbn [output Allreduce].
    rewrite (map_combine_fst
               (fun g => [reduced_of rendezvous (_device_grouped_blobs (model w)) d0 g]))
      by (now rewrite window_run_length, length_map).
    unfold reduced. now rewrite map_map.
  - intros j c Hj. rewrite Hctl in Hj. unfold window_controls in Hj.
    rewrite nth_error_map in Hj.
    destruct (nth_error (seq 0 (List.length reduced)) j) as [j'|] eqn:Hseq;
      [|discriminate].
    rewrite nth_error_seq in Hseq.
    destruct (Nat.ltb_spec j (List.length reduced)) as [Hjlt|]; [|discriminate].
    inversion Hseq; subst j'. cbn [Nat.add option_map] in Hj.
    inversion Hj; subst c. unfold window_control.
    destruct (Nat.ltb_spec j n) as [Hlt|Hge].
    + split; [reflexivity | lia].
    + split; [lia|]. intros _.
      destruct (nth_error reduced (j - n)) as [r|] eqn:Hr.
      * exists r. auto.
      * apply nth_error_None in Hr. lia.
  - intros Hworkers. unfold n. rewrite Hworkers. lia.
Qed.

Lemma sync_world_ready workers g :
  In g (_grad_names (model (sync_world workers))) ->
  exists ps,
    grp_get (_device_grouped_blobs (model (sync_world workers))) g = Some ps
    /\ complete [0; 1]%Z ps.
Proof.
  intros [<-|[<-|[<-|[]]]]; (eexists; split; [reflexivity|]);
    intros d [<-|[<-|[]]]; eexists; reflexivity.
Qed.

(** Three gradients and three workers: a window of two. *)
Lemma distributed_sync_window_witness :
  exists w' new_ops,
    _AllReduceGradientsDistributed [0; 1]%Z (sample_rendezvous 5) (sync_world 3)
    = (w', Ok tt)
    /\ op (nets (model w') net) = op (nets (model (sync_world 3)) net) ++ new_ops
    /\ map control_input (filter (has_type "Allreduce") new_ops)
       = [[]; []; ["gpu_0/w3_grad_red"]].
Proof.
  destruct (@distributed_sync_window 0%Z [1%Z] (sample_rendezvous 5) (sync_world 3))
    as [w' [new_ops [Hrun [Hops [_ [Hctl _]]]]]].
  - reflexivity.
  - apply sync_world_ready.
  - exists w', new_ops. split; [exact Hrun|]. split; [exact Hops|].
    rewrite Hctl. reflexivity.
Defined.

(** C1 as stated fails.  One device and two shards: the claimed window
    has size [min(4, 2 - 1) = 1], so the second and third all-reduce
    should run after the first and second reduced tensor.  The net
    [Parallelize_GPU] builds gives its three all-reduces no control
    input at all: its window has size [min(4, 12 - 1) = 4]. *)
Lemma window_ignores_shard_count :
  let run := sample_run ["w1"; "w2"; "w3"] [0%Z] (Some (sample_rendezvous 2)) in
  let allreduces := filter (has_type "Allreduce") (op (nets (model (fst run)) net)) in
  snd run = Ok tt
  /\ map output allreduces
     = [["gpu_0/w3_grad_red"]; ["gpu_0/w2_grad_red"]; ["gpu_0/w1_grad_red"]]
  /\ map control_input allreduces = [[]; []; []]
  /\ window_controls (Z.to_nat (Z.min 4 (2 - 1)))
       ["gpu_0/w3_grad_red"; "gpu_0/w2_grad_red"; "gpu_0/w1_grad_red"]
     = [[]; ["gpu_0/w3_grad_red"]; ["gpu_0/w2_grad_red"]].
Proof. cbv zeta. repeat split; vm_compute; reflexivity. Qed.

(** ** Communication groups *)

(** C9 (as amended).  Forming a communication group is not memoized:
    each formation emits a [CreateCommonWorld] operator named after the
    key and records nothing on the model object.  One distributed
    gradient sync emits exactly one [CreateCommonWorld] per gradient key,
    in reduction order, into [model.param_init_net], and the key's
    cross-host all-reduce takes the created world as its first input.
    Forming the groups a second time (a second sync over the same keys)
    emits a second [CreateCommonWorld] per key. *)
Theorem common_world_per_formation d0 rest rendezvous w :
  (1 < num_workers (nets (model w) net))%Z ->
  (forall g, In g (_grad_names (model w)) ->
     exists ps, grp_get (_device_grouped_blobs (model w)) g = Some ps
                /\ complete (d0 :: rest) ps) ->
  let order := _GetReverseOrderedGrads (model w) in
  let worlds :=
    map (fun g =>
           CreateCommonWorld (reducing_device rendezvous d0) rendezvous
             (g ++ "_cw")%string (g ++ "_cw_op")%string) order in
  let created w0 :=
    filter (has_type "CreateCommonWorld") (op (nets (model w0) param_init_net)) in
  exists w' w'' new_ops,
    _AllReduceGradientsDistributed (d0 :: rest) rendezvous w = (w', Ok tt)
    /\ same_but_ops w w'
    /\ created w' = created w ++ worlds
    /\ op (nets (model w') net) = op (nets (model w) net) ++ new_ops
    /\ map input (filter (has_type "Allreduce") new_ops)
       = map (fun g => [(g ++ "_cw")%string;
                        reduced_of rendezvous (_device_grouped_blobs (model w)) d0 g])
           order
    /\ _AllReduceGradientsDistributed (d0 :: rest) rendezvous w' = (w'', Ok tt)
    /\ created w'' = created w ++ worlds ++ worlds.
Proof.
  intros Hw Hready order worlds created.
  set (trace := distributed_trace rendezvous d0 rest
                  (num_controls_of (num_workers (nets (model w) net)))
                  (_device_grouped_blobs (model w)) order (mkLoopVars [] 0 None)).
  pose proof (same_but_ops_emit_all trace w) as Hsame.
  assert (Hcreated : forall w0,
            created (emit_all trace w0) = created w0 ++ worlds).
  { intros w0. unfold created. rewrite ops_emit_all, filter_app.
    unfold trace. now rewrite common_worlds_of_trace. }
  exists (emit_all trace w), (emit_all trace (emit_all trace w)), (emitted net trace).
  split; [exact (@distributed_sync_run d0 rest rendezvous w Hw Hready)|].
  split; [exact Hsame|].
  split; [apply Hcreated|].
  split; [apply ops_emit_all|].
  split; [|split].
  - unfold trace. rewrite allreduces_of_trace, map_map. cbn [input Allreduce].
    apply (map_combine_fst
             (fun g => [(g ++ "_cw")%string;
                        reduced_of rendezvous (_device_grouped_blobs (model w)) d0 g])).
    now rewrite window_run_length, length_map.
  - rewrite (@distributed_sync_run d0 rest rendezvous (emit_all trace w)).
    + unfold _GetReverseOrderedGrads.
      rewrite (same_num_workers Hsame), (same_store Hsame), (same_grad_names Hsame).
      reflexivity.
    + rewrite (same_num_workers Hsame). exact Hw.
    + rewrite (same_grad_names Hsame), (same_store Hsame). exact Hready.
  - rewrite !Hcreated. now rewrite <- app_assoc.
Qed.

Lemma common_world_per_formation_witness :
  exists w' w'',
    _AllReduceGradientsDistributed [0; 1]%Z (sample_rendezvous 5) (sync_world 3)
    = (w', Ok tt)
    /\ _AllReduceGradientsDistributed [0; 1]%Z (sample_rendezvous 5) w' = (w'', Ok tt)
    /\ List.length (filter (has_type "CreateCommonWorld")
                      (op (nets (model w') param_init_net))) = 3
    /\ List.length (filter (has_type "CreateCommonWorld")
                      (op (nets (model w'') param_init_net))) = 6.
Proof.
  destruct (@common_world_per_formation 0%Z [1%Z] (sample_rendezvous 5)
              (sync_world 3))
    as [w' [w'' [new_ops [Hrun [_ [Hc [_ [_ [Hrun' Hc']]]]]]]]].
  - reflexivity.
  - apply sync_world_ready.
  - exists w', w''. split; [exact Hrun|]. split; [exact Hrun'|].
    rewrite Hc, Hc'. split; reflexivity.
Defined.

(** C9 as stated fails.  The replication pass forms the group of the
    parameter [w1] in [model.param_init_net]; the checkpoint sync of the
    same model forms it again, in its own init net.  Nothing is reused:
    the process holds two operators creating the common world [w1_cw]. *)
Lemma common_world_created_twice :
  let built := sample_run ["w1"] [0%Z] (Some (sample_rendezvous 2)) in
  let synced := FinalizeAfterCheckpoint ["gpu_0/w1"] true (fst built) in
  let m := model (fst synced) in
  snd built = Ok tt
  /\ snd synced = Ok tt
  /\ List.length (filter (creates "w1_cw") (op (nets m param_init_net))) = 1
  /\ List.length (filter (creates "w1_cw") (op (nets m checkpoint_init_net))) = 1
  /\ List.length (filter (creates "w1_cw")
                    (op (nets m param_init_net) ++ op (nets m checkpoint_init_net)))
     = 2.
Proof. cbv zeta. repeat split; vm_compute; reflexivity. Qed.

(** ** The update callback *)

Lemma bind_ok_inv (A B : Type) (c : M A) (k : A -> M B) w w' b :
  bind c k w = (w', Ok b) ->
  exists w1 a, c w = (w1, Ok a) /\ k a w1 = (w', Ok b).
Proof.
  unfold bind. destruct (c w) as [w1 [a|e]]; [|discriminate].
  intros H. now exists w1, a.
Qed.

Lemma update_calls_app evs evs' :
  update_calls (evs ++ evs') = update_calls evs ++ update_calls evs'.
Proof. unfold update_calls. apply flat_map_app. Qed.

Lemma preserves_run (A : Type) (c : M A) w w' r :
  preserves_updates c -> c w = (w', r) ->
  update_calls (events w') = update_calls (events w).
Proof. intros Hc Hrun. specialize (Hc w). now rewrite Hrun in Hc. Qed.

Lemma pu_ret (A : Type) (a : A) : preserves_updates (ret a).
Proof. intros w. reflexivity. Qed.

Lemma pu_raise (A : Type) e : preserves_updates (@raise A e).
Proof. intros w. reflexivity. Qed.

Lemma pu_gets (A : Type) (f : ModelHelper -> A) : preserves_updates (gets f).
Proof. intros w. reflexivity. Qed.

Lemma pu_modify f : preserves_updates (modify f).
Proof. intros w. reflexivity. Qed.

Lemma pu_lift (A : Type) (r : result A) : preserves_updates (lift r).
Proof. intros w. reflexivity. Qed.

Lemma pu_emit r o : preserves_updates (emit r o).
Proof. intros w. reflexivity. Qed.

Lemma pu_assert b msg : preserves_updates (assert_M b msg).
Proof. intros w. unfold assert_M. now destruct b. Qed.

Lemma pu_index (A : Type) (l : list A) i : preserves_updates (index l i).
Proof. intros w. unfold index. now destruct (nth_error l i). Qed.

Lemma pu_bind (A B : Type) (c : M A) (k : A -> M B) :
  preserves_updates c -> (forall a, preserves_updates (k a)) ->
  preserves_updates (bind c k).
Proof.
  intros Hc Hk w. unfold bind. specialize (Hc w).
  destruct (c w) as [w1 [a|e]]; simpl in *; [|exact Hc].
  now rewrite Hk.
Qed.

Lemma pu_forM (A : Type) (l : list A) (f : A -> M unit) :
  (forall a, preserves_updates (f a)) -> preserves_updates (forM_ l f).
Proof.
  intros Hf. induction l as [|a l IH]; cbn [forM_]; [apply pu_ret|].
  apply pu_bind; [apply Hf | intros _; exact IH].
Qed.

Lemma pu_foldM (A S : Type) (l : list A) (f : A -> S -> M S) :
  (forall a s, preserves_updates (f a s)) -> forall s, preserves_updates (foldM l f s).
Proof.
  intros Hf. induction l as [|a l IH]; intros s; cbn [foldM]; [apply pu_ret|].
  apply pu_bind; [apply Hf | intros s'; apply IH].
Qed.

Lemma pu_log e : update_call e = [] -> preserves_updates (log_event e).
Proof.
  intros He w. simpl. rewrite update_calls_app. simpl. rewrite He. apply app_nil_r.
Qed.

Lemma pu_call_external (A : Type) e (f : ModelHelper -> ModelHelper * result A) :
  update_call e = [] -> preserves_updates (call_external e f).
Proof.
  intros He w. unfold call_external. destruct (f (model w)) as [m' r]. simpl.
  rewrite update_calls_app. simpl. rewrite He. apply app_nil_r.
Qed.

Create HintDb quiet.
#[local] Hint Resolve pu_ret pu_raise pu_gets pu_modify pu_lift pu_emit pu_assert
  pu_index pu_log pu_call_external : quiet.

Ltac quiet_step :=
  first
    [ apply pu_bind
    | apply pu_forM
    | apply pu_foldM
    | solve [auto with quiet]
    | match goal with
      | |- preserves_updates (if ?b then _ else _) => destruct b
      | |- preserves_updates (match ?x with _ => _ end) => destruct x
      | |- preserves_updates (let _ := _ in _) => cbv zeta
      end
    | progress intros ].

Ltac quiet := repeat quiet_step.

Lemma pu_grouped_blob name d : preserves_updates (grouped_blob name d).
Proof. unfold grouped_blob. quiet. Qed.

Lemma pu_grouped_values name : preserves_updates (grouped_values name).
Proof. unfold grouped_values. quiet. Qed.

#[local] Hint Resolve pu_grouped_blob pu_grouped_values : quiet.

Lemma pu_Broadcast devices n name : preserves_updates (_Broadcast devices n name).
Proof. unfold _Broadcast. quiet. Qed.

#[local] Hint Resolve pu_Broadcast : quiet.

Lemma pu_SyncParams devices n names : preserves_updates (_SyncParams devices n names).
Proof. unfold _SyncParams. quiet. Qed.

Lemma pu_AddDistributedParameterSync devices init n rendezvous names :
  preserves_updates (_AddDistributedParameterSync devices init n rendezvous names).
Proof. unfold _AddDistributedParameterSync. quiet. Qed.

Lemma pu_distributed_body devices rendezvous d0 nc g v :
  preserves_updates (distributed_body devices rendezvous d0 nc g v).
Proof. unfold distributed_body. quiet. Qed.

Lemma pu_single_host_body devices d0 g last :
  preserves_updates (single_host_body devices d0 g last).
Proof. unfold single_host_body. quiet. Qed.

#[local] Hint Resolve pu_SyncParams pu_AddDistributedParameterSync
  pu_distributed_body pu_single_host_body : quiet.

Lemma pu_AllReduceGradients devices rendezvous :
  preserves_updates (_AllReduceGradients devices rendezvous).
Proof.
  unfold _AllReduceGradients, _AllReduceGradientsDistributed,
    _AllReduceGradientsSingleHost. quiet.
Qed.

Lemma pu_BroadcastComputedParams devices rendezvous :
  preserves_updates (_BroadcastComputedParams devices rendezvous).
Proof.
  unfold _BroadcastComputedParams, _BroadcastComputedParamsDistributed,
    _BroadcastComputedParamsSingleHost. quiet.
Qed.

Lemma pu_bind_gradients devices : preserves_updates (bind_gradients devices).
Proof. unfold bind_gradients. quiet. Qed.

Lemma pu_losses_of l d : preserves_updates (losses_of l d).
Proof. unfold losses_of. quiet. Qed.

#[local] Hint Resolve pu_AllReduceGradients pu_BroadcastComputedParams
  pu_bind_gradients pu_losses_of : quiet.

Lemma pu_AddGradientOperators AddGradientOperators devices losses :
  preserves_updates (_AddGradientOperators AddGradientOperators devices losses).
Proof. unfold _AddGradientOperators. quiet. Qed.

Lemma pu_OptimizeGradientMemory share_grad_blobs losses devices :
  preserves_updates (_OptimizeGradientMemory share_grad_blobs losses devices).
Proof. unfold _OptimizeGradientMemory. quiet. Qed.

Lemma pu_replicate input_builder_fun forward_pass_builder_fun devices :
  preserves_updates (replicate input_builder_fun forward_pass_builder_fun devices).
Proof. unfold replicate. quiet. Qed.

#[local] Hint Resolve pu_AddGradientOperators pu_OptimizeGradientMemory
  pu_replicate : quiet.

Lemma bind_assoc (A B C : Type) (c : M A) (k : A -> M B) (k' : B -> M C) w :
  bind (bind c k) k' w = bind c (fun a => bind (k a) k') w.
Proof. unfold bind. destruct (c w) as [w1 [a|e]]; reflexivity. Qed.

Lemma bind_ext (A B : Type) (c : M A) (k k' : A -> M B) w :
  (forall a w1, k a w1 = k' a w1) -> bind c k w = bind c k' w.
Proof. intros H. unfold bind. destruct (c w) as [w1 [a|e]]; [apply H | reflexivity]. Qed.

(** [Parallelize_GPU] with an update callback is its four phases in
    sequence. *)
Lemma Parallelize_GPU_phases
    AddGradientOperators share_grad_blobs input_builder_fun
    forward_pass_builder_fun update devices rendezvous type
    broadcast_computed_params optimize_gradient_memory w :
  Parallelize_GPU AddGradientOperators share_grad_blobs input_builder_fun
    forward_pass_builder_fun (Some update) devices rendezvous type
    broadcast_computed_params optimize_gradient_memory w
  = (losses_by_gpu <-
       before_sync AddGradientOperators input_builder_fun
         forward_pass_builder_fun devices rendezvous type
         broadcast_computed_params ;;
     _AllReduceGradients devices rendezvous ;;
     update_params devices rendezvous update ;;
     after_update share_grad_blobs devices rendezvous optimize_gradient_memory
       losses_by_gpu)%M w.
Proof.
  unfold Parallelize_GPU, before_sync, after_update. cbv zeta.
  repeat first [ rewrite bind_assoc | apply bind_ext; intros; cbv beta ].
  reflexivity.
Qed.

Lemma pu_before_sync AddGradientOperators input_builder_fun
    forward_pass_builder_fun devices rendezvous type broadcast_computed_params :
  preserves_updates
    (before_sync AddGradientOperators input_builder_fun
       forward_pass_builder_fun devices rendezvous type
       broadcast_computed_params).
Proof. unfold before_sync. quiet. Qed.

Lemma pu_after_update share_grad_blobs devices rendezvous
    optimize_gradient_memory losses :
  preserves_updates
    (after_update share_grad_blobs devices rendezvous optimize_gradient_memory
       losses).
Proof. unfold after_update. quiet. Qed.

Lemma update_calls_logged lr l :
  update_calls (map (fun d => Call_param_update_builder_fun (device_scope d) lr) l)
  = map (fun d => (device_scope d, lr)) l.
Proof. induction l as [|d l IH]; [reflexivity|]. simpl. now rewrite <- IH. Qed.

(** The loop over the devices: every call is logged, the model is
    threaded through the calls, and the loop stops at the first call
    that raises. *)
Lemma update_loop_run update lr : forall devices w,
  exists k,
    k <= List.length devices
    /\ events (fst (forM_ devices (fun device =>
                     call_external
                       (Call_param_update_builder_fun (device_scope device) lr)
                       (update (device_scope device) lr)) w))
       = events w
         ++ map (fun d => Call_param_update_builder_fun (device_scope d) lr)
              (firstn k devices)
    /\ (model (fst (forM_ devices (fun device =>
                      call_external
                        (Call_param_update_builder_fun (device_scope device) lr)
                        (update (device_scope device) lr)) w)),
        snd (forM_ devices (fun device =>
               call_external
                 (Call_param_update_builder_fun (device_scope device) lr)
                 (update (device_scope device) lr)) w))
       = apply_updates update lr devices (model w)
    /\ (snd (forM_ devices (fun device =>
                call_external
                  (Call_param_update_builder_fun (device_scope device) lr)
                  (update (device_scope device) lr)) w) = Ok tt ->
        k = List.length devices).
Proof.
  induction devices as [|d devices IH]; intros w.
  - exists 0. cbn. rewrite app_nil_r. auto.
  - cbn [forM_ apply_updates].
    set (f := fun device : Z =>
                call_external
                  (Call_param_update_builder_fun (device_scope device) lr)
                  (update (device_scope device) lr)) in *.
    assert (Hstep :
      bind (call_external
              (Call_param_update_builder_fun (device_scope d) lr)
              (update (device_scope d) lr)) (fun _ => forM_ devices f) w
      = match update (device_scope d) lr (model w) with
        | (m', Ok _) =>
            forM_ devices f
              (mkWorld m'
                 (events w ++ [Call_param_update_builder_fun (device_scope d) lr]))
        | (m', Raise e) =>
            (mkWorld m'
               (events w ++ [Call_param_update_builder_fun (device_scope d) lr]),
             Raise e)
        end).
    { unfold bind, call_external.
      destruct (update (device_scope d) lr (model w)) as [m' [[]|e]]; reflexivity. }
    rewrite Hstep. clear Hstep.
    destruct (update (device_scope d) lr (model w)) as [m' [[]|e]].
    + destruct (IH (mkWorld m' (events w
                      ++ [Call_param_update_builder_fun (device_scope d) lr])))
        as (k & Hk & Hev & Hm & Hok).
      exists (S k). cbn [List.length firstn map model events] in *.
      split; [lia|]. split; [rewrite Hev, <- app_assoc; reflexivity|].
      split; [exact Hm|]. intros H. now rewrite (Hok H).
    + exists 1. cbn [List.length firstn map fst snd model events].
      split; [lia|]. split; [reflexivity|]. split; [reflexivity | discriminate].
Qed.

Lemma update_params_run devices rendezvous update w :
  match float_div_int float_one
          (Z.of_nat (List.length devices) * shards_of rendezvous) with
  | Raise e => update_params devices rendezvous update w = (w, Raise e)
  | Ok lr =>
      exists k,
        k <= List.length devices
        /\ events (fst (update_params devices rendezvous update w))
           = events w
             ++ map (fun d => Call_param_update_builder_fun (device_scope d) lr)
                  (firstn k devices)
        /\ (model (fst (update_params devices rendezvous update w)),
            snd (update_params devices rendezvous update w))
           = apply_updates update lr devices (model w)
        /\ (snd (update_params devices rendezvous update w) = Ok tt ->
            k = List.length devices)
  end.
Proof.
  unfold update_params. cbv zeta. unfold bind, lift.
  destruct (float_div_int float_one
              (Z.of_nat (List.length devices) * shards_of rendezvous))
    as [lr|e]; [|reflexivity].
  apply update_loop_run.
Qed.

Lemma scales_round : scales_round_up_to 4096 = true.
Proof. vm_compute. reflexivity. Qed.

Lemma scales_round_in n z :
  scales_round_up_to n = true -> (0 < z <= n)%Z ->
  scale_rounds (Z.to_nat z) = true.
Proof.
  unfold scales_round_up_to. intros H Hz. rewrite forallb_forall in H.
  apply H. apply in_seq. lia.
Qed.

Lemma float_div_int_rounds z lr :
  (0 < z <= 4096)%Z -> float_div_int float_one z = Ok lr ->
  rounds_inverse z lr = true.
Proof.
  intros Hz Hlr. pose proof (@scales_round_in 4096 z scales_round Hz) as H.
  unfold scale_rounds in H. rewrite Z2Nat.id in H by lia.
  now rewrite Hlr in H.
Qed.

(** C7.  The update callback and its scale.  Whether [Parallelize_GPU]
    returns or raises, the update calls it logs are calls for a prefix of
    the device list, one per device, in order and under that device's
    scope, all with the same scale, and if there is any, the scale is the
    float quotient [1.0 / (|devices| * shard_count)], where [shard_count]
    is 1 without a rendezvous and the rendezvous' shard count otherwise.
    When it returns normally the run is: all that precedes the gradient
    sync, then the gradient sync, which ends with no update call logged;
    then, on the model the sync left, the callback applied once per
    device of the whole list, each call logged as it is made; then the
    rest, which makes no further call.  For every product up to 4096 the
    scale lies within half a unit in its last place of the exact
    quotient. *)
Theorem update_callback_scale
    AddGradientOperators share_grad_blobs input_builder_fun
    forward_pass_builder_fun update devices rendezvous type
    broadcast_computed_params optimize_gradient_memory w :
  let shard_count :=
    match rendezvous with
    | None => 1%Z
    | Some r => num_shards r
    end in
  let z := (Z.of_nat (List.length devices) * shard_count)%Z in
  let run :=
    Parallelize_GPU AddGradientOperators share_grad_blobs input_builder_fun
      forward_pass_builder_fun (Some update) devices rendezvous type
      broadcast_computed_params optimize_gradient_memory w in
  (exists k lr,
     k <= List.length devices
     /\ update_calls (events (fst run))
        = update_calls (events w)
          ++ map (fun d => (device_scope d, lr)) (firstn k devices)
     /\ (k <> 0 -> float_div_int float_one z = Ok lr))
  /\ (snd run = Ok tt ->
      exists lr losses w_before w_synced w_updated,
        float_div_int float_one z = Ok lr
        /\ ((0 < z <= 4096)%Z -> rounds_inverse z lr = true)
        /\ before_sync AddGradientOperators input_builder_fun
             forward_pass_builder_fun devices rendezvous type
             broadcast_computed_params w = (w_before, Ok losses)
        /\ _AllReduceGradients devices rendezvous w_before = (w_synced, Ok tt)
        /\ update_calls (events w_synced) = update_calls (events w)
        /\ events w_updated
           = events w_synced
             ++ map (fun d => Call_param_update_builder_fun (device_scope d) lr)
                  devices
        /\ apply_updates update lr devices (model w_synced)
           = (model w_updated, Ok tt)
        /\ after_update share_grad_blobs devices rendezvous
             optimize_gradient_memory losses w_updated = (fst run, Ok tt)
        /\ update_calls (events (fst run))
           = update_calls (events w)
             ++ map (fun d => (device_scope d, lr)) devices).
Proof.
  intros shard_count z run.
  assert (Hz : (Z.of_nat (List.length devices) * shards_of rendezvous)%Z = z)
    by reflexivity.
  assert (Hrun :
    run
    = match before_sync AddGradientOperators input_builder_fun
              forward_pass_builder_fun devices rendezvous type
              broadcast_computed_params w with
      | (w1, Ok losses) =>
          match _AllReduceGradients devices rendezvous w1 with
          | (w2, Ok _) =>
              match update_params devices rendezvous update w2 with
              | (w3, Ok _) =>
                  after_update share_grad_blobs devices rendezvous
                    optimize_gradient_memory losses w3
              | (w3, Raise e) => (w3, Raise e)
              end
          | (w2, Raise e) => (w2, Raise e)
          end
      | (w1, Raise e) => (w1, Raise e)
      end).
  { unfold run. rewrite Parallelize_GPU_phases. reflexivity. }
  clearbody run. subst run.
  pose proof (@pu_before_sync AddGradientOperators input_builder_fun
                forward_pass_builder_fun devices rendezvous type
                broadcast_computed_params w) as Hbs.
  destruct (before_sync AddGradientOperators input_builder_fun
              forward_pass_builder_fun devices rendezvous type
              broadcast_computed_params w) as [w1 [losses|e]];
    cbn [fst] in Hbs; cbv beta iota.
  2:{ split; [|cbn [snd]; discriminate].
      exists 0, float_one. cbn [fst firstn map]. rewrite app_nil_r.
      split; [lia|]. split; [exact Hbs | congruence]. }
  pose proof (@pu_AllReduceGradients devices rendezvous w1) as Hsync.
  destruct (_AllReduceGradients devices rendezvous w1) as [w2 [[]|e]] eqn:Esync;
    cbn [fst] in Hsync; cbv beta iota.
  2:{ split; [|cbn [snd]; discriminate].
      exists 0, float_one. cbn [fst firstn map]. rewrite app_nil_r.
      split; [lia|]. split; [congruence | congruence]. }
  pose proof (update_params_run devices rendezvous update w2) as Hup.
  rewrite Hz in Hup.
  destruct (float_div_int float_one z) as [lr|e0] eqn:Hlr.
  2:{ rewrite Hup. cbv beta iota. split; [|cbn [snd]; discriminate].
      exists 0, float_one. cbn [fst firstn map]. rewrite app_nil_r.
      split; [lia|]. split; [congruence | congruence]. }
  destruct Hup as (k & Hk & Hev & Hm & Hall).
  destruct (update_params devices rendezvous update w2) as [w3 [[]|e]] eqn:Eup;
    cbn [fst snd] in *; cbv beta iota.
  2:{ split; [|cbn [snd]; discriminate].
      exists k, lr. split; [exact Hk|]. split; [|reflexivity].
      cbn [fst]. rewrite Hev, update_calls_app, update_calls_logged. congruence. }
  specialize (Hall eq_refl). subst k. rewrite firstn_all in Hev.
  pose proof (@pu_after_update share_grad_blobs devices rendezvous
                optimize_gradient_memory losses w3) as Hrest.
  assert (Hcalls :
    update_calls
      (events (fst (after_update share_grad_blobs devices rendezvous
                      optimize_gradient_memory losses w3)))
    = update_calls (events w) ++ map (fun d => (device_scope d, lr)) devices).
  { rewrite Hrest, Hev, update_calls_app, update_calls_logged. congruence. }
  split.
  - exists (List.length devices), lr. rewrite firstn_all.
    split; [lia|]. split; [exact Hcalls | reflexivity].
  - intros Hok.
    exists lr, losses, w1, w2, w3.
    split; [reflexivity|].
    split; [intros Hb; exact (float_div_int_rounds Hb Hlr)|].
    split; [reflexivity|]. split; [exact Esync|].
    split; [congruence|]. split; [exact Hev|].
    split; [now rewrite <- Hm|].
    split; [|exact Hcalls].
    rewrite (surjective_pairing (after_update _ _ _ _ _ _)) at 1.
    now rewrite Hok.
Qed.

Lemma sample_run_returns names devices rendezvous :
  snd (sample_run names devices rendezvous) = Ok tt ->
  Parallelize_GPU sample_gradients sample_share sample_input
    (sample_forward names) (Some sample_update) devices rendezvous "dag"
    true false fresh_world
  = (fst (sample_run names devices rendezvous), Ok tt).
Proof.
  intros H. fold (sample_run names devices rendezvous).
  rewrite (surjective_pairing (sample_run names devices rendezvous)) at 1.
  now rewrite H.
Qed.

(** Two devices on one host: each is called once, with scale [0.5],
    the float [2^52 * 2^-53]. *)
Lemma update_callback_scale_witness :
  exists lr,
    float_div_int float_one (Z.of_nat 2 * 1) = Ok lr
    /\ lr = S754_finite false 4503599627370496 (-53)
    /\ rounds_inverse (Z.of_nat 2 * 1) lr = true
    /\ update_calls (events (fst (sample_run ["w1"; "w2"] [0; 1]%Z None)))
       = update_calls (events fresh_world)
         ++ map (fun d => (device_scope d, lr)) [0; 1]%Z.
Proof.
  destruct (proj2 (@update_callback_scale sample_gradients sample_share
                     sample_input (sample_forward ["w1"; "w2"]) sample_update
                     [0; 1]%Z None "dag" true false fresh_world))
    as (lr & losses & w1 & w2 & w3 & Hlr & Hround & _ & _ & _ & _ & _ & _ & Hcalls).
  - vm_compute. reflexivity.
  - exists lr. split; [exact Hlr|]. split.
    + vm_compute in Hlr. now injection Hlr as <-.
    + split; [apply Hround; cbn; lia | exact Hcalls].
Defined.

(** Three devices: the scale is the float [0.3333333333333333], not the
    third. *)
Example lr_scale_three_devices :
  float_div_int float_one 3 = Ok (S754_finite false 6004799503160661 (-54)).
Proof. vm_compute. reflexivity. Qed.

(** ** The model must be empty *)

(** C10.  Whatever the callbacks, the devices and the options, on a model
    whose parameter list is not empty [Parallelize_GPU] fails with the
    assertion "Model needs to be empty" before any callback or
    collaborator is invoked: the event log is as it was, no net has
    gained or lost an operator, and the parameters and the grouped store
    are untouched. *)
Theorem nonempty_model_rejected
    AddGradientOperators share_grad_blobs input_builder_fun
    forward_pass_builder_fun param_update_builder_fun devices rendezvous type
    broadcast_computed_params optimize_gradient_memory w :
  params (model w) <> [] ->
  exists w',
    Parallelize_GPU AddGradientOperators share_grad_blobs input_builder_fun
      forward_pass_builder_fun param_update_builder_fun devices rendezvous type
      broadcast_computed_params optimize_gradient_memory w
    = (w', Raise (AssertionError "Model needs to be empty"))
    /\ events w' = events w
    /\ (forall r, op (nets (model w') r) = op (nets (model w) r))
    /\ params (model w') = params (model w)
    /\ computed_params (model w') = computed_params (model w)
    /\ _device_grouped_blobs (model w') = _device_grouped_blobs (model w).
Proof.
  intros Hne. unfold Parallelize_GPU, bind, modify, gets, assert_M. cbn.
  destruct (params (model w)) as [|p ps] eqn:Hp; [congruence|].
  cbn. eexists. split; [reflexivity|]. cbn. rewrite Hp.
  repeat split. intros r. now destruct r.
Qed.

Lemma nonempty_model_rejected_witness :
  exists w',
    Parallelize_GPU sample_gradients sample_share sample_input
      (sample_forward ["w1"]) (Some sample_update) [0; 1]%Z None "dag" true false
      (mkWorld three_params_model [])
    = (w', Raise (AssertionError "Model needs to be empty"))
    /\ events w' = [].
Proof.
  destruct (@nonempty_model_rejected sample_gradients sample_share sample_input
              (sample_forward ["w1"]) (Some sample_update) [0; 1]%Z None "dag"
              true false (mkWorld three_params_model []))
    as [w' [Hrun [Hev _]]].
  - discriminate.
  - exists w'. split; [exact Hrun | exact Hev].
Defined.

(** ** Witnesses for the scope check and the single-host sync *)

Lemma AnalyzeOperators_scope_check_witness :
  _AnalyzeOperators (scoped_model "gpu_2/x") = Ok tt
  /\ (exists o' blob,
        _AnalyzeOperators (scoped_model "gpu_1/x")
        = Raise (ScopeException blob (op_type o') (gpu_namescope (op_gpu o')) o')
        /\ blob = "gpu_1/x" /\ op_type o' = "Relu"
        /\ gpu_namescope (op_gpu o') = "gpu_2/")
  /\ _AnalyzeOperators
       (graph_of [nccl_over_two; relu_on 2 "gpu_2/x";
                  Copy (cuda 1) "gpu_0/w" "gpu_1/w"])
     = _AnalyzeOperators (scoped_model "gpu_2/x").
Proof.
  split; [|split].
  - apply (proj1 (AnalyzeOperators_scope_check (scoped_model "gpu_2/x"))).
    intros o [<-|[]] _. reflexivity.
  - destruct (proj1 (proj2 (AnalyzeOperators_scope_check (scoped_model "gpu_1/x")))
                (relu_on 2 "gpu_1/x") "gpu_1/x" 1%Z)
      as [o' [blob [Hrun _]]].
    + now left.
    + reflexivity.
    + now left.
    + reflexivity.
    + discriminate.
    + exists o', blob. split; [exact Hrun|].
      vm_compute in Hrun. inversion Hrun. repeat split.
  - apply (proj2 (proj2 (AnalyzeOperators_scope_check (scoped_model "gpu_2/x")))).
    reflexivity.
Defined.

Lemma single_host_sync_witness :
  _AllReduceGradientsSingleHost [0%Z] (sync_world 8) = (sync_world 8, Ok tt)
  /\ exists w' new_ops,
       _AllReduceGradientsSingleHost [0; 1]%Z (sync_world 8) = (w', Ok tt)
       /\ op (nets (model w') net) = op (nets (model (sync_world 8)) net) ++ new_ops
       /\ List.length new_ops = 3.
Proof.
  split.
  - apply (proj1 (single_host_sync [0%Z] (sync_world 8))). reflexivity.
  - destruct (proj2 (single_host_sync [0; 1]%Z (sync_world 8)))
      as [w' [new_ops [Hrun [_ [_ [Hops [Hlen _]]]]]]].
    + discriminate.
    + discriminate.
    + intros g Hg. destruct (@sync_world_ready 8%Z g Hg) as [ps [Hps _]].
      exists ps. split; [exact Hps|].
      destruct Hg as [<-|[<-|[<-|[]]]]; vm_compute in Hps; inversion Hps; reflexivity.
    + exists w', new_ops. split; [exact Hrun|]. split; [exact Hops|].
      rewrite Hlen. reflexivity.
Defined.

(** ** Checkpoint synchronisation *)












Lemma sync_copies_cons store d0 rest name names :
  sync_copies store d0 rest (name :: names)
  = map (fun d => Copy (cuda d) (blob_of (entry store name) d0)
                    (blob_of (entry store name) d)) rest
    ++ sync_copies store d0 rest names.
Proof. reflexivity. Qed.

Lemma on_net_app r ops1 ops2 : on_net r (ops1 ++ ops2) = on_net r ops1 ++ on_net r ops2.
Proof. unfold on_net. apply map_app. Qed.

Lemma sync_loop_run n d0 rest store : forall names w,
  _device_grouped_blobs (model w) = store ->
  (forall name, In name names ->
     exists ps, grp_get store name = Some ps /\ complete (d0 :: rest) ps) ->
  forM_ names (fun param => _Broadcast (d0 :: rest) n param) w
  = (emit_all (on_net n (sync_copies store d0 rest names)) w, Ok tt).
Proof.
  induction names as [|name names IH]; intros w Hst Hready; [reflexivity|].
  destruct (Hready name (or_introl eq_refl)) as [ps [Hps Hc]].
  cbn [forM_].
  erewrite run_bind
    by (apply Broadcast_run with (ps := ps); [rewrite Hst; exact Hps | exact Hc]).
  rewrite IH.
  - rewrite sync_copies_cons, on_net_app, emit_all_app.
    unfold entry. now rewrite Hps.
  - rewrite store_emit_all. exact Hst.
  - intros name' Hin. apply Hready. now right.
Qed.

(** [_SyncParams] over given names inserts the local copies of each. *)
Lemma SyncParams_run n d0 rest names w :
  (forall name, In name names ->
     exists ps, grp_get (_device_grouped_blobs (model w)) name = Some ps
                /\ complete (d0 :: rest) ps) ->
  _SyncParams (d0 :: rest) n (Some names) w
  = (emit_all
       (on_net n (sync_copies (_device_grouped_blobs (model w)) d0 rest names)) w,
     Ok tt).
Proof.
  intros Hready. unfold _SyncParams.
  erewrite run_bind by reflexivity.
  now apply sync_loop_run.
Qed.
















(** * Further properties of the module *)

(** ** Canonical names *)

Lemma rfind_none c s : rfind c s = None <-> lacks c s.
Proof.
  induction s as [|a s IH]; simpl; [tauto|].
  destruct (rfind c s) as [i|].
  - split; [discriminate|]. intros [_ H]. apply IH in H. discriminate.
  - destruct (Ascii.eqb_spec a c) as [->|Hne].
    + split; [discriminate|]. intros [H _]. congruence.
    + split; [intros _; split; [exact Hne | now apply IH] | reflexivity].
Qed.

Lemma rfind_split c s : forall i,
  rfind c s = Some i ->
  exists pre suf,
    s = (pre ++ String c suf)%string /\ String.length pre = i /\ lacks c suf.
Proof.
  induction s as [|a s IH]; intros i; simpl; [discriminate|].
  destruct (rfind c s) as [j|] eqn:E.
  - intros [= <-]. destruct (IH j eq_refl) as (pre & suf & -> & Hlen & Hl).
    exists (String a pre), suf. simpl. auto.
  - destruct (Ascii.eqb_spec a c) as [->|Hne]; [|discriminate].
    intros [= <-]. exists EmptyString, s. repeat split. now apply rfind_none.
Qed.

Lemma rfind_last c pre suf :
  lacks c suf -> rfind c (pre ++ String c suf) = Some (String.length pre).
Proof.
  intros Hl. induction pre as [|a pre IH]; simpl.
  - apply rfind_none in Hl. rewrite Hl. now rewrite Ascii.eqb_refl.
  - now rewrite IH.
Qed.

Lemma substring_all s : substring 0 (String.length s) s = s.
Proof. induction s as [|a s IH]; simpl; [reflexivity | now rewrite IH]. Qed.

Lemma slice_from_split c pre suf :
  slice_from (String.length pre + 1) (pre ++ String c suf) = suf.
Proof.
  unfold slice_from. induction pre as [|a pre IH]; simpl.
  - rewrite Nat.sub_0_r. apply substring_all.
  - exact IH.
Qed.

Lemma slice_to_split c pre suf :
  slice_to (String.length pre + 1) (pre ++ String c suf)
  = (pre ++ String c EmptyString)%string.
Proof.
  unfold slice_to. induction pre as [|a pre IH]; simpl.
  - now destruct suf.
  - now rewrite IH.
Qed.

Lemma stripParamName_ok p k :
  stripParamName p = Ok k
  <-> exists pre, p = (pre ++ String "/" k)%string /\ lacks "/" k.
Proof.
  unfold stripParamName, rindex, _NAMESCOPE_SEPARATOR. split.
  - destruct (rfind "/" p) as [i|] eqn:E; [|discriminate].
    destruct (rfind_split _ _ E) as (pre & suf & -> & Hlen & Hl).
    cbn [rbind]. subst i. rewrite slice_from_split.
    intros [= <-]. now exists pre.
  - intros (pre & -> & Hl). rewrite (@rfind_last _ pre _ Hl). cbn [rbind].
    now rewrite slice_from_split.
Qed.

Lemma stripParamName_raises p e :
  stripParamName p = Raise e ->
  e = ValueError "substring not found" /\ lacks "/" p.
Proof.
  unfold stripParamName, rindex, _NAMESCOPE_SEPARATOR.
  destruct (rfind "/" p) as [i|] eqn:E; cbn [rbind]; [discriminate|].
  intros [= <-]. split; [reflexivity | now apply rfind_none].
Qed.

(** X1.  [stripParamName] answers [k] exactly when the name is some
    prefix, a separator, and [k], with no separator in [k]; it raises
    exactly when the name has no separator at all, and then a
    [ValueError]. *)
Theorem stripParamName_spec p :
  (forall k,
     stripParamName p = Ok k
     <-> exists pre, p = (pre ++ String "/" k)%string /\ lacks "/" k)
  /\ (is_ok (stripParamName p) = false <-> lacks "/" p)
  /\ (forall e, stripParamName p = Raise e -> e = ValueError "substring not found").
Proof.
  split; [intros k; apply stripParamName_ok|]. split.
  - split.
    + destruct (stripParamName p) as [k|e] eqn:E; [discriminate|].
      intros _. now destruct (stripParamName_raises _ E).
    + intros Hl. destruct (stripParamName p) as [k|e] eqn:E; [|reflexivity].
      apply stripParamName_ok in E as (pre & -> & _).
      exfalso. clear -Hl. induction pre as [|a pre IH]; simpl in Hl.
      * now destruct Hl.
      * apply IH. now destruct Hl.
  - intros e E. now destruct (stripParamName_raises _ E).
Qed.

Lemma contains_self s : contains s s = true.
Proof.
  destruct s as [|a s]; [reflexivity|].
  cbn [contains]. apply orb_true_iff. left.
  apply prefix_app. exists EmptyString.
  clear. induction (String a s) as [|b t IH]; simpl; [reflexivity | now rewrite <- IH].
Qed.

Lemma GetNameScope_split pre k :
  lacks "/" k ->
  GetNameScope (pre ++ String "/" k)%string = (pre ++ String "/" EmptyString)%string.
Proof.
  intros Hl. unfold GetNameScope, _NAMESCOPE_SEPARATOR.
  rewrite (@rfind_last _ pre _ Hl). apply slice_to_split.
Qed.

(** X2.  The handle the checkpoint sync synthesizes for a quantity and a
    device is a replica of that quantity on that device: whenever [name]
    is the canonical name of some blob, [gpu_<d>/<name>] strips back to
    [name] and its name scope is [gpu_<d>/], so it passes the checks
    [_GroupByDevice] makes of a handle filed under [d]. *)
Theorem synthesized_handle_is_replica p name d :
  stripParamName p = Ok name ->
  stripParamName (gpu_namescope d ++ name)%string = Ok name
  /\ GetNameScope (gpu_namescope d ++ name)%string = gpu_namescope d
  /\ replica d name (gpu_namescope d ++ name)%string.
Proof.
  intros Hp.
  destruct (proj1 (stripParamName_ok p name) Hp) as (pre & _ & Hl).
  assert (Hshape : (gpu_namescope d ++ name)%string
                   = (("gpu_" ++ fmt d) ++ String "/" name)%string).
  { unfold gpu_namescope. now rewrite !append_assoc. }
  assert (Hscope : gpu_namescope d
                   = (("gpu_" ++ fmt d) ++ String "/" EmptyString)%string).
  { unfold gpu_namescope. now rewrite !append_assoc. }
  assert (Hstrip : stripParamName (gpu_namescope d ++ name)%string = Ok name).
  { rewrite Hshape. apply stripParamName_ok. now eexists. }
  assert (Hns : GetNameScope (gpu_namescope d ++ name)%string = gpu_namescope d).
  { rewrite Hshape, Hscope. now apply GetNameScope_split. }
  split; [exact Hstrip|]. split; [exact Hns|].
  split; [exact Hstrip|]. rewrite Hns. apply contains_self.
Qed.

Lemma synthesized_handle_is_replica_witness :
  replica 3 "momentum" (gpu_namescope 3 ++ "momentum")%string.
Proof.
  apply (@synthesized_handle_is_replica "gpu_0/sgd/momentum" "momentum" 3%Z).
  reflexivity.
Defined.

(** ** Grouping: what a successful [_GroupByDevice] guarantees *)

Lemma dset_in_key (K V : Type) (eqb : K -> K -> bool)
    (eqb_eq : forall a b, eqb a b = true <-> a = b) (d : dict K V) k v k' v' :
  In (k', v') (dset eqb d k v) -> In (k', v') d \/ (k' = k /\ v' = v).
Proof.
  induction d as [|[k0 w] d IH]; simpl.
  - intros [H|[]]. inversion H. now right.
  - destruct (eqb k0 k) eqn:E; simpl.
    + apply eqb_eq in E. subst k0.
      intros [H|H]; [inversion H; now right | left; now right].
    + intros [H|H]; [left; now left|].
      destruct (IH H); [left; now right | now right].
Qed.

Lemma entry_filed D P g name :
  filed D P g ->
  NoDup (dkeys (entry g name)) /\ incl (dkeys (entry g name)) D
  /\ forall d p, dev_get (entry g name) d = Some p -> In p P /\ replica d name p.
Proof.
  intros [_ Hg]. unfold entry, grp_get.
  destruct (dget String.eqb g name) as [ps|] eqn:E.
  - apply Hg. now apply (dget_some_in _ Seqb_iff).
  - split; [constructor|]. split; [intros x []|]. intros d p H. discriminate.
Qed.

Lemma filed_step D P g name d p :
  In d D -> In p P -> replica d name p -> filed D P g ->
  filed D P (grp_set g name (dev_set (entry g name) d p)).
Proof.
  intros Hd Hp Hrep Hf.
  destruct (entry_filed name Hf) as (Hnd0 & Hincl0 & Hrows0).
  destruct Hf as [Hnd Hg]. split.
  - unfold grp_set. rewrite dkeys_dset. unfold dmem.
    destruct (dget String.eqb g name) eqn:E; [exact Hnd|].
    apply (dget_none_notin _ Seqb_iff) in E.
    apply NoDup_app; [exact Hnd | repeat constructor; intros [] |].
    intros x Hx [Hxd|[]]. subst. contradiction.
  - intros k ps Hin.
    destruct (@dset_in_key _ _ _ Seqb_iff _ _ _ _ _ Hin) as [Hold|[-> ->]];
      [exact (Hg k ps Hold)|].
    split; [|split].
    + unfold dev_set. rewrite dkeys_dset. unfold dmem.
      destruct (dget Z.eqb (entry g name) d) eqn:E; [exact Hnd0|].
      apply (dget_none_notin _ Zeqb_iff) in E.
      apply NoDup_app; [exact Hnd0 | repeat constructor; intros [] |].
      intros x Hx [Hxd|[]]. subst. contradiction.
    + unfold dev_set. rewrite dkeys_dset.
      destruct (dmem Z.eqb (entry g name) d); [exact Hincl0|].
      intros x Hx. apply in_app_or in Hx as [Hx|[Hx|[]]]; [now apply Hincl0|].
      now subst.
    + intros d' p' Hget. unfold dev_set, dev_get in *.
      destruct (Z.eq_dec d d') as [<-|Hne].
      * rewrite (dget_dset_same _ Zeqb_iff) in Hget. injection Hget as <-. auto.
      * rewrite (dget_dset_other _ Zeqb_iff) in Hget by exact Hne.
        now apply Hrows0.
Qed.

Lemma filed_rows_within D P g : filed D P g -> rows_within D g.
Proof. intros [_ Hg] k ps Hin. destruct (Hg k ps Hin) as (H1 & H2 & _). auto. Qed.

(** What the first loop has done when it returns. *)
Lemma group_loop_sound D m Pall : forall P i g g',
  group_loop D m i P g = Ok g' ->
  incl P Pall -> filed D Pall g ->
  filed D Pall g'
  /\ incl (dkeys g) (dkeys g')
  /\ List.length g' <= List.length g + List.length P
  /\ forall p, In p P -> exists k, stripParamName p = Ok k /\ In k (dkeys g').
Proof.
  induction P as [|p P IH]; intros i g g' Hrun Hincl Hf.
  - injection Hrun as <-. split; [exact Hf|]. split; [apply incl_refl|].
    split; [simpl; lia | intros p []].
  - cbn [group_loop] in Hrun.
    destruct (stripParamName p) as [name|] eqn:Hname; [|discriminate].
    cbn [rbind] in Hrun.
    destruct (m =? 0); [discriminate|].
    destruct (nth_error D (i / m)) as [d|] eqn:Hd; [|discriminate].
    destruct (contains (gpu_namescope d) (GetNameScope p)) eqn:Hscope;
      [|discriminate].
    destruct (file_step g name) as [Hget Hset]. cbv zeta in Hget, Hset.
    rewrite Hget, Hset in Hrun.
    assert (Hstep : filed D Pall (grp_set g name (dev_set (entry g name) d p))).
    { apply filed_step; [eapply nth_error_In; exact Hd | apply Hincl; now left
                        | now split | exact Hf]. }
    destruct (IH _ _ _ Hrun (fun x Hx => Hincl x (or_intror Hx)) Hstep)
      as (Hf' & Hkeys & Hlen & Hall).
    assert (Hkeys0 : incl (dkeys g) (dkeys g')).
    { intros x Hx. apply Hkeys. unfold grp_set. rewrite dkeys_dset.
      destruct (dmem String.eqb g name); [exact Hx | apply in_or_app; now left]. }
    split; [exact Hf'|]. split; [exact Hkeys0|]. split.
    + pose proof (dset_length String.eqb g name (dev_set (entry g name) d p)).
      unfold grp_set in Hlen. cbn [List.length]. lia.
    + intros q [<-|Hq]; [|now apply Hall].
      exists name. split; [exact Hname|]. apply Hkeys.
      unfold grp_set. rewrite dkeys_dset. unfold dmem.
      destruct (dget String.eqb g name) eqn:E.
      * apply (dget_some_in _ Seqb_iff) in E.
        change name with (fst (name, d0)). now apply in_map.
      * apply in_or_app. right. now left.
Qed.

(** The first loop raises only for a handle without separator or for a
    handle under a foreign name scope. *)
Lemma group_loop_raises D m : m <> 0 -> forall P i g e,
  (forall r, r < List.length P -> (i + r) / m < List.length D) ->
  group_loop D m i P g = Raise e ->
  (exists msg, e = AssertionError msg)
  \/ (e = ValueError "substring not found" /\ exists p, In p P /\ lacks "/" p).
Proof.
  intros Hm. induction P as [|p P IH]; intros i g e Hidx Hrun; [discriminate|].
  cbn [group_loop] in Hrun.
  destruct (stripParamName p) as [name|e'] eqn:Hname.
  - cbn [rbind] in Hrun.
    destruct (Nat.eqb_spec m 0) as [|_]; [contradiction|].
    assert (Hi : i / m < List.length D).
    { specialize (Hidx 0). rewrite Nat.add_0_r in Hidx. apply Hidx. simpl. lia. }
    destruct (nth_error D (i / m)) as [d|] eqn:Hd;
      [|apply nth_error_None in Hd; lia].
    destruct (contains (gpu_namescope d) (GetNameScope p));
      [|injection Hrun as <-; left; eauto].
    destruct (file_step g name) as [Hget Hset]. cbv zeta in Hget, Hset.
    rewrite Hget, Hset in Hrun.
    destruct (IH _ _ _ (fun r Hr => eq_ind _ (fun x => x / m < _)
                (Hidx (S r) (proj1 (Nat.succ_lt_mono _ _) Hr)) _
                (eq_sym (Nat.add_succ_comm i r))) Hrun)
      as [H|[He (q & Hq & Hl)]]; [now left|].
    right. split; [exact He|]. exists q. split; [now right | exact Hl].
  - cbn [rbind] in Hrun. injection Hrun as <-.
    destruct (stripParamName_raises _ Hname) as [-> Hl].
    right. split; [reflexivity|]. exists p. split; [now left | exact Hl].
Qed.

Lemma check_loop_counts D P : forall items j,
  check_loop D P j items = Ok tt ->
  forall k ps, In (k, ps) items -> List.length ps = List.length D.
Proof.
  induction items as [|[k0 ps0] items IH]; intros j Hrun k ps Hin; [destruct Hin|].
  cbn [check_loop] in Hrun.
  destruct (Nat.eqb_spec (List.length ps0) (List.length D)) as [Hl|]; [|discriminate].
  destruct (nth_error D 0); [|discriminate].
  destruct (dev_get ps0 z); [|discriminate].
  destruct (nth_error P j); [|discriminate].
  destruct (String.eqb b b0); [|discriminate].
  destruct Hin as [H|H]; [injection H as <- <-; exact Hl | eapply IH; eauto].
Qed.

Lemma filed_empty D P : filed D P [].
Proof. split; [constructor | intros k ps []]. Qed.

Lemma GroupByDevice_inv D P g :
  _GroupByDevice D P = Ok g ->
  D <> []
  /\ group_loop D (List.length P / List.length D) 0 P [] = Ok g
  /\ check_loop D P 0 g = Ok tt.
Proof.
  unfold _GroupByDevice.
  destruct (Nat.eqb_spec (List.length D) 0) as [|HD]; [discriminate|].
  destruct (List.length P mod List.length D =? 0); [|discriminate].
  destruct (group_loop D _ 0 P []) as [g'|] eqn:Hloop; [|discriminate].
  cbn [rbind].
  destruct (check_loop D P 0 g') as [[]|] eqn:Hchk; [|discriminate].
  cbn [rbind]. intros [= <-].
  split; [now destruct D | auto].
Qed.

Lemma GroupByDevice_table_facts D P g :
  _GroupByDevice D P = Ok g ->
  NoDup (dkeys g)
  /\ (forall p, In p P -> exists k, stripParamName p = Ok k /\ In k (dkeys g))
  /\ (forall k ps, In (k, ps) g ->
        List.length ps = List.length D
        /\ NoDup (dkeys ps)
        /\ (forall d, In d D <-> exists p, dev_get ps d = Some p)
        /\ (forall d p, dev_get ps d = Some p -> In p P /\ replica d k p))
  /\ (P <> [] -> NoDup D).
Proof.
  intros Hrun. destruct (@GroupByDevice_inv D P g Hrun) as (HD & Hloop & Hchk).
  destruct (@group_loop_sound D _ P P 0 [] _ Hloop (incl_refl P) (filed_empty D P))
    as (Hf & _ & _ & Hall).
  pose proof (@check_loop_counts D P g 0 Hchk) as Hcount.
  assert (Hrows : forall k ps, In (k, ps) g ->
            List.length ps = List.length D
            /\ NoDup (dkeys ps) /\ incl (dkeys ps) D
            /\ incl D (dkeys ps)).
  { intros k ps Hin. destruct Hf as [_ Hg].
    destruct (Hg k ps Hin) as (Hnd & Hincl & _).
    split; [eauto|]. split; [exact Hnd|]. split; [exact Hincl|].
    apply NoDup_length_incl; [exact Hnd | | exact Hincl].
    unfold dkeys. rewrite length_map. rewrite (Hcount k ps Hin). lia. }
  split; [exact (proj1 Hf)|]. split; [exact Hall|]. split.
  - intros k ps Hin. destruct (Hrows k ps Hin) as (Hlen & Hnd & Hincl & Hfull).
    split; [exact Hlen|]. split; [exact Hnd|]. split.
    + intros d. split.
      * intros Hd. apply (dget_in _ Zeqb_iff). now apply Hfull.
      * intros [p Hp]. apply Hincl. apply (dget_some_in _ Zeqb_iff) in Hp.
        change d with (fst (d, p)). now apply in_map.
    + exact (proj2 (proj2 (proj2 Hf k ps Hin))).
  - intros HP. destruct P as [|p P']; [congruence|].
    destruct (Hall p (or_introl eq_refl)) as (k & _ & Hk).
    apply in_map_iff in Hk as ([k' ps] & _ & Hin).
    destruct (Hrows k' ps Hin) as (Hlen & Hnd & Hincl & Hfull).
    apply (NoDup_incl_NoDup Hnd); [|exact Hincl].
    unfold dkeys. rewrite length_map. lia.
Qed.

(** X3.  Whenever [_GroupByDevice] returns a table, whatever the input
    was: its keys are pairwise distinct; every input handle has a
    canonical name and that name is a key; every key holds exactly one
    handle for every device of the list and for no other device; every
    handle filed under a key and a device is an input handle whose
    canonical name is that key and whose name scope names that device;
    and if there was any handle at all the devices are pairwise
    distinct. *)
Theorem GroupByDevice_sound D P g :
  _GroupByDevice D P = Ok g ->
  NoDup (dkeys g)
  /\ (forall p, In p P -> exists k, stripParamName p = Ok k /\ In k (dkeys g))
  /\ (forall k ps, In (k, ps) g ->
        List.length ps = List.length D
        /\ NoDup (dkeys ps)
        /\ (forall d, In d D <-> exists p, dev_get ps d = Some p)
        /\ (forall d p, dev_get ps d = Some p -> In p P /\ replica d k p))
  /\ (P <> [] -> NoDup D).
Proof. apply GroupByDevice_table_facts. Qed.

Lemma GroupByDevice_sound_witness :
  NoDup [0; 1]%Z.
Proof.
  refine (proj2 (proj2 (proj2 (@GroupByDevice_sound [0; 1]%Z
    ["gpu_0/w"; "gpu_0/b"; "gpu_1/w"; "gpu_1/b"] _ eq_refl))) _).
  discriminate.
Defined.

(** X4.  The exceptions of [_GroupByDevice].  With no device it raises
    [ZeroDivisionError], whatever the handles.  With a device it never
    raises a lookup or index error: a failure is an assertion failure, or
    the [ValueError] of a handle whose name has no separator. *)
Theorem GroupByDevice_exceptions D P :
  (D = [] -> _GroupByDevice D P = Raise ZeroDivisionError)
  /\ (D <> [] -> forall e, _GroupByDevice D P = Raise e ->
        (exists msg, e = AssertionError msg)
        \/ (e = ValueError "substring not found"
            /\ exists p, In p P /\ lacks "/" p)).
Proof.
  split; [intros ->; reflexivity|].
  intros HD e. unfold _GroupByDevice.
  destruct (Nat.eqb_spec (List.length D) 0) as [H0|HDl];
    [destruct D; [congruence | discriminate]|].
  destruct (Nat.eqb_spec (List.length P mod List.length D) 0) as [Hdiv|Hdiv];
    [|intros [= <-]; left; eauto].
  destruct P as [|p P'].
  - cbn [List.length]. rewrite Nat.Div0.div_0_l. cbn [group_loop rbind check_loop].
    discriminate.
  - set (P := p :: P') in *.
    set (m := List.length P / List.length D).
    assert (Hexact : List.length P = List.length D * m)
      by (apply Nat.Div0.div_exact; exact Hdiv).
    assert (Hm : m <> 0).
    { intros Hm0. rewrite Hm0, Nat.mul_0_r in Hexact. discriminate. }
    assert (Hidx : forall r, r < List.length P -> (0 + r) / m < List.length D).
    { intros r Hr. apply Nat.Div0.div_lt_upper_bound.
      rewrite Nat.mul_comm. simpl. lia. }
    destruct (group_loop D m 0 P []) as [g|e'] eqn:Hloop; cbn [rbind].
    + destruct (@group_loop_sound D _ P P 0 [] _ Hloop (incl_refl P) (filed_empty D P))
        as (Hf & _ & Hlen & _).
      assert (Hd0 : exists d0, nth_error D 0 = Some d0)
        by (destruct D as [|d0 D']; [congruence | now exists d0]).
      destruct Hd0 as [d0 Hd0].
      pose proof (@check_loop_verdict D P d0 Hd0 g 0 (filed_rows_within Hf) Hlen)
        as Hchk.
      destruct (check_loop D P 0 g) as [[]|e'']; cbn [rbind verdict] in *;
        [discriminate|].
      intros [= <-]. left. destruct e''; try contradiction. eauto.
    + intros [= <-]. exact (@group_loop_raises D m Hm P 0 [] _ Hidx Hloop).
Qed.

Lemma GroupByDevice_exceptions_witness :
  _GroupByDevice [] ["gpu_0/w"] = Raise ZeroDivisionError
  /\ ((exists msg, ValueError "substring not found" = AssertionError msg)
      \/ (ValueError "substring not found" = ValueError "substring not found"
          /\ exists p, In p ["w"] /\ lacks "/" p)).
Proof.
  split.
  - apply (proj1 (GroupByDevice_exceptions [] ["gpu_0/w"])). reflexivity.
  - apply (proj2 (GroupByDevice_exceptions [0%Z] ["w"])); [discriminate|].
    reflexivity.
Defined.

(** ** What the synchronisation passes can do to the world *)

Lemma es_weaken (A : Type) (ok ok' : Emission -> bool) (c : M A) :
  (forall e, ok e = true -> ok' e = true) -> emits_such ok c -> emits_such ok' c.
Proof.
  intros Himp Hc w. destruct (Hc w) as (es & Hw & Hok).
  exists es. split; [exact Hw|].
  rewrite forallb_forall in *. auto.
Qed.

Lemma es_pure (A : Type) ok (c : M A) :
  (forall w, fst (c w) = w) -> emits_such ok c.
Proof. intros H w. exists []. split; [apply H | reflexivity]. Qed.

Lemma es_ret (A : Type) ok (a : A) : emits_such ok (ret a).
Proof. now apply es_pure. Qed.

Lemma es_raise (A : Type) ok e : emits_such ok (@raise A e).
Proof. now apply es_pure. Qed.

Lemma es_gets (A : Type) ok (f : ModelHelper -> A) : emits_such ok (gets f).
Proof. now apply es_pure. Qed.

Lemma es_lift (A : Type) ok (r : result A) : emits_such ok (lift r).
Proof. now apply es_pure. Qed.

Lemma es_assert ok b msg : emits_such ok (assert_M b msg).
Proof. apply es_pure. intros w. now destruct b. Qed.

Lemma es_index (A : Type) ok (l : list A) i : emits_such ok (index l i).
Proof. apply es_pure. intros w. unfold index. now destruct (nth_error l i). Qed.

Lemma es_emit ok r o : ok (r, o) = true -> emits_such ok (emit r o).
Proof.
  intros Hok w. exists [(r, o)]. rewrite emit_run. split; [reflexivity|].
  simpl. now rewrite Hok.
Qed.

Lemma es_bind (A B : Type) ok (c : M A) (k : A -> M B) :
  emits_such ok c -> (forall a, emits_such ok (k a)) -> emits_such ok (bind c k).
Proof.
  intros Hc Hk w. unfold bind.
  destruct (Hc w) as (es & Hw & Hok).
  destruct (c w) as [w1 [a|e]]; cbn [fst] in *.
  - destruct (Hk a w1) as (es' & Hw' & Hok').
    exists (es ++ es'). rewrite emit_all_app, <- Hw, Hw', forallb_app, Hok, Hok'.
    auto.
  - exists es. auto.
Qed.

Lemma es_forM (A : Type) ok (l : list A) (f : A -> M unit) :
  (forall a, emits_such ok (f a)) -> emits_such ok (forM_ l f).
Proof.
  intros Hf. induction l as [|a l IH]; cbn [forM_];
    [apply es_ret | apply es_bind; auto].
Qed.

Lemma es_foldM (A S : Type) ok (l : list A) (f : A -> S -> M S) :
  (forall a s, emits_such ok (f a s)) -> forall s, emits_such ok (foldM l f s).
Proof.
  intros Hf. induction l as [|a l IH]; intros s; cbn [foldM];
    [apply es_ret | apply es_bind; auto].
Qed.

Lemma typed_on_refl n ts o :
  existsb (String.eqb (op_type o)) ts = true -> typed_on n ts (n, o) = true.
Proof. intros H. unfold typed_on. cbn [fst snd]. now rewrite NetRef_eqb_refl. Qed.

Lemma either_l f g e : f e = true -> either f g e = true.
Proof. unfold either. now intros ->. Qed.

Lemma either_r f g e : g e = true -> either f g e = true.
Proof. unfold either. intros ->. apply orb_true_r. Qed.

Create HintDb emits.
#[local] Hint Resolve es_ret es_raise es_gets es_lift es_assert es_index : emits.

Ltac emits_step :=
  first
    [ solve [auto with emits]
    | apply es_emit;
      first [ now apply typed_on_refl
            | apply either_l; now apply typed_on_refl
            | apply either_r; now apply typed_on_refl ]
    | match goal with
      | |- emits_such _ (bind _ _) => apply es_bind
      | |- emits_such _ (forM_ _ _) => apply es_forM
      | |- emits_such _ (foldM _ _ _) => apply es_foldM
      | |- emits_such _ (if ?b then _ else _) => destruct b
      | |- emits_such _ (match ?x with _ => _ end) => destruct x
      | |- emits_such _ (let _ := _ in _) => cbv zeta
      | |- forall _, _ => intro
      end ].

Ltac emits := repeat emits_step.

Lemma es_grouped_blob ok name d : emits_such ok (grouped_blob name d).
Proof. unfold grouped_blob. emits. Qed.

Lemma es_grouped_values ok name : emits_such ok (grouped_values name).
Proof. unfold grouped_values. emits. Qed.

#[local] Hint Resolve es_grouped_blob es_grouped_values : emits.

Lemma es_Broadcast devices n name :
  emits_such (typed_on n ["Copy"]) (_Broadcast devices n name).
Proof. unfold _Broadcast. emits. Qed.

#[local] Hint Resolve es_Broadcast : emits.

Lemma es_SyncParams devices n names :
  emits_such (typed_on n ["Copy"]) (_SyncParams devices n names).
Proof. unfold _SyncParams. emits. Qed.

Lemma es_AddDistributedParameterSync devices init n rendezvous names :
  emits_such
    (either (typed_on init ["CreateCommonWorld"])
            (typed_on n ["Broadcast"; "CopyGPUToCPU"; "CopyCPUToGPU"]))
    (_AddDistributedParameterSync devices init n rendezvous names).
Proof. unfold _AddDistributedParameterSync. emits. Qed.

Lemma es_single_host_body devices d0 g last :
  emits_such (typed_on net ["NCCLAllreduce"]) (single_host_body devices d0 g last).
Proof. unfold single_host_body. emits. Qed.

#[local] Hint Resolve es_single_host_body : emits.

Lemma es_AllReduceGradientsSingleHost devices :
  emits_such (typed_on net ["NCCLAllreduce"]) (_AllReduceGradientsSingleHost devices).
Proof. unfold _AllReduceGradientsSingleHost. emits. Qed.

Lemma es_distributed_body devices rendezvous d0 nc g v :
  emits_such
    (either (typed_on param_init_net
               ["ConstantFill"; "CopyGPUToCPU"; "CreateCommonWorld"])
            (typed_on net
               ["ConstantFill"; "NCCLAllreduce"; "Copy"; "CopyGPUToCPU";
                "Allreduce"; "CopyCPUToGPU"]))
    (distributed_body devices rendezvous d0 nc g v).
Proof.
  unfold distributed_body. emits.
  eapply es_weaken; [|apply es_Broadcast].
  intros [r o] H. apply either_r. unfold typed_on in *. cbn [fst snd] in *.
  apply andb_prop in H as [-> H]. cbn [andb existsb] in *.
  rewrite orb_false_r in H. rewrite H. now rewrite !orb_true_r.
Qed.

#[local] Hint Resolve es_distributed_body : emits.

Lemma es_AllReduceGradientsDistributed devices rendezvous :
  emits_such
    (either (typed_on param_init_net
               ["ConstantFill"; "CopyGPUToCPU"; "CreateCommonWorld"])
            (typed_on net
               ["ConstantFill"; "NCCLAllreduce"; "Copy"; "CopyGPUToCPU";
                "Allreduce"; "CopyCPUToGPU"]))
    (_AllReduceGradientsDistributed devices rendezvous).
Proof. unfold _AllReduceGradientsDistributed. emits. Qed.

Lemma es_BroadcastComputedParams devices rendezvous :
  emits_such (typed_on net ["Copy"]) (_BroadcastComputedParams devices rendezvous).
Proof.
  unfold _BroadcastComputedParams, _BroadcastComputedParamsDistributed,
    _BroadcastComputedParamsSingleHost.
  emits.
Qed.

Lemma emits_inserts (A : Type) ok (c : M A) : emits_such ok c -> inserts_only ok c.
Proof.
  intros Hc w. destruct (Hc w) as (es & -> & Hok). split.
  - apply same_but_ops_emit_all.
  - exists es. split; [exact Hok|]. intros r. apply ops_emit_all.
Qed.

(** X5.  What the synchronisation passes can do to the world, whether
    they return or raise: nothing changes but the operator lists, which
    only grow.  [_Broadcast], [_SyncParams] and [_BroadcastComputedParams]
    insert only [Copy] operators, on the net they are given (the model's
    net for the computed parameters); the single-host gradient pass only
    [NCCLAllreduce] operators on the model's net; the parameter sync only
    [CreateCommonWorld] on the init net it is given and [Broadcast] and
    host copies on the other net; the distributed gradient pass touches
    only the model's net and init net. *)
Theorem sync_passes_insert_only devices n init rdv rendezvous param names :
  inserts_only (typed_on n ["Copy"]) (_Broadcast devices n param)
  /\ inserts_only (typed_on n ["Copy"]) (_SyncParams devices n names)
  /\ inserts_only (typed_on net ["Copy"])
       (_BroadcastComputedParams devices rendezvous)
  /\ inserts_only (typed_on net ["NCCLAllreduce"])
       (_AllReduceGradients devices None)
  /\ inserts_only
       (either (typed_on init ["CreateCommonWorld"])
               (typed_on n ["Broadcast"; "CopyGPUToCPU"; "CopyCPUToGPU"]))
       (_AddDistributedParameterSync devices init n rdv names)
  /\ inserts_only
       (either (typed_on param_init_net
                  ["ConstantFill"; "CopyGPUToCPU"; "CreateCommonWorld"])
               (typed_on net
                  ["ConstantFill"; "NCCLAllreduce"; "Copy"; "CopyGPUToCPU";
                   "Allreduce"; "CopyCPUToGPU"]))
       (_AllReduceGradients devices (Some rdv)).
Proof.
  split; [apply emits_inserts, es_Broadcast|].
  split; [apply emits_inserts, es_SyncParams|].
  split; [apply emits_inserts, es_BroadcastComputedParams|].
  split; [apply emits_inserts, es_AllReduceGradientsSingleHost|].
  split; apply emits_inserts.
  - apply es_AddDistributedParameterSync.
  - apply es_AllReduceGradientsDistributed.
Qed.

(** ** [_Broadcast] at its edges *)

Lemma forM_app (A : Type) (l1 l2 : list A) (f : A -> M unit) w w1 :
  forM_ l1 f w = (w1, Ok tt) -> forM_ (l1 ++ l2) f w = forM_ l2 f w1.
Proof.
  revert w. induction l1 as [|a l1 IH]; intros w; cbn [forM_ app].
  - now intros [= <-].
  - unfold bind at 1 2. destruct (f a w) as [w' [[]|e]]; [apply IH | discriminate].
Qed.

(** X6.  [_Broadcast] at its edges.  With no device it raises
    [IndexError]; with a single device it returns without looking the
    name up, so a missing name goes unnoticed; with more devices a name
    missing from the store raises [KeyError] before anything is inserted;
    and when the entry lacks a device, the copies to the devices before
    it stay in the net although the call raises [KeyError]. *)
Theorem Broadcast_edges n param w :
  _Broadcast [] n param w = (w, Raise IndexError)
  /\ (forall d, _Broadcast [d] n param w = (w, Ok tt))
  /\ (forall d0 d1 rest,
        grp_get (_device_grouped_blobs (model w)) param = None ->
        _Broadcast (d0 :: d1 :: rest) n param w = (w, Raise (KeyError param)))
  /\ (forall d0 done d rest ps,
        grp_get (_device_grouped_blobs (model w)) param = Some ps ->
        complete (d0 :: done) ps -> dev_get ps d = None ->
        _Broadcast (d0 :: done ++ d :: rest) n param w
        = (emit_all
             (on_net n
                (map (fun d' => Copy (cuda d') (blob_of ps d0) (blob_of ps d'))
                   done)) w,
           Raise (KeyError (fmt d)))).
Proof.
  split; [reflexivity|]. split; [reflexivity|]. split.
  - intros d0 d1 rest Hnone. unfold _Broadcast, index. cbn [nth_error tl forM_].
    unfold bind, ret, grouped_blob, gets, bind. now rewrite Hnone.
  - intros d0 done d rest ps Hps Hc Hd.
    destruct (Hc d0 (or_introl eq_refl)) as [b0 Hb0].
    unfold _Broadcast. erewrite run_bind by reflexivity. cbn [tl].
    erewrite forM_app.
    2:{ apply (broadcast_loop_run n param d0 Hb0 done w Hps).
        intros d' Hd'. apply Hc. now right. }
    rewrite (blob_of_some _ _ Hb0).
    set (w1 := emit_all _ w).
    assert (Hps1 : grp_get (_device_grouped_blobs (model w1)) param = Some ps)
      by (unfold w1; now rewrite store_emit_all).
    cbn [forM_].
    erewrite run_bind_raise; [reflexivity|].
    erewrite run_bind by (eapply grouped_blob_run; eassumption).
    unfold grouped_blob, bind, gets, raise. now rewrite Hps1, Hd.
Qed.

Lemma Broadcast_edges_witness :
  _Broadcast [0; 1; 2; 3]%Z net "w"
    (with_store [("w", [(0%Z, "gpu_0/w"); (1%Z, "gpu_1/w")])] fresh_world)
  = (emit_all [(net, Copy (cuda 1) "gpu_0/w" "gpu_1/w")]
       (with_store [("w", [(0%Z, "gpu_0/w"); (1%Z, "gpu_1/w")])] fresh_world),
     Raise (KeyError "2")).
Proof.
  refine (proj2 (proj2 (proj2 (Broadcast_edges net "w" _)))
            0%Z [1%Z] 2%Z [3%Z] [(0%Z, "gpu_0/w"); (1%Z, "gpu_1/w")] _ _ _).
  - reflexivity.
  - intros d [<-|[<-|[]]]; eexists; reflexivity.
  - reflexivity.
Defined.

(** X7.  With a single device the local passes insert nothing and cannot
    fail, whatever names they are asked for and whatever the store holds:
    the parameter copy pass, the broadcast of computed parameters (with
    or without rendezvous) and the single-host gradient pass leave the
    world as it is. *)
Theorem single_device_needs_no_sync d n names rendezvous w :
  _SyncParams [d] n names w = (w, Ok tt)
  /\ _BroadcastComputedParams [d] rendezvous w = (w, Ok tt)
  /\ _AllReduceGradients [d] None w = (w, Ok tt).
Proof.
  split; [|split; [now destruct rendezvous | reflexivity]].
  unfold _SyncParams.
  assert (H : forall l, forM_ l (fun param => _Broadcast [d] n param) w = (w, Ok tt)).
  { induction l as [|a l IH]; [reflexivity|]. cbn [forM_].
    erewrite run_bind by reflexivity. exact IH. }
  destruct names as [l|]; erewrite run_bind by reflexivity; apply H.
Qed.

(** ** Grouping, then synchronising *)

Lemma GroupByDevice_ready D P g :
  _GroupByDevice D P = Ok g ->
  forall name, In name (dkeys g) ->
    exists ps, grp_get g name = Some ps /\ complete D ps
               /\ forall d, In d D -> In (blob_of ps d) P /\ replica d name (blob_of ps d).
Proof.
  intros Hrun name Hin.
  destruct (GroupByDevice_table_facts _ _ Hrun) as (_ & _ & Hrows & _).
  destruct (dget_in _ Seqb_iff _ _ Hin) as [ps Hps].
  exists ps. split; [exact Hps|].
  apply (dget_some_in _ Seqb_iff) in Hps.
  destruct (Hrows name ps Hps) as (_ & _ & Hfull & Hrep).
  split.
  - intros d Hd. now apply Hfull.
  - intros d Hd. destruct (proj1 (Hfull d) Hd) as [p Hp].
    rewrite (blob_of_some _ _ Hp). now apply Hrep.
Qed.

Lemma sync_copies_length store d0 rest names :
  List.length (sync_copies store d0 rest names)
  = List.length names * List.length rest.
Proof.
  induction names as [|k ks IH]; [reflexivity|].
  rewrite sync_copies_cons, length_app, length_map. simpl. now rewrite IH.
Qed.

(** X8.  Grouping composes with synchronising.  When the store is a
    table [_GroupByDevice] returned for the device list, copying all its
    keys with [_SyncParams] returns normally and inserts, for every key
    and every device after the first, one [Copy] on that device; its
    source is an input handle of the first device, its target an input
    handle of that device, both with that key as canonical name. *)
Theorem grouped_store_syncs d0 rest P g n w :
  _GroupByDevice (d0 :: rest) P = Ok g ->
  _device_grouped_blobs (model w) = g ->
  _SyncParams (d0 :: rest) n (Some (dkeys g)) w
  = (emit_all (on_net n (sync_copies g d0 rest (dkeys g))) w, Ok tt)
  /\ List.length (sync_copies g d0 rest (dkeys g))
     = List.length g * List.length rest
  /\ forall o, In o (sync_copies g d0 rest (dkeys g)) ->
       exists k d src dst,
         o = Copy (cuda d) src dst /\ In k (dkeys g) /\ In d rest
         /\ In src P /\ replica d0 k src /\ In dst P /\ replica d k dst.
Proof.
  intros Hrun Hst.
  pose proof (GroupByDevice_ready _ _ Hrun) as Hready.
  split; [|split].
  - rewrite <- Hst. apply SyncParams_run. rewrite Hst.
    intros name Hin. destruct (Hready name Hin) as (ps & Hps & Hc & _). eauto.
  - rewrite sync_copies_length. unfold dkeys. now rewrite length_map.
  - intros o Ho. unfold sync_copies in Ho.
    apply in_flat_map in Ho as (k & Hk & Ho).
    apply in_map_iff in Ho as (d & <- & Hd).
    destruct (Hready k Hk) as (ps & Hps & _ & Hrep).
    unfold entry. rewrite Hps.
    destruct (Hrep d0 (or_introl eq_refl)) as [Hs0 Hr0].
    destruct (Hrep d (or_intror Hd)) as [Hs Hr].
    exists k, d, (blob_of ps d0), (blob_of ps d). auto 10.
Qed.

Lemma grouped_store_syncs_witness :
  List.length
    (sync_copies [("w", [(0%Z, "gpu_0/w"); (1%Z, "gpu_1/w")]);
                  ("b", [(0%Z, "gpu_0/b"); (1%Z, "gpu_1/b")])] 0 [1%Z]
       (dkeys [("w", [(0%Z, "gpu_0/w"); (1%Z, "gpu_1/w")]);
               ("b", [(0%Z, "gpu_0/b"); (1%Z, "gpu_1/b")])]))
  = 2 * 1.
Proof.
  refine (proj1 (proj2 (@grouped_store_syncs 0%Z [1%Z]
    ["gpu_0/w"; "gpu_0/b"; "gpu_1/w"; "gpu_1/b"] _ net
    (with_store [("w", [(0%Z, "gpu_0/w"); (1%Z, "gpu_1/w")]);
                 ("b", [(0%Z, "gpu_0/b"); (1%Z, "gpu_1/b")])] fresh_world)
    eq_refl eq_refl))).
Defined.
